(** * Fleet rotation backend: the break lifecycle and the daily schedule generator

    A shallow embedding of [app/services/break_service.py] and
    [app/services/rotation_service.py] with the parts of
    [app/models/models.py], [app/core/config.py] and
    [app/services/audit_service.py] they use, and of their callers: the
    daily job of [app/services/scheduler.py], the role checks of
    [app/api/deps.py], the break requests of [app/api/v1/driver.py], the
    generation, deactivation and ticket requests of [app/api/v1/admin.py],
    and the connection registry of [app/services/notification_service.py].

    Conventions of the embedding.
    - A [datetime] is a number of minutes on a fixed time line ([Z]); a [date]
      is a day number, and a duration is a number of minutes.  The [Float]
      columns holding minutes ([estimated_time_minutes],
      [break_time_remaining], ...) are exact integers here: rounding of
      floating-point values and resolution below one minute are not modelled.
    - Python's [int] is [Z]; list positions and lengths are [nat].
    - A table is the list of its rows, in the order the store returns them.
    - An exception is a value of [exn]; a call that may raise returns a
      [result].  A request handler returns a [response]: its body, the
      [HTTPException] it raises, or an exception it leaves unhandled. *)

From Stdlib Require Import String Ascii ZArith Bool List Lia.
From Stdlib Require DecimalString.
Import ListNotations.
Open Scope Z_scope.

(** ** Dates and times *)

Definition datetime := Z.
Definition date := Z.

Definition minutes_per_day : Z := 1440.

(** [cast(dt, Date)] and [dt.date()]. *)
Definition date_of (dt : datetime) : date := dt / minutes_per_day.

(** [datetime.combine(d, time(h, m))]. *)
Definition datetime_combine (d : date) (h m : Z) : datetime :=
  d * minutes_per_day + h * 60 + m.

(** ** Exceptions and results *)

Inductive exn : Type :=
| ValueError (msg : string)
| IndexError
| StoreError (statement : nat).

Inductive result (A : Type) : Type :=
| Ok (a : A)
| Raise (e : exn).
Arguments Ok {A} a.
Arguments Raise {A} e.

(** ** app/models/models.py *)

Module models.

Inductive DriverStatus := ACTIVE | ON_TRIP | ON_BREAK | OFF_DUTY.
Inductive VehicleStatus := FREE | ASSIGNED | EN_ROUTE | MAINTENANCE | OUT_OF_SERVICE.
Inductive TripStatus := SCHEDULED | TRIP_ACTIVE | COMPLETED | CANCELLED.
Inductive TripDirection := OUTBOUND | INBOUND.
Inductive ShiftType := MORNING | EVENING.
Inductive RotationPosition := DRIVER_1 | DRIVER_2 | DRIVER_3.

Definition DriverStatus_eqb (a b : DriverStatus) : bool :=
  match a, b with
  | ACTIVE, ACTIVE | ON_TRIP, ON_TRIP | ON_BREAK, ON_BREAK | OFF_DUTY, OFF_DUTY => true
  | _, _ => false
  end.

Definition VehicleStatus_eqb (a b : VehicleStatus) : bool :=
  match a, b with
  | FREE, FREE | ASSIGNED, ASSIGNED | EN_ROUTE, EN_ROUTE
  | MAINTENANCE, MAINTENANCE | OUT_OF_SERVICE, OUT_OF_SERVICE => true
  | _, _ => false
  end.

(** The columns of [Driver] the two services read or write. *)
Record Driver := mkDriver {
  driver_id : Z;
  driver_user_id : Z;
  driver_status : DriverStatus;
  break_time_remaining : Z;
  total_break_time_today : Z;
  break_start_time : option datetime;
  trips_since_last_break : Z;
  current_break_number : Z
}.

Record Vehicle := mkVehicle {
  vehicle_id : Z;
  vehicle_status : VehicleStatus;
  vehicle_capacity : Z
}.

Record Route := mkRoute {
  route_id : Z;
  route_name : string;
  estimated_time_minutes : Z;
  turnaround_time_minutes : Z;
  route_is_active : bool
}.

Record RotationAssignment := mkRotationAssignment {
  ra_id : Z;
  ra_route_id : Z;
  ra_driver_id : Z;
  ra_vehicle_id : Z;
  ra_shift_type : ShiftType;
  ra_position : RotationPosition;
  ra_shift_date : date;
  ra_shift_start_time : datetime;
  ra_shift_end_time : datetime
}.

Record Trip := mkTrip {
  trip_id : Z;
  trip_number : string;
  trip_route_id : Z;
  trip_driver_id : Z;
  trip_vehicle_id : Z;
  scheduled_start : datetime;
  scheduled_end : datetime;
  trip_status : TripStatus;
  direction : TripDirection;
  rotation_assignment_id : option Z
}.

Record Ticket := mkTicket {
  ticket_id : Z;
  ticket_trip_id : Z
}.

Record GPSTracking := mkGPSTracking {
  gps_id : Z;
  gps_vehicle_id : Z;
  gps_trip_id : option Z
}.

Record DriverExchange := mkDriverExchange {
  exchange_id : Z;
  exchange_rotation_assignment_id : Z;
  exchange_trip_id : option Z
}.

Record BreakLog := mkBreakLog {
  break_log_id : Z;
  bl_driver_id : Z;
  bl_shift_date : date;
  break_number : Z;
  start_time : datetime;
  end_time : option datetime;
  duration_minutes : option Z
}.

Record AuditLog := mkAuditLog {
  audit_user_id : option Z;
  audit_action : string;
  audit_entity_type : string;
  audit_entity_id : option Z
}.

End models.
Import models.

(** ** app/core/config.py *)

Record Settings := mkSettings {
  MIN_TRIPS_BEFORE_BREAK : Z
}.

Definition default_settings : Settings := {| MIN_TRIPS_BEFORE_BREAK := 1 |}.

(** ** app/services/break_service.py *)

Module break_service.

(** The part of the store a break request touches.  A request runs in a
    session of its own and the endpoint commits right after the service
    returns, so [db.add] is an insertion into the table; the primary key is
    drawn from the table's counter. *)
Record Store := mkStore {
  break_logs : list BreakLog;
  audit_logs : list AuditLog;
  next_break_log_id : Z
}.

(** [audit_service.log_action]. *)
Definition log_action (db : Store) (user_id : option Z) (action entity_type : string)
    (entity_id : option Z) : Store :=
  {| break_logs := break_logs db;
     audit_logs := audit_logs db ++ [mkAuditLog user_id action entity_type entity_id];
     next_break_log_id := next_break_log_id db |}.

Definition add_break_log (db : Store) (driver_id : Z) (shift_date : date)
    (number : Z) (start : datetime) : BreakLog * Store :=
  let row := mkBreakLog (next_break_log_id db) driver_id shift_date number start None None in
  (row, {| break_logs := break_logs db ++ [row];
           audit_logs := audit_logs db;
           next_break_log_id := next_break_log_id db + 1 |}).

Definition not_enough_trips : exn :=
  ValueError "Not enough trips completed to take a break".
Definition no_break_time : exn := ValueError "No break time remaining".
Definition not_on_break : exn := ValueError "Driver is not on break".

(** The spec's names for the two failures. *)
Definition IneligibleBreak (e : exn) : Prop :=
  e = not_enough_trips \/ e = no_break_time.
Definition NotOnBreak (e : exn) : Prop := e = not_on_break.

Section with_settings.
Variable settings : Settings.

(** The [is_eligible] entry of [get_break_status]. *)
Definition is_eligible (driver : Driver) : bool :=
  (MIN_TRIPS_BEFORE_BREAK settings <=? trips_since_last_break driver)
  && (0 <? break_time_remaining driver).

(** [start_break(db, driver)] at wall-clock time [now].  The test on
    [driver.status] guards a [pass]: both branches continue. *)
Definition start_break (now : datetime) (db : Store) (driver : Driver)
  : result (BreakLog * Driver * Store) :=
  let _ := if negb (DriverStatus_eqb (driver_status driver) ACTIVE) then tt else tt in
  if trips_since_last_break driver <? MIN_TRIPS_BEFORE_BREAK settings then
    Raise not_enough_trips
  else if break_time_remaining driver <=? 0 then
    Raise no_break_time
  else
    let number := current_break_number driver + 1 in
    let driver' :=
      {| driver_id := driver_id driver;
         driver_user_id := driver_user_id driver;
         driver_status := ON_BREAK;
         break_time_remaining := break_time_remaining driver;
         total_break_time_today := total_break_time_today driver;
         break_start_time := Some now;
         trips_since_last_break := trips_since_last_break driver;
         current_break_number := number |} in
    let '(break_log, db1) :=
      add_break_log db (driver_id driver') (date_of now) number now in
    let db2 := log_action db1 (Some (driver_user_id driver'))
                 "START_BREAK" "Driver" (Some (driver_id driver')) in
    Ok (break_log, driver', db2).
End with_settings.

(** The rows of [select(BreakLog).where(driver_id == id, end_time == None)]. *)
Definition is_open_for (id : Z) (l : BreakLog) : bool :=
  (bl_driver_id l =? id) &&
  match end_time l with None => true | Some _ => false end.

Definition open_logs (id : Z) (logs : list BreakLog) : list BreakLog :=
  filter (is_open_for id) logs.

(** [.order_by(start_time.desc())] followed by [.first()]: a row whose
    [start_time] is greatest, the earliest such row of the table on a tie. *)
Fixpoint latest_start (logs : list BreakLog) : option BreakLog :=
  match logs with
  | [] => None
  | l :: rest =>
      match latest_start rest with
      | Some m => if start_time l <? start_time m then Some m else Some l
      | None => Some l
      end
  end.

Definition close_log (now : datetime) (duration : Z) (l : BreakLog) : BreakLog :=
  {| break_log_id := break_log_id l;
     bl_driver_id := bl_driver_id l;
     bl_shift_date := bl_shift_date l;
     break_number := break_number l;
     start_time := start_time l;
     end_time := Some now;
     duration_minutes := Some duration |}.

(** The unit of work writes the changed row back by primary key. *)
Definition update_break_log (pk : Z) (f : BreakLog -> BreakLog)
    (logs : list BreakLog) : list BreakLog :=
  map (fun l => if break_log_id l =? pk then f l else l) logs.

(** [end_break(db, driver)] at wall-clock time [now]. *)
Definition end_break (now : datetime) (db : Store) (driver : Driver)
  : result (Driver * Store) :=
  match DriverStatus_eqb (driver_status driver) ON_BREAK, break_start_time driver with
  | true, Some started =>
      let duration := now - started in
      let driver' :=
        {| driver_id := driver_id driver;
           driver_user_id := driver_user_id driver;
           driver_status := ACTIVE;
           break_time_remaining := Z.max 0 (break_time_remaining driver - duration);
           total_break_time_today := total_break_time_today driver + duration;
           break_start_time := None;
           trips_since_last_break := 0;
           current_break_number := current_break_number driver |} in
      let db1 :=
        match latest_start (open_logs (driver_id driver') (break_logs db)) with
        | Some break_log =>
            {| break_logs := update_break_log (break_log_id break_log)
                               (close_log now duration) (break_logs db);
               audit_logs := audit_logs db;
               next_break_log_id := next_break_log_id db |}
        | None => db
        end in
      let db2 := log_action db1 (Some (driver_user_id driver'))
                   "END_BREAK" "Driver" (Some (driver_id driver')) in
      Ok (driver', db2)
  | _, _ => Raise not_on_break
  end.

End break_service.

(** ** Strings of a trip number *)

(** [str.upper()] on the ASCII letters. *)
Definition upper_ascii (c : ascii) : ascii :=
  let n := nat_of_ascii c in
  if (Nat.leb 97 n && Nat.leb n 122)%bool then ascii_of_nat (n - 32) else c.

Fixpoint upper (s : string) : string :=
  match s with
  | EmptyString => EmptyString
  | String c rest => String (upper_ascii c) (upper rest)
  end.

Definition digit (n : Z) : string :=
  String (ascii_of_nat (48 + Z.to_nat (n mod 10))) EmptyString.

Definition two_digits (n : Z) : string := (digit (n / 10) ++ digit n)%string.

(** [dt.strftime('%H%M')]. *)
Definition strftime_HHMM (dt : datetime) : string :=
  let minute_of_day := dt mod minutes_per_day in
  (two_digits (minute_of_day / 60) ++ two_digits (minute_of_day mod 60))%string.

(** ** app/services/rotation_service.py *)

Module rotation_service.

(** The tables the generator reads or writes, with the counters of the two
    autoincrement keys it draws from. *)
Record DB := mkDB {
  routes : list Route;
  drivers : list Driver;
  vehicles : list Vehicle;
  rotation_assignments : list RotationAssignment;
  trips : list Trip;
  tickets : list Ticket;
  gps_tracking : list GPSTracking;
  driver_exchanges : list DriverExchange;
  next_assignment_id : Z;
  next_trip_id : Z
}.

(** The statements the generator sends to the store. *)
Inductive Stmt : Type :=
| SelectCountTrips (d : date)
| SelectAssignmentIds (d : date)
| SelectTripIds (d : date)
| DeleteTickets (trip_ids : list Z)
| DeleteGPSTracking (trip_ids : list Z)
| DeleteDriverExchanges (assignment_ids : list Z)
| DeleteTrips (trip_ids : list Z)
| DeleteRotationAssignments (assignment_ids : list Z)
| SelectActiveRoutes
| SelectDrivers
| SelectVehicles
| Flush
| Commit.

(** An [AsyncSession]: the committed database, the transaction's view of
    it, and the statements the store has executed for this session. *)
Record Session := mkSession {
  committed : DB;
  working : DB;
  trace : list Stmt
}.

Definition new_session (db : DB) : Session :=
  {| committed := db; working := db; trace := [] |}.

(** *** The session monad: state and exceptions *)

Definition M (A : Type) : Type := Session -> result A * Session.

Definition ret {A} (a : A) : M A := fun s => (Ok a, s).

Definition raise {A} (e : exn) : M A := fun s => (Raise e, s).

Definition bind {A B} (m : M A) (k : A -> M B) : M B :=
  fun s =>
    match m s with
    | (Ok a, s') => k a s'
    | (Raise e, s') => (Raise e, s')
    end.

(** [try: m except Exception as e: handler(e)]. *)
Definition try_except {A} (m : M A) (handler : exn -> M A) : M A :=
  fun s =>
    match m s with
    | (Ok a, s') => (Ok a, s')
    | (Raise e, s') => handler e s'
    end.

Declare Scope session_scope.
Delimit Scope session_scope with session.
Notation "x <- m ;; k" := (bind m (fun x => k))
  (at level 61, m at next level, right associativity) : session_scope.
Notation "m ;;; k" := (bind m (fun _ => k))
  (at level 61, right associativity) : session_scope.
Local Open Scope session_scope.

(** [async with AsyncSessionLocal() as session] and the [get_db]
    dependency: the caller's session is closed when the request ends, which
    discards whatever was not committed. *)
Definition in_session {A} (m : M A) (db : DB) : result A * DB :=
  let '(r, s) := m (new_session db) in (r, committed s).

(** *** Queries and bulk deletes, as functions of the database *)

Definition on_date (d : date) (t : Trip) : bool :=
  date_of (scheduled_start t) =? d.

Definition shift_on (d : date) (a : RotationAssignment) : bool :=
  ra_shift_date a =? d.

Definition mem (x : Z) (l : list Z) : bool := existsb (Z.eqb x) l.

(** [column.in_(ids)] on a nullable column: NULL is in no list. *)
Definition mem_opt (x : option Z) (l : list Z) : bool :=
  match x with Some v => mem v l | None => false end.

Definition count_trips (d : date) (db : DB) : nat :=
  length (filter (on_date d) (trips db)).

Definition assignment_ids_on (d : date) (db : DB) : list Z :=
  map ra_id (filter (shift_on d) (rotation_assignments db)).

Definition trip_ids_on (d : date) (db : DB) : list Z :=
  map trip_id (filter (on_date d) (trips db)).

Definition set_tickets (db : DB) (l : list Ticket) : DB :=
  mkDB (routes db) (drivers db) (vehicles db) (rotation_assignments db)
    (trips db) l (gps_tracking db) (driver_exchanges db)
    (next_assignment_id db) (next_trip_id db).

Definition set_gps_tracking (db : DB) (l : list GPSTracking) : DB :=
  mkDB (routes db) (drivers db) (vehicles db) (rotation_assignments db)
    (trips db) (tickets db) l (driver_exchanges db)
    (next_assignment_id db) (next_trip_id db).

Definition set_driver_exchanges (db : DB) (l : list DriverExchange) : DB :=
  mkDB (routes db) (drivers db) (vehicles db) (rotation_assignments db)
    (trips db) (tickets db) (gps_tracking db) l
    (next_assignment_id db) (next_trip_id db).

Definition set_trips (db : DB) (l : list Trip) (next : Z) : DB :=
  mkDB (routes db) (drivers db) (vehicles db) (rotation_assignments db)
    l (tickets db) (gps_tracking db) (driver_exchanges db)
    (next_assignment_id db) next.

Definition set_rotation_assignments (db : DB) (l : list RotationAssignment)
    (next : Z) : DB :=
  mkDB (routes db) (drivers db) (vehicles db) l
    (trips db) (tickets db) (gps_tracking db) (driver_exchanges db)
    next (next_trip_id db).

Definition delete_tickets (ids : list Z) (db : DB) : DB :=
  set_tickets db (filter (fun x => negb (mem (ticket_trip_id x) ids)) (tickets db)).

Definition delete_gps_tracking (ids : list Z) (db : DB) : DB :=
  set_gps_tracking db
    (filter (fun x => negb (mem_opt (gps_trip_id x) ids)) (gps_tracking db)).

Definition delete_driver_exchanges (ids : list Z) (db : DB) : DB :=
  set_driver_exchanges db
    (filter (fun x => negb (mem (exchange_rotation_assignment_id x) ids))
       (driver_exchanges db)).

Definition delete_trips (ids : list Z) (db : DB) : DB :=
  set_trips db (filter (fun x => negb (mem (trip_id x) ids)) (trips db))
    (next_trip_id db).

Definition delete_rotation_assignments (ids : list Z) (db : DB) : DB :=
  set_rotation_assignments db
    (filter (fun x => negb (mem (ra_id x) ids)) (rotation_assignments db))
    (next_assignment_id db).

Definition active_routes (db : DB) : list Route :=
  filter route_is_active (routes db).

Definition drivers_on_duty (db : DB) : list Driver :=
  filter (fun d => negb (DriverStatus_eqb (driver_status d) OFF_DUTY)) (drivers db).

Definition vehicles_in_service (db : DB) : list Vehicle :=
  filter (fun v => negb (VehicleStatus_eqb (vehicle_status v) OUT_OF_SERVICE))
    (vehicles db).

(** [l[lo:hi]] for [0 <= lo <= hi]: the slice stops at the end of [l]. *)
Definition slice {A} (l : list A) (lo hi : nat) : list A :=
  firstn (hi - lo) (skipn lo l).

Definition is_empty {A} (l : list A) : bool :=
  match l with [] => true | _ => false end.

(** *** Session primitives *)

(** [db.add(obj)]: the row joins the transaction's view with the next key
    of its table.  (SQLAlchemy sends the INSERT at the next flush, in the
    order of the [add] calls; the generator reads a key only after a
    flush.) *)
Definition add_assignment (make : Z -> RotationAssignment) : M RotationAssignment :=
  fun s =>
    let db := working s in
    let row := make (next_assignment_id db) in
    (Ok row,
     {| committed := committed s;
        working := set_rotation_assignments db (rotation_assignments db ++ [row])
                     (next_assignment_id db + 1);
        trace := trace s |}).

Definition add_trip (make : Z -> Trip) : M Trip :=
  fun s =>
    let db := working s in
    let row := make (next_trip_id db) in
    (Ok row,
     {| committed := committed s;
        working := set_trips db (trips db ++ [row]) (next_trip_id db + 1);
        trace := trace s |}).

Definition when (b : bool) (m : M unit) : M unit := if b then m else ret tt.

Section with_store.

(** The store may refuse any statement (a lost connection, a violated
    constraint): [faulty n] tells whether the statement numbered [n] of
    the session raises. *)
Variable faulty : nat -> bool.

(** [await db.execute(stmt)]. *)
Definition execute {A} (stmt : Stmt) (run : DB -> A * DB) : M A :=
  fun s =>
    let n := length (trace s) in
    if faulty n then (Raise (StoreError n), s)
    else
      let '(a, db') := run (working s) in
      (Ok a, {| committed := committed s; working := db'; trace := trace s ++ [stmt] |}).

Definition query {A} (stmt : Stmt) (q : DB -> A) : M A :=
  execute stmt (fun db => (q db, db)).

Definition update (stmt : Stmt) (f : DB -> DB) : M unit :=
  execute stmt (fun db => (tt, f db)).

(** [await db.flush()]. *)
Definition flush : M unit := update Flush (fun db => db).

(** [await db.commit()]. *)
Definition commit : M unit :=
  fun s =>
    let n := length (trace s) in
    if faulty n then (Raise (StoreError n), s)
    else (Ok tt, {| committed := working s; working := working s;
                    trace := trace s ++ [Commit] |}).

(** Lines 20-51: the cleanup of a regeneration. *)
Definition delete_schedule (target_date : date) : M unit :=
  try_except
    (assignment_ids <- query (SelectAssignmentIds target_date)
                         (assignment_ids_on target_date) ;;
     trip_ids <- query (SelectTripIds target_date) (trip_ids_on target_date) ;;
     when (negb (is_empty trip_ids))
       (update (DeleteTickets trip_ids) (delete_tickets trip_ids) ;;;
        update (DeleteGPSTracking trip_ids) (delete_gps_tracking trip_ids)) ;;;
     when (negb (is_empty assignment_ids))
       (update (DeleteDriverExchanges assignment_ids)
          (delete_driver_exchanges assignment_ids)) ;;;
     when (negb (is_empty trip_ids))
       (update (DeleteTrips trip_ids) (delete_trips trip_ids)) ;;;
     when (negb (is_empty assignment_ids))
       (update (DeleteRotationAssignments assignment_ids)
          (delete_rotation_assignments assignment_ids)) ;;;
     flush)
    (fun e => raise e).

(** Lines 88-100: [for i, (d, v) in enumerate(zip(...))]. *)
Fixpoint add_assignments (route : Route) (target_date : date)
    (morning_start morning_end : datetime) (i : nat)
    (pairs : list (Driver * Vehicle)) : M (list RotationAssignment) :=
  match pairs with
  | [] => ret []
  | (d, v) :: rest =>
      assignment <- add_assignment (fun id =>
        {| ra_id := id;
           ra_route_id := route_id route;
           ra_driver_id := driver_id d;
           ra_vehicle_id := vehicle_id v;
           ra_shift_type := MORNING;
           ra_position := if Nat.eqb i 0 then DRIVER_1 else DRIVER_2;
           ra_shift_date := target_date;
           ra_shift_start_time := morning_start;
           ra_shift_end_time := morning_end |}) ;;
      assignments <- add_assignments route target_date morning_start morning_end
                       (S i) rest ;;
      ret (assignment :: assignments)
  end.

Definition make_trip (route : Route) (active_assignment : RotationAssignment)
    (dir : TripDirection) (suffix : string) (start : datetime) (id : Z) : Trip :=
  {| trip_id := id;
     trip_number := (upper (substring 0 3 (route_name route)) ++ "-"
                     ++ strftime_HHMM start ++ "-" ++ suffix)%string;
     trip_route_id := route_id route;
     trip_driver_id := ra_driver_id active_assignment;
     trip_vehicle_id := ra_vehicle_id active_assignment;
     scheduled_start := start;
     scheduled_end := start + estimated_time_minutes route;
     trip_status := SCHEDULED;
     direction := dir;
     rotation_assignment_id := Some (ra_id active_assignment) |}.

(** Lines 109-145: the [while current_dt < end_time] loop.  [fuel] bounds
    the number of iterations. *)
Fixpoint trip_loop (fuel : nat) (route : Route)
    (assignments : list RotationAssignment) (end_time current_dt : datetime)
    (driver_toggle : nat) : M (list Trip) :=
  match fuel with
  | O => ret []
  | S fuel' =>
      if current_dt <? end_time then
        match nth_error assignments driver_toggle with
        | None => raise IndexError
        | Some active_assignment =>
            let driver_toggle := (1 - driver_toggle)%nat in
            trip_out <- add_trip (make_trip route active_assignment OUTBOUND "O"
                                    current_dt) ;;
            let return_start :=
              current_dt + (estimated_time_minutes route
                            + turnaround_time_minutes route) in
            inbound <- (if return_start <? end_time then
                          trip_in <- add_trip (make_trip route active_assignment
                                                 INBOUND "I" return_start) ;;
                          ret [trip_in]
                        else ret []) ;;
            later <- trip_loop fuel' route assignments end_time
                       (current_dt + 60) driver_toggle ;;
            ret (trip_out :: inbound ++ later)
        end
      else ret []
  end.

(** Lines 104-145: the trips of one route.  The cycle time grows by 60 in
    each iteration, so [end_time - start_time] iterations are enough. *)
Definition sequence_trips (target_date : date) (route : Route)
    (assignments : list RotationAssignment) : M (list Trip) :=
  let start_time := datetime_combine target_date 6 0 in
  let end_time := datetime_combine target_date 14 0 in
  trip_loop (Z.to_nat (end_time - start_time)) route assignments end_time
    start_time 0.

(** Lines 84-145: the body of the route loop after the guard. *)
Definition schedule_route (target_date : date) (route : Route)
    (route_drivers : list Driver) (route_vehicles : list Vehicle) : M (list Trip) :=
  let morning_start := datetime_combine target_date 6 0 in
  let morning_end := datetime_combine target_date 15 0 in
  assignments <- add_assignments route target_date morning_start morning_end 0
                   (combine (firstn 2 route_drivers) route_vehicles) ;;
  flush ;;;
  sequence_trips target_date route assignments.

(** Lines 73-145: [for route in routes].  [len(all_drivers)] and
    [len(all_vehicles)] are positive here (line 64). *)
Fixpoint route_loop (target_date : date) (all_drivers : list Driver)
    (all_vehicles : list Vehicle) (routes : list Route)
    (driver_idx vehicle_idx : nat) : M (list Trip) :=
  match routes with
  | [] => ret []
  | route :: rest =>
      let route_drivers := slice all_drivers driver_idx (driver_idx + 3) in
      let route_vehicles := slice all_vehicles vehicle_idx (vehicle_idx + 2) in
      if (length route_drivers <? 2)%nat || (length route_vehicles <? 2)%nat then
        route_loop target_date all_drivers all_vehicles rest driver_idx vehicle_idx
      else
        let driver_idx := ((driver_idx + 3) mod length all_drivers)%nat in
        let vehicle_idx := ((vehicle_idx + 2) mod length all_vehicles)%nat in
        trips <- schedule_route target_date route route_drivers route_vehicles ;;
        later <- route_loop target_date all_drivers all_vehicles rest
                   driver_idx vehicle_idx ;;
        ret (trips ++ later)
  end.

(** Lines 53-148: the pools, the route loop and the commit. *)
Definition build_schedule (target_date : date) : M (list Trip) :=
  routes <- query SelectActiveRoutes active_routes ;;
  all_drivers <- query SelectDrivers drivers_on_duty ;;
  all_vehicles <- query SelectVehicles vehicles_in_service ;;
  if is_empty all_drivers || is_empty all_vehicles then ret []
  else
    generated_trips <- route_loop target_date all_drivers all_vehicles routes 0 0 ;;
    commit ;;;
    ret generated_trips.

(** [generate_daily_schedule(db, target_date, regenerate)]. *)
Definition generate_daily_schedule (target_date : date) (regenerate : bool)
  : M (list Trip) :=
  existing_trips_count <- query (SelectCountTrips target_date)
                            (count_trips target_date) ;;
  if (0 <? existing_trips_count)%nat && negb regenerate then ret []
  else
    when regenerate (delete_schedule target_date) ;;;
    build_schedule target_date.

End with_store.

(** A store that executes every statement. *)
Definition reliable : nat -> bool := fun _ => false.

End rotation_service.

(** ** The log closed by the end of a break *)

(** The log [end_break] closes: the open log of the driver with the latest
    start, rewritten in place with its end time and duration; no row changes
    when the driver has no open log. *)
Definition closes_latest_open (now : datetime) (duration : Z) (id : Z)
    (before after : list BreakLog) : Prop :=
  (exists l,
      In l before
      /\ break_service.is_open_for id l = true
      /\ (forall l', In l' before -> break_service.is_open_for id l' = true ->
                     start_time l' <= start_time l)
      /\ after = map (fun x => if break_log_id x =? break_log_id l
                               then break_service.close_log now duration x else x)
                   before
      /\ In (break_service.close_log now duration l) after)
  \/ (break_service.open_logs id before = [] /\ after = before).

(** ** Transactional behaviour of a session computation *)

(** [m] commits nothing, whether it returns or raises. *)
Definition keeps_committed {A} (m : rotation_service.M A) : Prop :=
  forall s r s', m s = (r, s') ->
    rotation_service.committed s' = rotation_service.committed s.

(** All or nothing: when [m] raises, nothing is committed; when it returns,
    either nothing is committed or the whole view of the transaction is. *)
Definition all_or_nothing {A} (m : rotation_service.M A) : Prop :=
  forall s r s', m s = (r, s') ->
    (forall e, r = Raise e ->
               rotation_service.committed s' = rotation_service.committed s)
    /\ (forall a, r = Ok a ->
                  rotation_service.committed s' = rotation_service.committed s
                  \/ rotation_service.committed s' = rotation_service.working s').

(** Whenever [m] returns, [m0] returns the same value in the same session. *)
Definition returns_as {A} (m m0 : rotation_service.M A) : Prop :=
  forall s a s', m s = (Ok a, s') -> m0 s = (Ok a, s').

(** Every statement the session has executed was accepted by the store. *)
Definition accepted (faulty : nat -> bool) (s : rotation_service.Session) : Prop :=
  forall n, (n < length (rotation_service.trace s))%nat -> faulty n = false.

(** [m] raises only when the store refuses a statement, and then with the
    store's error for that statement, the next one of the session. *)
Definition fails_only_at_store (faulty : nat -> bool) {A} (m : rotation_service.M A)
  : Prop :=
  forall s r s', m s = (r, s') -> accepted faulty s ->
    accepted faulty s'
    /\ (forall e, r = Raise e ->
                  e = StoreError (length (rotation_service.trace s'))
                  /\ faulty (length (rotation_service.trace s')) = true).

(** ** The slices claimed by the routes *)

(** The slices of the two pools each route claims, route after route, and
    the walk of the two shared indices: the header of the route loop without
    its body. *)
Fixpoint claimed_slices (all_drivers : list Driver) (all_vehicles : list Vehicle)
    (routes : list Route) (driver_idx vehicle_idx : nat)
  : list (Route * list Driver * list Vehicle) :=
  match routes with
  | [] => []
  | route :: rest =>
      let route_drivers :=
        rotation_service.slice all_drivers driver_idx (driver_idx + 3) in
      let route_vehicles :=
        rotation_service.slice all_vehicles vehicle_idx (vehicle_idx + 2) in
      (route, route_drivers, route_vehicles)
      :: (if (length route_drivers <? 2)%nat || (length route_vehicles <? 2)%nat
          then claimed_slices all_drivers all_vehicles rest driver_idx vehicle_idx
          else claimed_slices all_drivers all_vehicles rest
                 ((driver_idx + 3) mod length all_drivers)%nat
                 ((vehicle_idx + 2) mod length all_vehicles)%nat)
  end.

(** The body of the route loop run on each claim: a claim short of two
    drivers or two vehicles is passed over and the next one is taken up. *)
Fixpoint schedule_claims (faulty : nat -> bool) (target_date : date)
    (claims : list (Route * list Driver * list Vehicle))
  : rotation_service.M (list Trip) :=
  match claims with
  | [] => rotation_service.ret []
  | (route, route_drivers, route_vehicles) :: rest =>
      if (length route_drivers <? 2)%nat || (length route_vehicles <? 2)%nat
      then schedule_claims faulty target_date rest
      else
        rotation_service.bind
          (rotation_service.schedule_route faulty target_date route
             route_drivers route_vehicles)
          (fun trips =>
             rotation_service.bind (schedule_claims faulty target_date rest)
               (fun later => rotation_service.ret (trips ++ later)))
  end.

(** ** The timetable of a route, in the words of the specification *)

(** What the timetable says of a trip: direction, scheduled start and end. *)
Definition timetable_entry : Type := TripDirection * datetime * datetime.

Definition entry_of (t : Trip) : timetable_entry :=
  (direction t, scheduled_start t, scheduled_end t).

(** The dispatch cycles: from [start_time], every 60 minutes, as long as the
    cycle time is strictly before [end_time]. *)
Definition spec_cycle_times (start_time end_time : datetime) : list datetime :=
  map (fun k => start_time + 60 * Z.of_nat k)
    (seq 0 (Z.to_nat ((end_time - start_time + 59) / 60))).

(** One cycle: an OUTBOUND trip from the cycle time, lasting the route's
    estimated time, and an INBOUND trip starting a turnaround after the
    outbound's end if that start is strictly before [end_time]. *)
Definition spec_cycle (route : Route) (end_time cycle : datetime)
  : list timetable_entry :=
  let outbound_end := cycle + estimated_time_minutes route in
  let inbound_start := outbound_end + turnaround_time_minutes route in
  (OUTBOUND, cycle, outbound_end)
  :: (if inbound_start <? end_time
      then [(INBOUND, inbound_start, inbound_start + estimated_time_minutes route)]
      else []).

(** The morning timetable of a route: cycles on the hour from 06:00 to
    13:00, the last one before the bound 14:00. *)
Definition spec_timetable (target_date : date) (route : Route)
  : list timetable_entry :=
  flat_map (spec_cycle route (datetime_combine target_date 14 0))
    (map (fun h => datetime_combine target_date h 0) [6; 7; 8; 9; 10; 11; 12; 13]).

(** The timetable of a claim: nothing for a claim short of two drivers or
    two vehicles, the morning timetable of its route otherwise. *)
Definition spec_claim_timetable (target_date : date)
    (claim : Route * list Driver * list Vehicle) : list timetable_entry :=
  let '(route, route_drivers, route_vehicles) := claim in
  if (length route_drivers <? 2)%nat || (length route_vehicles <? 2)%nat
  then []
  else spec_timetable target_date route.

(** Two closed windows [[scheduled_start, scheduled_end]] share an instant. *)
Definition windows_overlap (a b : Trip) : Prop :=
  scheduled_start a <= scheduled_end b /\ scheduled_start b <= scheduled_end a.

(** ** The cleanup of a regeneration, in the words of the specification *)

(** The database once the schedule of [d] is removed: tickets and GPS
    records of the trips of [d], then the driver exchanges of the
    assignments of [d], then those trips, then those assignments, all chosen
    by the identifiers found in [db]. *)
Definition spec_cleanup (d : date) (db : rotation_service.DB) : rotation_service.DB :=
  let assignment_ids := rotation_service.assignment_ids_on d db in
  let trip_ids := rotation_service.trip_ids_on d db in
  rotation_service.delete_rotation_assignments assignment_ids
    (rotation_service.delete_trips trip_ids
       (rotation_service.delete_driver_exchanges assignment_ids
          (rotation_service.delete_gps_tracking trip_ids
             (rotation_service.delete_tickets trip_ids db)))).

(** The statements of the cleanup, in the order they reach the store; a
    delete is sent only for a non-empty identifier list. *)
Definition spec_cleanup_statements (d : date) (db : rotation_service.DB)
  : list rotation_service.Stmt :=
  let assignment_ids := rotation_service.assignment_ids_on d db in
  let trip_ids := rotation_service.trip_ids_on d db in
  let for_trips (l : list rotation_service.Stmt) :=
    if rotation_service.is_empty trip_ids then [] else l in
  let for_assignments (l : list rotation_service.Stmt) :=
    if rotation_service.is_empty assignment_ids then [] else l in
  [rotation_service.SelectAssignmentIds d; rotation_service.SelectTripIds d]
  ++ for_trips [rotation_service.DeleteTickets trip_ids;
                rotation_service.DeleteGPSTracking trip_ids]
  ++ for_assignments [rotation_service.DeleteDriverExchanges assignment_ids]
  ++ for_trips [rotation_service.DeleteTrips trip_ids]
  ++ for_assignments [rotation_service.DeleteRotationAssignments assignment_ids]
  ++ [rotation_service.Flush].

(** ** The rows a scheduled route adds *)

(** The assignment built in iteration [i] of the loop over the zipped
    drivers and vehicles, before its key is known. *)
Definition planned_assignment (route : Route) (target_date : date) (i : nat)
    (d : Driver) (v : Vehicle) (id : Z) : RotationAssignment :=
  {| ra_id := id;
     ra_route_id := route_id route;
     ra_driver_id := driver_id d;
     ra_vehicle_id := vehicle_id v;
     ra_shift_type := MORNING;
     ra_position := if Nat.eqb i 0 then DRIVER_1 else DRIVER_2;
     ra_shift_date := target_date;
     ra_shift_start_time := datetime_combine target_date 6 0;
     ra_shift_end_time := datetime_combine target_date 15 0 |}.

(** The trips of the dispatch cycles [cycles], before their keys are known:
    the cycles take the two assignments in turn, starting with the one at
    position [toggle]. *)
Fixpoint trip_plan (route : Route) (a1 a2 : RotationAssignment)
    (end_time : datetime) (cycles : list datetime) (toggle : nat)
  : list (Z -> Trip) :=
  match cycles with
  | [] => []
  | cycle :: later =>
      let active := if Nat.eqb toggle 0 then a1 else a2 in
      let return_start :=
        cycle + (estimated_time_minutes route + turnaround_time_minutes route) in
      rotation_service.make_trip route active OUTBOUND "O" cycle
      :: (if return_start <? end_time
          then [rotation_service.make_trip route active INBOUND "I" return_start]
          else [])
      ++ trip_plan route a1 a2 end_time later (1 - toggle)
  end.

(** Keys drawn one after the other from a counter. *)
Fixpoint number_from {A} (next : Z) (plan : list (Z -> A)) : list A :=
  match plan with
  | [] => []
  | make :: rest => make next :: number_from (next + 1) rest
  end.

(** The eight cycles of the morning. *)
Definition morning_cycles (target_date : date) : list datetime :=
  map (fun h => datetime_combine target_date h 0) [6; 7; 8; 9; 10; 11; 12; 13].

(** The database after a route is scheduled with the pairs [(d1, v1)] and
    [(d2, v2)]: two assignments and the trips of its plan are appended. *)
Definition route_assignments (target_date : date) (route : Route)
    (d1 : Driver) (v1 : Vehicle) (d2 : Driver) (v2 : Vehicle)
    (db : rotation_service.DB) : RotationAssignment * RotationAssignment :=
  (planned_assignment route target_date 0 d1 v1 (rotation_service.next_assignment_id db),
   planned_assignment route target_date 1 d2 v2
     (rotation_service.next_assignment_id db + 1)).

Definition route_trips (target_date : date) (route : Route)
    (d1 : Driver) (v1 : Vehicle) (d2 : Driver) (v2 : Vehicle)
    (db : rotation_service.DB) : list Trip :=
  let '(x1, x2) := route_assignments target_date route d1 v1 d2 v2 db in
  number_from (rotation_service.next_trip_id db)
    (trip_plan route x1 x2 (datetime_combine target_date 14 0)
       (morning_cycles target_date) 0).

Definition with_route (target_date : date) (route : Route)
    (d1 : Driver) (v1 : Vehicle) (d2 : Driver) (v2 : Vehicle)
    (db : rotation_service.DB) : rotation_service.DB :=
  let '(x1, x2) := route_assignments target_date route d1 v1 d2 v2 db in
  let generated := route_trips target_date route d1 v1 d2 v2 db in
  rotation_service.mkDB (rotation_service.routes db) (rotation_service.drivers db)
    (rotation_service.vehicles db)
    (rotation_service.rotation_assignments db ++ [x1; x2])
    (rotation_service.trips db ++ generated)
    (rotation_service.tickets db) (rotation_service.gps_tracking db)
    (rotation_service.driver_exchanges db)
    (rotation_service.next_assignment_id db + 2)
    (rotation_service.next_trip_id db + Z.of_nat (length generated)).

(** ** What generation adds to the database *)

(** A trip as the generator schedules it on [target_date] from the routes
    and the pools it read. *)
Definition well_scheduled (target_date : date) (routes : list Route)
    (all_drivers : list Driver) (all_vehicles : list Vehicle) (t : Trip) : Prop :=
  trip_status t = SCHEDULED
  /\ (exists route,
         In route routes
         /\ trip_route_id t = route_id route
         /\ scheduled_end t = scheduled_start t + estimated_time_minutes route
         /\ (direction t = INBOUND ->
             exists cycle,
               In cycle (morning_cycles target_date)
               /\ scheduled_start t
                  = cycle + estimated_time_minutes route
                    + turnaround_time_minutes route))
  /\ scheduled_start t < datetime_combine target_date 14 0
  /\ (direction t = OUTBOUND -> In (scheduled_start t) (morning_cycles target_date))
  /\ (exists dr, In dr all_drivers /\ trip_driver_id t = driver_id dr)
  /\ (exists v, In v all_vehicles /\ trip_vehicle_id t = vehicle_id v).

(** An assignment as the generator creates it on [target_date]. *)
Definition morning_assignment (target_date : date) (a : RotationAssignment) : Prop :=
  ra_shift_date a = target_date
  /\ ra_shift_type a = MORNING
  /\ (ra_position a = DRIVER_1 \/ ra_position a = DRIVER_2)
  /\ ra_shift_start_time a = datetime_combine target_date 6 0
  /\ ra_shift_end_time a = datetime_combine target_date 15 0.

(** The trip [t] is bound to the assignment [a]. *)
Definition bound_to (a : RotationAssignment) (t : Trip) : Prop :=
  rotation_assignment_id t = Some (ra_id a)
  /\ trip_driver_id t = ra_driver_id a
  /\ trip_vehicle_id t = ra_vehicle_id a
  /\ trip_route_id t = ra_route_id a.

(** [db'] is [db] with the assignments [added] and the trips [generated]
    appended, their keys drawn from the two counters, and nothing else
    changed. *)
Definition extended_by (db db' : rotation_service.DB)
    (added : list RotationAssignment) (generated : list Trip) : Prop :=
  rotation_service.routes db' = rotation_service.routes db
  /\ rotation_service.drivers db' = rotation_service.drivers db
  /\ rotation_service.vehicles db' = rotation_service.vehicles db
  /\ rotation_service.tickets db' = rotation_service.tickets db
  /\ rotation_service.gps_tracking db' = rotation_service.gps_tracking db
  /\ rotation_service.driver_exchanges db' = rotation_service.driver_exchanges db
  /\ rotation_service.rotation_assignments db'
     = rotation_service.rotation_assignments db ++ added
  /\ rotation_service.trips db' = rotation_service.trips db ++ generated
  /\ rotation_service.next_assignment_id db'
     = rotation_service.next_assignment_id db + Z.of_nat (length added)
  /\ rotation_service.next_trip_id db'
     = rotation_service.next_trip_id db + Z.of_nat (length generated).

(** The view the rebuild starts from. *)
Definition generation_base (regenerate : bool) (d : date) (db : rotation_service.DB)
  : rotation_service.DB :=
  if regenerate then spec_cleanup d db else db.

(** ** app/services/break_service.py: the status report *)

Module break_status.

(** The dictionary [get_break_status] returns. *)
Record BreakStatus := mkBreakStatus {
  bs_break_time_remaining : Z;
  bs_total_break_time_today : Z;
  bs_trips_since_last_break : Z;
  bs_is_eligible : bool
}.

(** [get_break_status(driver)]. *)
Definition get_break_status (settings : Settings) (driver : Driver) : BreakStatus :=
  {| bs_break_time_remaining := break_time_remaining driver;
     bs_total_break_time_today := total_break_time_today driver;
     bs_trips_since_last_break := trips_since_last_break driver;
     bs_is_eligible :=
       (MIN_TRIPS_BEFORE_BREAK settings <=? trips_since_last_break driver)
       && (0 <? break_time_remaining driver) |}.

End break_status.

(** ** The crew of a trip *)

Definition is_outbound (t : Trip) : bool :=
  match direction t with OUTBOUND => true | INBOUND => false end.

(** Start, driver and vehicle of a trip. *)
Definition crew (t : Trip) : datetime * Z * Z :=
  (scheduled_start t, trip_driver_id t, trip_vehicle_id t).

(** The crews of the cycles [cycles] when the two assignments take them in
    turn, starting with the one at position [toggle]. *)
Fixpoint crew_turns (a1 a2 : RotationAssignment) (cycles : list datetime)
    (toggle : nat) : list (datetime * Z * Z) :=
  match cycles with
  | [] => []
  | cycle :: later =>
      let active := if Nat.eqb toggle 0 then a1 else a2 in
      (cycle, ra_driver_id active, ra_vehicle_id active)
      :: crew_turns a1 a2 later (1 - toggle)
  end.

(** ** app/services/scheduler.py *)

Module scheduler.

(** [scheduled_daily_generation()], run on the day [today]: an exception of
    the generator is caught and printed, and the job returns [None]. *)
Definition scheduled_daily_generation (faulty : nat -> bool) (today : date)
  : rotation_service.M unit :=
  rotation_service.try_except
    (rotation_service.bind
       (rotation_service.generate_daily_schedule faulty today false)
       (fun _ => rotation_service.ret tt))
    (fun e => rotation_service.ret tt).

(** The job in its session, [async with AsyncSessionLocal() as session]: the
    database it leaves. *)
Definition run_job (faulty : nat -> bool) (today : date) (db : rotation_service.DB)
  : rotation_service.DB :=
  snd (rotation_service.in_session (scheduled_daily_generation faulty today) db).

End scheduler.

(** ** Requests and responses *)

Module http.

(** [HTTPException(status_code, detail)]. *)
Record HTTPException := mkHTTPException {
  status_code : Z;
  detail : string
}.

(** What a request handler hands to the framework: the body it returns,
    the [HTTPException] it raises, or another exception, which the framework
    answers with status 500. *)
Inductive response (A : Type) : Type :=
| Returned (body : A)
| Refused (e : HTTPException)
| Unhandled (error : string).

Arguments Returned {A} body.
Arguments Refused {A} e.
Arguments Unhandled {A} error.

(** [str(n)] for a length. *)
Definition str_of_nat (n : nat) : string :=
  DecimalString.NilZero.string_of_uint (Nat.to_uint n).

(** [session.get(Model, id)]: the row with the primary key [id]. *)
Definition get {A} (key : A -> Z) (rows : list A) (id : Z) : option A :=
  find (fun r => key r =? id) rows.

(** The unit of work writes a changed object back by primary key. *)
Definition write_back {A} (key : A -> Z) (row : A) (rows : list A) : list A :=
  map (fun r => if key r =? key row then row else r) rows.

End http.
Import http.

(** ** app/api/deps.py *)

Module deps.

Inductive UserRole := ADMIN | MANAGER | DRIVER.

Definition UserRole_eqb (a b : UserRole) : bool :=
  match a, b with
  | ADMIN, ADMIN | MANAGER, MANAGER | DRIVER, DRIVER => true
  | _, _ => false
  end.

(** The columns of [User] the dependencies read. *)
Record User := mkUser {
  user_id : Z;
  user_role : UserRole;
  user_is_active : bool
}.

(** [get_current_active_user(current_user)]. *)
Definition get_current_active_user (current_user : User) : response User :=
  if negb (user_is_active current_user) then
    Refused (mkHTTPException 400 "Inactive user")
  else Returned current_user.

(** [role_checker(current_user)] of
    [get_current_user_with_role] for the roles [required_roles], on the user
    [get_current_active_user] returned. *)
Definition role_checker (required_roles : list UserRole) (current_user : User)
  : response User :=
  if negb (existsb (UserRole_eqb (user_role current_user)) required_roles) then
    if UserRole_eqb (user_role current_user) ADMIN then Returned current_user
    else Refused (mkHTTPException 403 "Not enough permissions")
  else Returned current_user.

(** The dependency chain [get_current_active_user] then [role_checker], on
    the user [get_current_user] found for the token. *)
Definition get_current_user_with_role (required_roles : list UserRole)
    (current_user : User) : response User :=
  match get_current_active_user current_user with
  | Returned user => role_checker required_roles user
  | Refused e => Refused e
  | Unhandled error => Unhandled error
  end.

(** A request passes the dependencies of its router and then those of its
    path operation; the first exception ends it. *)
Definition guarded (router_roles operation_roles : list UserRole)
    (current_user : User) : response User :=
  match get_current_user_with_role router_roles current_user with
  | Returned _ => get_current_user_with_role operation_roles current_user
  | Refused e => Refused e
  | Unhandled error => Unhandled error
  end.

End deps.

(** ** app/api/v1/admin.py *)

Module admin.

(** The tables the handlers below touch. *)
Record Store := mkStore {
  tables : rotation_service.DB;
  audit_logs : list AuditLog
}.

(** [audit_service.log_action] in the session of the request. *)
Definition log_action (st : Store) (user_id : option Z) (action entity_type : string)
    (entity_id : option Z) : Store :=
  {| tables := tables st;
     audit_logs := audit_logs st ++ [mkAuditLog user_id action entity_type entity_id] |}.

Definition set_drivers (db : rotation_service.DB) (l : list Driver) : rotation_service.DB :=
  rotation_service.mkDB (rotation_service.routes db) l (rotation_service.vehicles db)
    (rotation_service.rotation_assignments db) (rotation_service.trips db)
    (rotation_service.tickets db) (rotation_service.gps_tracking db)
    (rotation_service.driver_exchanges db)
    (rotation_service.next_assignment_id db) (rotation_service.next_trip_id db).

Definition set_vehicles (db : rotation_service.DB) (l : list Vehicle) : rotation_service.DB :=
  rotation_service.mkDB (rotation_service.routes db) (rotation_service.drivers db) l
    (rotation_service.rotation_assignments db) (rotation_service.trips db)
    (rotation_service.tickets db) (rotation_service.gps_tracking db)
    (rotation_service.driver_exchanges db)
    (rotation_service.next_assignment_id db) (rotation_service.next_trip_id db).

Definition set_routes (db : rotation_service.DB) (l : list Route) : rotation_service.DB :=
  rotation_service.mkDB l (rotation_service.drivers db) (rotation_service.vehicles db)
    (rotation_service.rotation_assignments db) (rotation_service.trips db)
    (rotation_service.tickets db) (rotation_service.gps_tracking db)
    (rotation_service.driver_exchanges db)
    (rotation_service.next_assignment_id db) (rotation_service.next_trip_id db).

(** [delete_driver(id)] by [current_user], on a store that executes the
    commit: the driver is kept and set OFF_DUTY. *)
Definition delete_driver (current_user_id : Z) (id : Z) (st : Store)
  : response string * Store :=
  match get driver_id (rotation_service.drivers (tables st)) id with
  | None => (Refused (mkHTTPException 404 "Driver not found"), st)
  | Some driver =>
      let driver' :=
        {| driver_id := driver_id driver;
           driver_user_id := driver_user_id driver;
           driver_status := OFF_DUTY;
           break_time_remaining := break_time_remaining driver;
           total_break_time_today := total_break_time_today driver;
           break_start_time := break_start_time driver;
           trips_since_last_break := trips_since_last_break driver;
           current_break_number := current_break_number driver |} in
      let st1 :=
        {| tables := set_drivers (tables st)
                       (write_back driver_id driver'
                          (rotation_service.drivers (tables st)));
           audit_logs := audit_logs st |} in
      (Returned "Driver deactivated"%string,
       log_action st1 (Some current_user_id) "DELETE" "Driver" (Some (driver_id driver')))
  end.

(** [delete_vehicle(id)]: the vehicle is kept and set OUT_OF_SERVICE. *)
Definition delete_vehicle (current_user_id : Z) (id : Z) (st : Store)
  : response string * Store :=
  match get vehicle_id (rotation_service.vehicles (tables st)) id with
  | None => (Refused (mkHTTPException 404 "Vehicle not found"), st)
  | Some vehicle =>
      let vehicle' :=
        {| vehicle_id := vehicle_id vehicle;
           vehicle_status := OUT_OF_SERVICE;
           vehicle_capacity := vehicle_capacity vehicle |} in
      let st1 :=
        {| tables := set_vehicles (tables st)
                       (write_back vehicle_id vehicle'
                          (rotation_service.vehicles (tables st)));
           audit_logs := audit_logs st |} in
      (Returned "Vehicle marked as Out of Service"%string,
       log_action st1 (Some current_user_id) "DELETE" "Vehicle"
         (Some (vehicle_id vehicle')))
  end.

(** [delete_route(id)]: the route is kept and deactivated. *)
Definition delete_route (current_user_id : Z) (id : Z) (st : Store)
  : response string * Store :=
  match get route_id (rotation_service.routes (tables st)) id with
  | None => (Refused (mkHTTPException 404 "Route not found"), st)
  | Some route =>
      let route' :=
        {| route_id := route_id route;
           route_name := route_name route;
           estimated_time_minutes := estimated_time_minutes route;
           turnaround_time_minutes := turnaround_time_minutes route;
           route_is_active := false |} in
      let st1 :=
        {| tables := set_routes (tables st)
                       (write_back route_id route'
                          (rotation_service.routes (tables st)));
           audit_logs := audit_logs st |} in
      (Returned "Route deactivated"%string,
       log_action st1 (Some current_user_id) "DELETE" "Route" (Some (route_id route')))
  end.

Definition schedule_exists : string :=
  "Schedule already exists. Use regenerate=true to overwrite.".

Section with_str.

(** [str(e)]: the text of an exception. *)
Variable str : exn -> string.

(** [force_generate_schedule(regenerate)] on the day [today], in the
    session [get_db] opens and closes. *)
Definition force_generate_schedule (faulty : nat -> bool) (today : date)
    (regenerate : bool) (db : rotation_service.DB)
  : response string * rotation_service.DB :=
  match rotation_service.generate_daily_schedule faulty today regenerate
          (rotation_service.new_session db) with
  | (Raise e, s) =>
      (Refused (mkHTTPException 500 ("Regeneration Failed: " ++ str e)),
       rotation_service.committed s)
  | (Ok trips, s) =>
      let action := if regenerate then "Regenerated" else "Generated" in
      (Returned
         (if rotation_service.is_empty trips && negb regenerate then schedule_exists
          else action ++ " " ++ str_of_nat (length trips) ++ " trips for today"),
       rotation_service.committed s)
  end%string.

End with_str.

End admin.

(** ** app/api/v1/driver.py *)

Module driver_api.

(** The tables the break requests touch, on a store that executes the
    commit. *)
Record Store := mkStore {
  driver_rows : list Driver;
  breaks : break_service.Store
}.

(** [Result.scalar_one()]: the only row, or an exception no handler
    catches. *)
Definition scalar_one {A} (rows : list A) : response A :=
  match rows with
  | [row] => Returned row
  | [] => Unhandled "NoResultFound"
  | _ => Unhandled "MultipleResultsFound"
  end.

(** [select(Driver).where(Driver.user_id == current_user.id)] and
    [scalar_one()]. *)
Definition my_driver (current_user_id : Z) (st : Store) : response Driver :=
  scalar_one (filter (fun d => driver_user_id d =? current_user_id) (driver_rows st)).

(** An exception of the service as the handler's [except ValueError]
    leaves it: a [ValueError] becomes status 400 with its message. *)
Definition refuse {A} (e : exn) : response A :=
  match e with
  | ValueError msg => Refused (mkHTTPException 400 msg)
  | IndexError => Unhandled "IndexError"
  | StoreError _ => Unhandled "DBAPIError"
  end.

(** [request_start_break()] of the user [current_user_id] at [now]. *)
Definition request_start_break (settings : Settings) (now : datetime)
    (current_user_id : Z) (st : Store) : response BreakLog * Store :=
  match my_driver current_user_id st with
  | Returned driver =>
      match break_service.start_break settings now (breaks st) driver with
      | Ok (log, driver', breaks') =>
          (Returned log,
           {| driver_rows := write_back driver_id driver' (driver_rows st);
              breaks := breaks' |})
      | Raise e => (refuse e, st)
      end
  | Refused e => (Refused e, st)
  | Unhandled error => (Unhandled error, st)
  end.

(** [request_end_break()] of the user [current_user_id] at [now]. *)
Definition request_end_break (now : datetime) (current_user_id : Z) (st : Store)
  : response Driver * Store :=
  match my_driver current_user_id st with
  | Returned driver =>
      match break_service.end_break now (breaks st) driver with
      | Ok (updated_driver, breaks') =>
          (Returned updated_driver,
           {| driver_rows := write_back driver_id updated_driver (driver_rows st);
              breaks := breaks' |})
      | Raise e => (refuse e, st)
      end
  | Refused e => (Refused e, st)
  | Unhandled error => (Unhandled error, st)
  end.

End driver_api.

(** ** app/api/v1/admin.py: tickets *)

Module ticket_desk.

Inductive TripTicketStatus := ISSUED | USED | CANCELLED | EXPIRED.

(** [TicketCreate], the body of the request.  The price is stored as
    given; it is an exact number here. *)
Record TicketCreate := mkTicketCreate {
  tc_trip_id : Z;
  tc_passenger_name : option string;
  tc_seat_number : option string;
  tc_price : Z;
  tc_status : TripTicketStatus
}.

(** The columns of [Ticket] the request writes. *)
Record SoldTicket := mkSoldTicket {
  sold_id : Z;
  sold_trip_id : Z;
  sold_passenger_name : option string;
  sold_seat_number : option string;
  sold_price : Z;
  sold_status : TripTicketStatus
}.

(** The tables the request reads and the one it writes, on a store that
    executes the commit. *)
Record Store := mkStore {
  trips : list Trip;
  vehicles : list Vehicle;
  drivers : list Driver;
  tickets : list SoldTicket;
  next_ticket_id : Z
}.

(** [Result.scalar_one_or_none()]. *)
Definition scalar_one_or_none {A} (rows : list A) : response (option A) :=
  match rows with
  | [] => Returned None
  | [row] => Returned (Some row)
  | _ => Unhandled "MultipleResultsFound"
  end.

(** [column == value] on a nullable column, as a filter: [IS NULL] for
    [None], and no NULL equals a value. *)
Definition seat_eqb (a b : option string) : bool :=
  match a, b with
  | None, None => true
  | Some x, Some y => String.eqb x y
  | _, _ => false
  end.

(** [str(n)] for an [int]. *)
Definition str_of_int (n : Z) : string :=
  DecimalString.NilZero.string_of_int (Z.to_int n).

(** [str(seat_number)] inside the f-string. *)
Definition str_of_seat (seat : option string) : string :=
  match seat with Some x => x | None => "None" end.

(** [select(func.count(Ticket.id)).where(Ticket.trip_id == trip_id)]. *)
Definition sold_for (trip : Z) (l : list SoldTicket) : list SoldTicket :=
  filter (fun t => sold_trip_id t =? trip) l.

(** [select(Ticket).where(trip_id == ..., seat_number == ...)]. *)
Definition seated_at (trip : Z) (seat : option string) (l : list SoldTicket)
  : list SoldTicket :=
  filter (fun t => (sold_trip_id t =? trip) && seat_eqb (sold_seat_number t) seat) l.

(** Step 2 of the handler: the ownership check of a DRIVER, [None] when it
    passes or does not apply. *)
Definition ownership_check (current_user : deps.User) (trip : Trip) (st : Store)
  : option (response SoldTicket) :=
  if deps.UserRole_eqb (deps.user_role current_user) deps.DRIVER then
    match driver_api.scalar_one
            (filter (fun d => driver_user_id d =? deps.user_id current_user)
               (drivers st)) with
    | Returned driver =>
        if negb (trip_driver_id trip =? driver_id driver) then
          Some (Refused (mkHTTPException 403
                           "Not authorized to issue tickets for this trip"))
        else None
    | Refused e => Some (Refused e)
    | Unhandled error => Some (Unhandled error)
    end
  else None.

(** [create_ticket(ticket_in)] by [current_user]. *)
Definition create_ticket (current_user : deps.User) (ticket_in : TicketCreate)
    (st : Store) : response SoldTicket * Store :=
  match get trip_id (trips st) (tc_trip_id ticket_in) with
  | None => (Refused (mkHTTPException 404 "Trip not found"), st)
  | Some trip =>
      match ownership_check current_user trip st with
      | Some refusal => (refusal, st)
      | None =>
          match get vehicle_id (vehicles st) (trip_vehicle_id trip) with
          | None => (Refused (mkHTTPException 400 "Trip has no assigned vehicle"), st)
          | Some vehicle =>
              let bus_capacity := vehicle_capacity vehicle in
              let current_count :=
                Z.of_nat (length (sold_for (tc_trip_id ticket_in) (tickets st))) in
              if bus_capacity <=? current_count then
                (Refused (mkHTTPException 400
                            ("Bus is full! Capacity: " ++ str_of_int bus_capacity)%string),
                 st)
              else
                match scalar_one_or_none
                        (seated_at (tc_trip_id ticket_in) (tc_seat_number ticket_in)
                           (tickets st)) with
                | Returned (Some _) =>
                    (Refused (mkHTTPException 400
                                ("Seat " ++ str_of_seat (tc_seat_number ticket_in)
                                 ++ " is already taken")%string),
                     st)
                | Returned None =>
                    let ticket :=
                      {| sold_id := next_ticket_id st;
                         sold_trip_id := tc_trip_id ticket_in;
                         sold_passenger_name := tc_passenger_name ticket_in;
                         sold_seat_number := tc_seat_number ticket_in;
                         sold_price := tc_price ticket_in;
                         sold_status := tc_status ticket_in |} in
                    (Returned ticket,
                     {| trips := trips st;
                        vehicles := vehicles st;
                        drivers := drivers st;
                        tickets := tickets st ++ [ticket];
                        next_ticket_id := next_ticket_id st + 1 |})
                | Refused e => (Refused e, st)
                | Unhandled error => (Unhandled error, st)
                end
          end
      end
  end.

(** No trip holds more tickets than its vehicle has places. *)
Definition within_capacity (st : Store) : Prop :=
  forall id trip vehicle,
    get trip_id (trips st) id = Some trip ->
    get vehicle_id (vehicles st) (trip_vehicle_id trip) = Some vehicle ->
    Z.of_nat (length (sold_for id (tickets st))) <= vehicle_capacity vehicle.

(** No two tickets of a trip have the same seat, the absent seat
    included. *)
Definition seats_unique (st : Store) : Prop :=
  forall id seat, (length (seated_at id seat (tickets st)) <= 1)%nat.

End ticket_desk.

(** ** app/services/notification_service.py: the connection registry *)

Module notification_service.

(** A [WebSocket] object, known by its identity. *)
Definition WebSocket := nat.

(** [ConnectionManager.active_connections]: a [dict] from user to the list
    of the user's sockets, in insertion order. *)
Definition Connections := list (Z * list WebSocket).

(** [user_id in active_connections] and [active_connections[user_id]]. *)
Fixpoint lookup (user_id : Z) (c : Connections) : option (list WebSocket) :=
  match c with
  | [] => None
  | (k, l) :: rest => if k =? user_id then Some l else lookup user_id rest
  end.

(** The list of [user_id] changed in place. *)
Fixpoint change (user_id : Z) (f : list WebSocket -> list WebSocket)
    (c : Connections) : Connections :=
  match c with
  | [] => []
  | (k, l) :: rest =>
      if k =? user_id then (k, f l) :: rest else (k, l) :: change user_id f rest
  end.

(** [del active_connections[user_id]]. *)
Fixpoint del (user_id : Z) (c : Connections) : Connections :=
  match c with
  | [] => []
  | (k, l) :: rest => if k =? user_id then rest else (k, l) :: del user_id rest
  end.

(** [websocket in l]. *)
Definition mem_socket (websocket : WebSocket) (l : list WebSocket) : bool :=
  existsb (Nat.eqb websocket) l.

(** [l.remove(websocket)]: the first occurrence goes. *)
Fixpoint remove_first (websocket : WebSocket) (l : list WebSocket) : list WebSocket :=
  match l with
  | [] => []
  | x :: rest => if Nat.eqb websocket x then rest else x :: remove_first websocket rest
  end.

(** [manager.connect(websocket, user_id)], once the socket is accepted. *)
Definition connect (websocket : WebSocket) (user_id : Z) (c : Connections)
  : Connections :=
  let c1 :=
    match lookup user_id c with
    | None => c ++ [(user_id, [])]
    | Some _ => c
    end in
  change user_id (fun l => l ++ [websocket]) c1.

(** [manager.disconnect(websocket, user_id)]. *)
Definition disconnect (websocket : WebSocket) (user_id : Z) (c : Connections)
  : Connections :=
  match lookup user_id c with
  | None => c
  | Some l =>
      let l' := if mem_socket websocket l then remove_first websocket l else l in
      match l' with
      | [] => del user_id c
      | _ => change user_id (fun _ => l') c
      end
  end.

(** Every user of the registry is there once and has a socket. *)
Definition well_formed (c : Connections) : Prop :=
  NoDup (map fst c) /\ Forall (fun p => snd p <> []) c.

End notification_service.

(** ** Sample data *)

Definition riverside : Route := mkRoute 1 "Riverside Express" 40 10 true.

(** A route whose inbound of the 13:00 cycle would start at 14:00 sharp. *)
Definition lakeside : Route := mkRoute 2 "Lakeside" 40 20 true.

(** A route stored with a negative turnaround time. *)
Definition hasty : Route := mkRoute 3 "Hasty Loop" 40 (-20) true.

Definition sample_driver (id : Z) : Driver := mkDriver id (100 + id) ACTIVE 60 0 None 0 0.

Definition sample_vehicle (id : Z) : Vehicle := mkVehicle id FREE 50.

Definition sample_assignment (id : Z) : RotationAssignment :=
  mkRotationAssignment id 1 id id MORNING (if id =? 1 then DRIVER_1 else DRIVER_2)
    0 360 900.

(** Day 0 with two routes, four drivers, two vehicles and no schedule. *)
Definition sample_db : rotation_service.DB :=
  rotation_service.mkDB [riverside; lakeside]
    [sample_driver 1; sample_driver 2; sample_driver 3; sample_driver 4]
    [sample_vehicle 1; sample_vehicle 2] [] [] [] [] [] 1 1.

(** Days 0 and 1 each with one assignment and one trip, and with tickets,
    GPS records and driver exchanges attached to them. *)
Definition two_day_db : rotation_service.DB :=
  rotation_service.mkDB [riverside]
    [sample_driver 1; sample_driver 2] [sample_vehicle 1; sample_vehicle 2]
    [mkRotationAssignment 1 1 1 1 MORNING DRIVER_1 0 360 900;
     mkRotationAssignment 2 1 2 2 MORNING DRIVER_1 1 1800 2340]
    [mkTrip 1 "RIV-0600-O" 1 1 1 360 400 SCHEDULED OUTBOUND (Some 1);
     mkTrip 2 "RIV-0600-O" 1 2 2 1800 1840 SCHEDULED OUTBOUND (Some 2)]
    [mkTicket 1 1; mkTicket 2 2]
    [mkGPSTracking 1 1 (Some 1); mkGPSTracking 2 1 None; mkGPSTracking 3 2 (Some 2)]
    [mkDriverExchange 1 1 None; mkDriverExchange 2 2 None]
    3 3.

(** [two_day_db] with every driver off duty. *)
Definition off_duty_db : rotation_service.DB :=
  rotation_service.mkDB (rotation_service.routes two_day_db)
    [mkDriver 1 101 OFF_DUTY 60 0 None 0 0]
    (rotation_service.vehicles two_day_db)
    (rotation_service.rotation_assignments two_day_db)
    (rotation_service.trips two_day_db)
    (rotation_service.tickets two_day_db)
    (rotation_service.gps_tracking two_day_db)
    (rotation_service.driver_exchanges two_day_db)
    3 3.

(** Two routes, three drivers on duty, two vehicles in service and no
    schedule. *)
Definition three_driver_db : rotation_service.DB :=
  rotation_service.mkDB [riverside; lakeside]
    [sample_driver 1; sample_driver 2; sample_driver 3]
    [sample_vehicle 1; sample_vehicle 2] [] [] [] [] [] 1 1.

(** A trip in a vehicle of two places, with one ticket sold for seat 1A and
    cancelled. *)
Definition small_bus_desk : ticket_desk.Store :=
  ticket_desk.mkStore
    [mkTrip 1 "RIV-0600-O" 1 1 1 360 400 SCHEDULED OUTBOUND (Some 1)]
    [mkVehicle 1 FREE 2] [sample_driver 1]
    [ticket_desk.mkSoldTicket 1 1 None (Some "1A"%string) 20 ticket_desk.CANCELLED] 2.

(** [two_day_db] with a single driver on duty. *)
Definition one_driver_db : rotation_service.DB :=
  rotation_service.mkDB (rotation_service.routes two_day_db)
    [sample_driver 1]
    (rotation_service.vehicles two_day_db)
    (rotation_service.rotation_assignments two_day_db)
    (rotation_service.trips two_day_db)
    (rotation_service.tickets two_day_db)
    (rotation_service.gps_tracking two_day_db)
    (rotation_service.driver_exchanges two_day_db)
    (rotation_service.next_assignment_id two_day_db)
    (rotation_service.next_trip_id two_day_db).

(** A store that refuses the statement numbered [n]. *)
Definition fails_at (n : nat) : nat -> bool := Nat.eqb n.

(** A driver on break since minute 1000, with a 60-minute budget, 5 minutes
    already taken today and one open log. *)
Definition driver_on_break : Driver :=
  mkDriver 7 70 ON_BREAK 60 5 (Some 1000) 3 1.

Definition store_on_break : break_service.Store :=
  break_service.mkStore [mkBreakLog 1 7 0 1 1000 None None] [] 2.

(** A driver on a trip, with one trip since the last break and a full budget. *)
Definition driver_on_trip : Driver := mkDriver 7 70 ON_TRIP 60 0 None 1 0.

Definition empty_store : break_service.Store := break_service.mkStore [] [] 1.

(** * Properties *)

(** ** Enumerations *)

Lemma DriverStatus_eqb_eq a b : DriverStatus_eqb a b = true <-> a = b.
Proof. destruct a, b; simpl; split; congruence. Qed.

Lemma DriverStatus_eqb_neq a b : DriverStatus_eqb a b = false <-> a <> b.
Proof. destruct a, b; simpl; split; congruence. Qed.

Lemma VehicleStatus_eqb_eq a b : VehicleStatus_eqb a b = true <-> a = b.
Proof. destruct a, b; simpl; split; congruence. Qed.

(** ** The break lifecycle *)

Section break_lifecycle.
Import break_service.

Variable settings : Settings.

(** *** Starting a break *)

(** [start_break] raises exactly on the two eligibility failures, whatever
    the driver's status. *)
Lemma start_break_raises now db driver e :
  start_break settings now db driver = Raise e <->
  (trips_since_last_break driver < MIN_TRIPS_BEFORE_BREAK settings
     /\ e = not_enough_trips)
  \/ (MIN_TRIPS_BEFORE_BREAK settings <= trips_since_last_break driver
        /\ break_time_remaining driver <= 0 /\ e = no_break_time).
Proof.
  unfold start_break.
  destruct (Z.ltb_spec (trips_since_last_break driver) (MIN_TRIPS_BEFORE_BREAK settings));
    [| destruct (Z.leb_spec (break_time_remaining driver) 0)]; simpl.
  - split; [intros [= <-]; left; auto | intros [[_ ->] | [? _]]; [reflexivity | lia]].
  - split; [intros [= <-]; right; auto | intros [[? _] | [_ [_ ->]]]; [lia | reflexivity]].
  - split; [discriminate | intros [[? _] | [_ [? _]]]; lia].
Qed.

Lemma start_break_ineligible now db driver e :
  start_break settings now db driver = Raise e -> IneligibleBreak e.
Proof.
  intros H. apply start_break_raises in H. unfold IneligibleBreak.
  destruct H as [[_ ->] | [_ [_ ->]]]; auto.
Qed.

(** What a successful [start_break] does; the status plays no part. *)
Lemma start_break_success now db driver :
  MIN_TRIPS_BEFORE_BREAK settings <= trips_since_last_break driver ->
  0 < break_time_remaining driver ->
  exists break_log driver' db',
    start_break settings now db driver = Ok (break_log, driver', db')
    /\ driver_status driver' = ON_BREAK
    /\ break_start_time driver' = Some now
    /\ current_break_number driver' = current_break_number driver + 1
    /\ trips_since_last_break driver' = trips_since_last_break driver
    /\ break_time_remaining driver' = break_time_remaining driver
    /\ total_break_time_today driver' = total_break_time_today driver
    /\ driver_id driver' = driver_id driver
    /\ bl_driver_id break_log = driver_id driver
    /\ break_number break_log = current_break_number driver + 1
    /\ start_time break_log = now
    /\ bl_shift_date break_log = date_of now
    /\ end_time break_log = None
    /\ duration_minutes break_log = None
    /\ break_logs db' = break_logs db ++ [break_log].
Proof.
  intros Htrips Hbudget. unfold start_break.
  destruct (Z.ltb_spec (trips_since_last_break driver) (MIN_TRIPS_BEFORE_BREAK settings));
    [lia |].
  destruct (Z.leb_spec (break_time_remaining driver) 0); [lia |].
  simpl. do 3 eexists. split; [reflexivity |]. simpl. repeat split; reflexivity.
Qed.

(** [start_break] succeeds exactly for the drivers [get_break_status]
    reports as eligible. *)
Lemma start_break_iff_eligible now db driver :
  (exists value, start_break settings now db driver = Ok value)
  <-> is_eligible settings driver = true.
Proof.
  unfold is_eligible. rewrite andb_true_iff, Z.leb_le, Z.ltb_lt. split.
  - intros [value Hrun].
    destruct (Z.lt_ge_cases (trips_since_last_break driver)
                (MIN_TRIPS_BEFORE_BREAK settings)) as [Hfew | Htrips].
    + assert (H : start_break settings now db driver = Raise not_enough_trips)
        by (apply start_break_raises; left; auto).
      congruence.
    + destruct (Z.le_gt_cases (break_time_remaining driver) 0) as [Hnone | Hbudget];
        [| auto].
      assert (H : start_break settings now db driver = Raise no_break_time)
        by (apply start_break_raises; right; auto).
      congruence.
  - intros [Htrips Hbudget].
    destruct (start_break_success now db driver Htrips Hbudget)
      as (break_log & driver' & db' & Hrun & _).
    eexists. exact Hrun.
Qed.

(** *** Open break logs *)

Lemma open_logs_app id l1 l2 :
  open_logs id (l1 ++ l2) = open_logs id l1 ++ open_logs id l2.
Proof. unfold open_logs. apply filter_app. Qed.

Lemma is_open_for_close id now duration l :
  is_open_for id (close_log now duration l) = false.
Proof. unfold is_open_for. simpl. apply andb_false_r. Qed.

Lemma open_logs_update_le id pk now duration logs :
  (length (open_logs id (update_break_log pk (close_log now duration) logs))
   <= length (open_logs id logs))%nat.
Proof.
  unfold open_logs, update_break_log.
  induction logs as [| l logs IH]; simpl; [lia |].
  destruct (break_log_id l =? pk).
  - rewrite is_open_for_close. destruct (is_open_for id l); simpl; lia.
  - destruct (is_open_for id l); simpl; lia.
Qed.

Lemma latest_start_None logs : latest_start logs = None <-> logs = [].
Proof.
  destruct logs as [| l rest]; simpl; [tauto |].
  split; [| discriminate].
  destruct (latest_start rest) as [m |]; [| discriminate].
  destruct (start_time l <? start_time m); discriminate.
Qed.

Lemma latest_start_Some logs m :
  latest_start logs = Some m ->
  In m logs /\ forall l, In l logs -> start_time l <= start_time m.
Proof.
  revert m. induction logs as [| l rest IH]; simpl; [discriminate |].
  intros m H.
  destruct (latest_start rest) as [m' |] eqn:E.
  - destruct (IH m' eq_refl) as [Hin Hmax].
    destruct (Z.ltb_spec (start_time l) (start_time m')); injection H as <-.
    + split; [auto |]. intros x [<- | Hx]; [lia | auto].
    + split; [auto |]. intros x [<- | Hx]; [lia |]. specialize (Hmax x Hx). lia.
  - injection H as <-. apply latest_start_None in E. subst rest.
    split; [auto |]. intros x [<- | []]. lia.
Qed.

(** Ending a break never opens a log. *)
Lemma end_break_open_logs_le now db driver driver' db' id :
  end_break now db driver = Ok (driver', db') ->
  (length (open_logs id (break_logs db')) <= length (open_logs id (break_logs db)))%nat.
Proof.
  unfold end_break.
  destruct (DriverStatus_eqb (driver_status driver) ON_BREAK); [| discriminate].
  destruct (break_start_time driver) as [started |]; [| discriminate].
  intros [= _ <-]. simpl.
  destruct (latest_start _); simpl; [apply open_logs_update_le | lia].
Qed.

(** A break started while no log of the driver is open leaves exactly one
    open. *)
Lemma start_break_opens_one now db driver break_log driver' db' :
  open_logs (driver_id driver) (break_logs db) = [] ->
  start_break settings now db driver = Ok (break_log, driver', db') ->
  open_logs (driver_id driver) (break_logs db') = [break_log].
Proof.
  intros Hnone. unfold start_break.
  destruct (_ <? _); [discriminate |]. destruct (_ <=? _); [discriminate |].
  simpl. intros [= <- _ <-]. simpl.
  rewrite open_logs_app, Hnone. simpl. unfold is_open_for. simpl.
  rewrite Z.eqb_refl. reflexivity.
Qed.

End break_lifecycle.

(** *** Ending a break *)

(** C3. [end_break] fails, with the error the spec calls NotOnBreak, exactly
    when the driver's status is not ON_BREAK or [break_start_time] is unset.
    Otherwise, with [duration = now - break_start_time], it returns the
    driver with status ACTIVE, [break_time_remaining] lowered by [duration]
    and floored at 0, [total_break_time_today] raised by [duration],
    [break_start_time] cleared and [trips_since_last_break] reset to 0, and
    closes the driver's most recent open log with [end_time = now] and
    [duration_minutes = duration]. *)
Theorem end_break_spec (now : datetime) (db : break_service.Store) (driver : Driver) :
  ((exists e, break_service.end_break now db driver = Raise e)
     <-> (driver_status driver <> ON_BREAK \/ break_start_time driver = None))
  /\ (forall e, break_service.end_break now db driver = Raise e ->
                break_service.NotOnBreak e)
  /\ (forall started,
        driver_status driver = ON_BREAK ->
        break_start_time driver = Some started ->
        exists driver' db',
          break_service.end_break now db driver = Ok (driver', db')
          /\ driver_status driver' = ACTIVE
          /\ break_time_remaining driver'
             = Z.max 0 (break_time_remaining driver - (now - started))
          /\ total_break_time_today driver'
             = total_break_time_today driver + (now - started)
          /\ break_start_time driver' = None
          /\ trips_since_last_break driver' = 0
          /\ driver_id driver' = driver_id driver
          /\ current_break_number driver' = current_break_number driver
          /\ closes_latest_open now (now - started) (driver_id driver)
               (break_service.break_logs db) (break_service.break_logs db')).
Proof.
  unfold break_service.end_break.
  destruct (DriverStatus_eqb (driver_status driver) ON_BREAK) eqn:Hst.
  - apply DriverStatus_eqb_eq in Hst.
    destruct (break_start_time driver) as [started |] eqn:Hbst.
    + split; [| split].
      * split; [intros [e He]; discriminate | intros [H | H]; congruence].
      * intros e He. discriminate.
      * intros started' _ [= <-]. do 2 eexists. split; [reflexivity |].
        simpl. repeat split.
        destruct (break_service.latest_start _) as [l |] eqn:Hlatest; simpl.
        -- left. exists l.
           apply latest_start_Some in Hlatest. destruct Hlatest as [Hin Hmax].
           unfold break_service.open_logs in Hin, Hmax.
           apply filter_In in Hin. destruct Hin as [Hin Hopen].
           split; [exact Hin |]. split; [exact Hopen |]. split.
           ++ intros l' Hl' Ho. apply Hmax. apply filter_In. auto.
           ++ split; [reflexivity |].
              unfold break_service.update_break_log.
              apply in_map_iff. exists l. rewrite Z.eqb_refl. auto.
        -- right. apply latest_start_None in Hlatest. auto.
    + split; [| split].
      * split; [auto | intros _; eexists; reflexivity].
      * intros e [= <-]. reflexivity.
      * intros started _ H. discriminate.
  - apply DriverStatus_eqb_neq in Hst.
    split; [| split].
    + split; [auto | intros _; eexists; reflexivity].
    + intros e [= <-]. reflexivity.
    + intros started H. contradiction.
Qed.

(** The break of [driver_on_break], started at minute 1000, ends at minute
    1022. *)
Lemma end_break_spec_witness :
  exists driver' db',
    break_service.end_break 1022 store_on_break driver_on_break = Ok (driver', db')
    /\ driver_status driver' = ACTIVE
    /\ break_time_remaining driver' = 38
    /\ total_break_time_today driver' = 27
    /\ break_start_time driver' = None
    /\ trips_since_last_break driver' = 0
    /\ break_service.break_logs db' = [mkBreakLog 1 7 0 1 1000 (Some 1022) (Some 22)].
Proof.
  destruct (proj2 (proj2 (end_break_spec 1022 store_on_break driver_on_break))
              1000 eq_refl eq_refl)
    as (driver' & db' & Hrun & Hst & Hrem & Htot & Hbst & Htrips & _ & _ & _).
  exists driver', db'.
  split; [exact Hrun |]. split; [exact Hst |]. split; [exact Hrem |].
  split; [exact Htot |]. split; [exact Hbst |]. split; [exact Htrips |].
  vm_compute in Hrun. injection Hrun as _ <-. reflexivity.
Defined.

(** The budget is floored at 0: 10 minutes left, 22 taken. *)
Example end_break_floor :
  match break_service.end_break 1022 store_on_break
          (mkDriver 7 70 ON_BREAK 10 5 (Some 1000) 3 1) with
  | Ok (driver', _) => break_time_remaining driver' = 0
  | Raise _ => False
  end.
Proof. reflexivity. Qed.

(** C10. A driver whose status is ON_BREAK and whose [break_start_time] is
    set, but who has no open log, still ends the break: no error is raised,
    the driver's fields are updated as usual, the driver is returned and no
    row of the break log changes. *)
Theorem end_break_without_open_log (now started : datetime)
    (db : break_service.Store) (driver : Driver) :
  driver_status driver = ON_BREAK ->
  break_start_time driver = Some started ->
  (forall l, In l (break_service.break_logs db) ->
             break_service.is_open_for (driver_id driver) l = false) ->
  exists driver' db',
    break_service.end_break now db driver = Ok (driver', db')
    /\ driver_status driver' = ACTIVE
    /\ break_time_remaining driver'
       = Z.max 0 (break_time_remaining driver - (now - started))
    /\ total_break_time_today driver'
       = total_break_time_today driver + (now - started)
    /\ break_start_time driver' = None
    /\ trips_since_last_break driver' = 0
    /\ driver_id driver' = driver_id driver
    /\ current_break_number driver' = current_break_number driver
    /\ break_service.break_logs db' = break_service.break_logs db
    /\ break_service.next_break_log_id db' = break_service.next_break_log_id db.
Proof.
  intros Hst Hbst Hnone. unfold break_service.end_break.
  rewrite Hbst. apply DriverStatus_eqb_eq in Hst. rewrite Hst.
  assert (Hopen : break_service.open_logs (driver_id driver)
                    (break_service.break_logs db) = []).
  { unfold break_service.open_logs.
    induction (break_service.break_logs db) as [| l logs IH]; simpl; [reflexivity |].
    rewrite (Hnone l (or_introl eq_refl)). apply IH.
    intros l' Hl'. apply Hnone. right. exact Hl'. }
  simpl. rewrite Hopen. simpl.
  do 2 eexists. split; [reflexivity |]. simpl. repeat split.
Qed.

(** A driver left ON_BREAK whose only log, of an earlier break, is closed. *)
Lemma end_break_without_open_log_witness :
  exists driver' db',
    break_service.end_break 1022
      (break_service.mkStore [mkBreakLog 1 7 0 1 900 (Some 915) (Some 15)] [] 2)
      driver_on_break = Ok (driver', db')
    /\ driver_status driver' = ACTIVE
    /\ break_time_remaining driver' = 38
    /\ break_service.break_logs db' = [mkBreakLog 1 7 0 1 900 (Some 915) (Some 15)].
Proof.
  destruct (end_break_without_open_log 1022 1000
              (break_service.mkStore [mkBreakLog 1 7 0 1 900 (Some 915) (Some 15)] [] 2)
              driver_on_break eq_refl eq_refl)
    as (driver' & db' & Hrun & Hst & Hrem & _ & _ & _ & _ & _ & Hlogs & _).
  - intros l [<- | []]. reflexivity.
  - exists driver', db'. repeat split; assumption.
Defined.

(** *** Starting a break: the status is not checked *)

(** C2, at a driver who is on a trip: with one trip since the last break
    (the configured minimum) and 60 minutes of budget, [start_break]
    succeeds and puts the driver on break. *)
Theorem start_break_on_trip_succeeds :
  driver_status driver_on_trip = ON_TRIP
  /\ exists break_log driver' db',
       break_service.start_break default_settings 1000 empty_store driver_on_trip
       = Ok (break_log, driver', db')
       /\ driver_status driver' = ON_BREAK
       /\ break_service.break_logs db' = [mkBreakLog 1 7 0 1 1000 None None].
Proof.
  split; [reflexivity |]. do 3 eexists. split; [reflexivity |]. split; reflexivity.
Qed.

(** C9, at an eligible driver who starts a break twice in a row: the second
    call succeeds as well, and the driver then has two open logs. *)
Theorem start_break_twice_two_open_logs :
  exists log1 driver1 db1 log2 driver2 db2,
    break_service.start_break default_settings 1000 empty_store
      (mkDriver 7 70 ACTIVE 60 0 None 1 0) = Ok (log1, driver1, db1)
    /\ length (break_service.open_logs 7 (break_service.break_logs db1)) = 1%nat
    /\ driver_status driver1 = ON_BREAK
    /\ break_service.start_break default_settings 1005 db1 driver1
       = Ok (log2, driver2, db2)
    /\ break_service.open_logs 7 (break_service.break_logs db2) = [log1; log2]
    /\ log1 <> log2.
Proof.
  do 6 eexists. split; [reflexivity |]. split; [reflexivity |].
  split; [reflexivity |]. split; [reflexivity |]. split; [reflexivity |].
  discriminate.
Qed.

(** ** The session monad *)

Section session_monad.
Import rotation_service.

Lemma bind_ok {A B} (m : M A) (k : A -> M B) s a s' :
  m s = (Ok a, s') -> bind m k s = k a s'.
Proof. unfold bind. intros ->. reflexivity. Qed.

Lemma bind_raise {A B} (m : M A) (k : A -> M B) s e s' :
  m s = (Raise e, s') -> bind m k s = (Raise e, s').
Proof. unfold bind. intros ->. reflexivity. Qed.

(** Catching an exception only to raise it again changes nothing. *)
Lemma try_except_reraise {A} (m : M A) s :
  try_except m (fun e => raise e) s = m s.
Proof. unfold try_except, raise. destruct (m s) as [[a | e] s']; reflexivity. Qed.

Lemma execute_ok {A} faulty stmt (run : DB -> A * DB) s :
  faulty (length (trace s)) = false ->
  execute faulty stmt run s
  = (Ok (fst (run (working s))),
     {| committed := committed s; working := snd (run (working s));
        trace := trace s ++ [stmt] |}).
Proof. unfold execute. intros ->. destruct (run (working s)); reflexivity. Qed.

Lemma execute_fault {A} faulty stmt (run : DB -> A * DB) s :
  faulty (length (trace s)) = true ->
  execute faulty stmt run s = (Raise (StoreError (length (trace s))), s).
Proof. unfold execute. intros ->. reflexivity. Qed.

Lemma query_reliable {A} stmt (q : DB -> A) s :
  query reliable stmt q s
  = (Ok (q (working s)),
     {| committed := committed s; working := working s; trace := trace s ++ [stmt] |}).
Proof. reflexivity. Qed.

Lemma update_reliable stmt f s :
  update reliable stmt f s
  = (Ok tt,
     {| committed := committed s; working := f (working s); trace := trace s ++ [stmt] |}).
Proof. reflexivity. Qed.

End session_monad.

(** ** Generation on a date that already has trips *)

Lemma count_trips_pos d db t :
  In t (rotation_service.trips db) ->
  date_of (scheduled_start t) = d ->
  (0 < rotation_service.count_trips d db)%nat.
Proof.
  intros Hin Hd. unfold rotation_service.count_trips.
  assert (H : In t (filter (rotation_service.on_date d) (rotation_service.trips db))).
  { apply filter_In. split; [exact Hin |].
    unfold rotation_service.on_date. apply Z.eqb_eq. exact Hd. }
  destruct (filter _ _); [contradiction | simpl; lia].
Qed.

(** C1. On a date [d] that already has a stored trip, generation without
    [regenerate] returns the empty list; the only statement sent to the
    store is the count query, so the session's view and the committed
    database are the ones it started from. *)
Theorem generate_existing_is_noop (faulty : nat -> bool) (db : rotation_service.DB)
    (d : date) (t : Trip) :
  faulty 0%nat = false ->
  In t (rotation_service.trips db) ->
  date_of (scheduled_start t) = d ->
  rotation_service.generate_daily_schedule faulty d false
    (rotation_service.new_session db)
  = (Ok [], {| rotation_service.committed := db;
               rotation_service.working := db;
               rotation_service.trace := [rotation_service.SelectCountTrips d] |})
  /\ rotation_service.in_session
       (rotation_service.generate_daily_schedule faulty d false) db
     = (Ok [], db).
Proof.
  intros Hfault Hin Hd.
  assert (Hrun : rotation_service.generate_daily_schedule faulty d false
                   (rotation_service.new_session db)
                 = (Ok [], {| rotation_service.committed := db;
                              rotation_service.working := db;
                              rotation_service.trace :=
                                [rotation_service.SelectCountTrips d] |})).
  { unfold rotation_service.generate_daily_schedule, rotation_service.query.
    erewrite bind_ok; [| apply execute_ok; exact Hfault].
    simpl. pose proof (count_trips_pos d db t Hin Hd) as Hpos.
    apply Nat.ltb_lt in Hpos. rewrite Hpos. reflexivity. }
  split; [exact Hrun |].
  unfold rotation_service.in_session. rewrite Hrun. reflexivity.
Qed.

(** Day 0 of [two_day_db] has a trip: a second generation changes nothing. *)
Lemma generate_existing_is_noop_witness :
  rotation_service.in_session
    (rotation_service.generate_daily_schedule rotation_service.reliable 0 false)
    two_day_db
  = (Ok [], two_day_db).
Proof.
  refine (proj2 (generate_existing_is_noop rotation_service.reliable two_day_db 0
                   (mkTrip 1 "RIV-0600-O" 1 1 1 360 400 SCHEDULED OUTBOUND (Some 1))
                   eq_refl _ eq_refl)).
  simpl. auto.
Defined.

(** ** The trip sequencer *)

Section trip_sequencer.
Import rotation_service.

Lemma spec_cycle_times_done start_time end_time :
  end_time <= start_time -> spec_cycle_times start_time end_time = [].
Proof.
  intros H. unfold spec_cycle_times.
  replace (Z.to_nat ((end_time - start_time + 59) / 60)) with 0%nat; [reflexivity |].
  assert ((end_time - start_time + 59) / 60 <= 0); [| lia].
  apply Z.lt_succ_r. apply Z.div_lt_upper_bound; lia.
Qed.

Lemma spec_cycle_times_step start_time end_time :
  start_time < end_time ->
  spec_cycle_times start_time end_time
  = start_time :: spec_cycle_times (start_time + 60) end_time.
Proof.
  intros H. unfold spec_cycle_times.
  replace ((end_time - start_time + 59) / 60)
    with ((end_time - (start_time + 60) + 59) / 60 + 1).
  - assert (0 <= (end_time - (start_time + 60) + 59) / 60)
      by (apply Z.div_pos; lia).
    rewrite Z2Nat.inj_add by lia. rewrite Nat.add_comm.
    change (Z.to_nat 1) with 1%nat. cbn [Nat.add seq map].
    rewrite <- seq_shift, map_map. f_equal; [lia |].
    apply map_ext. intros k. lia.
  - rewrite <- Z.div_add by lia. f_equal. lia.
Qed.

(** The rest of an iteration, once the trips of the cycle are added: the
    remaining iterations run from the session reached. *)
Ltac finish_cycle IH :=
  match goal with
  | |- context [bind (trip_loop _ _ _ _ ?c ?t) _ ?s0] =>
      let later := fresh "later" in
      let s' := fresh "s'" in
      let Hrun := fresh "Hrun" in
      let Hview := fresh "Hview" in
      let Hc := fresh "Hc" in
      let Ht := fresh "Ht" in
      destruct (IH c t s0) as (later & s' & Hrun & Hview & Hc & Ht); [lia | lia |];
      erewrite bind_ok by exact Hrun; unfold ret;
      do 2 eexists; split; [reflexivity |];
      simpl; rewrite Hview;
      split; [reflexivity |]; split; [exact Hc | exact Ht]
  end.

(** The loop emits the timetable of the cycles that remain, provided the
    fuel covers the time left; it sends nothing to the store. *)
Lemma trip_loop_timetable route a1 a2 end_time fuel :
  forall current_dt toggle s,
    (toggle <= 1)%nat ->
    end_time - current_dt <= Z.of_nat fuel ->
    exists generated s',
      trip_loop fuel route [a1; a2] end_time current_dt toggle s = (Ok generated, s')
      /\ map entry_of generated
         = flat_map (spec_cycle route end_time) (spec_cycle_times current_dt end_time)
      /\ committed s' = committed s
      /\ trace s' = trace s.
Proof.
  induction fuel as [| fuel IH]; intros current_dt toggle s Htoggle Hfuel.
  - exists [], s. rewrite spec_cycle_times_done by lia. simpl. auto.
  - cbn [trip_loop].
    destruct (Z.ltb_spec current_dt end_time) as [Hlt | Hge].
    + rewrite spec_cycle_times_step by exact Hlt.
      assert (Hget : exists a, nth_error [a1; a2] toggle = Some a).
      { destruct toggle as [| [| n]]; simpl; [eauto | eauto | lia]. }
      destruct Hget as [a ->].
      unfold bind at 1. unfold add_trip at 1.
      cbn [flat_map]. unfold spec_cycle at 1. cbn zeta.
      replace (current_dt + estimated_time_minutes route + turnaround_time_minutes route)
        with (current_dt + (estimated_time_minutes route + turnaround_time_minutes route))
        by lia.
      destruct (current_dt + (estimated_time_minutes route
                              + turnaround_time_minutes route) <? end_time).
      * unfold bind at 1. unfold bind at 1. unfold add_trip at 1. unfold ret at 1.
        finish_cycle IH.
      * unfold bind at 1. unfold ret at 1.
        finish_cycle IH.
    + exists [], s. rewrite spec_cycle_times_done by lia. simpl. auto.
Qed.

Lemma morning_cycle_times d :
  spec_cycle_times (datetime_combine d 6 0) (datetime_combine d 14 0)
  = map (fun h => datetime_combine d h 0) [6; 7; 8; 9; 10; 11; 12; 13].
Proof.
  unfold spec_cycle_times, datetime_combine.
  replace (d * minutes_per_day + 14 * 60 + 0 - (d * minutes_per_day + 6 * 60 + 0) + 59)
    with 539 by lia.
  change (Z.to_nat (539 / 60)) with 8%nat. simpl.
  repeat (f_equal; try lia).
Qed.

End trip_sequencer.

Section route_timetable.
Import rotation_service.

Lemma sequence_trips_timetable d route a1 a2 s :
  exists generated s',
    sequence_trips d route [a1; a2] s = (Ok generated, s')
    /\ map entry_of generated = spec_timetable d route
    /\ committed s' = committed s
    /\ trace s' = trace s.
Proof.
  unfold sequence_trips, spec_timetable. rewrite <- morning_cycle_times.
  apply trip_loop_timetable; [lia |].
  unfold datetime_combine, minutes_per_day. lia.
Qed.

(** The builder adds one assignment per driver/vehicle pair and sends
    nothing to the store. *)
Lemma add_assignments_two route d morning_start morning_end d1 v1 d2 v2 s :
  exists x1 x2 s',
    add_assignments route d morning_start morning_end 0 [(d1, v1); (d2, v2)] s
    = (Ok [x1; x2], s')
    /\ ra_position x1 = DRIVER_1 /\ ra_position x2 = DRIVER_2
    /\ ra_driver_id x1 = driver_id d1 /\ ra_driver_id x2 = driver_id d2
    /\ ra_vehicle_id x1 = vehicle_id v1 /\ ra_vehicle_id x2 = vehicle_id v2
    /\ ra_shift_type x1 = MORNING /\ ra_shift_type x2 = MORNING
    /\ committed s' = committed s
    /\ trace s' = trace s.
Proof.
  do 3 eexists. split; [reflexivity |]. simpl. repeat split.
Qed.

Lemma eligible_pairs (route_drivers : list Driver) (route_vehicles : list Vehicle) :
  (2 <= length route_drivers)%nat ->
  (2 <= length route_vehicles)%nat ->
  exists d1 v1 d2 v2,
    combine (firstn 2 route_drivers) route_vehicles = [(d1, v1); (d2, v2)].
Proof.
  intros Hd Hv.
  destruct route_drivers as [| d1 [| d2 ?]]; simpl in Hd; try lia.
  destruct route_vehicles as [| v1 [| v2 ?]]; simpl in Hv; try lia.
  exists d1, v1, d2, v2. reflexivity.
Qed.

End route_timetable.

(** For an eligible route, once the store accepts the flush of the two
    assignments, the trips generated are those of the morning timetable. *)
Lemma schedule_route_eligible (faulty : nat -> bool) (d : date) (route : Route)
    (route_drivers : list Driver) (route_vehicles : list Vehicle)
    (s : rotation_service.Session) :
  (2 <= length route_drivers)%nat ->
  (2 <= length route_vehicles)%nat ->
  faulty (length (rotation_service.trace s)) = false ->
  exists generated s',
    rotation_service.schedule_route faulty d route route_drivers route_vehicles s
    = (Ok generated, s')
    /\ map entry_of generated = spec_timetable d route.
Proof.
  intros Hd Hv Hflush.
  destruct (eligible_pairs route_drivers route_vehicles Hd Hv)
    as (d1 & v1 & d2 & v2 & Hpairs).
  unfold rotation_service.schedule_route. rewrite Hpairs.
  destruct (add_assignments_two route d (datetime_combine d 6 0)
              (datetime_combine d 15 0) d1 v1 d2 v2 s)
    as (x1 & x2 & s1 & Hadd & _ & _ & _ & _ & _ & _ & _ & _ & _ & Htrace).
  erewrite bind_ok by exact Hadd.
  unfold rotation_service.flush, rotation_service.update.
  erewrite bind_ok by (apply execute_ok; rewrite Htrace; exact Hflush).
  destruct (sequence_trips_timetable d route x1 x2
              {| rotation_service.committed := rotation_service.committed s1;
                 rotation_service.working :=
                   snd ((fun db => (tt, db)) (rotation_service.working s1));
                 rotation_service.trace :=
                   rotation_service.trace s1 ++ [rotation_service.Flush] |})
    as (generated & s' & Hrun & Hview & _).
  exists generated, s'. split; [exact Hrun | exact Hview].
Qed.

(** The cycles of the morning timetable are the times 06:00 + 60 k that
    are strictly before 14:00. *)
Lemma morning_cycles_spec (d : date) (c : datetime) :
  In c (map (fun h => datetime_combine d h 0) [6; 7; 8; 9; 10; 11; 12; 13])
  <-> exists k : nat,
        c = datetime_combine d 6 0 + 60 * Z.of_nat k /\ c < datetime_combine d 14 0.
Proof.
  unfold datetime_combine, minutes_per_day. cbn [map In]. split.
  - intros H.
    repeat (destruct H as [<- | H];
            [first [ exists 0%nat; lia | exists 1%nat; lia | exists 2%nat; lia
                   | exists 3%nat; lia | exists 4%nat; lia | exists 5%nat; lia
                   | exists 6%nat; lia | exists 7%nat; lia ] |]).
    contradiction.
  - intros [k [-> Hlt]].
    assert (Hk : (k < 8)%nat) by lia.
    do 8 (destruct k as [| k]; [repeat (first [left; lia | right]) |]). lia.
Qed.

(** C4. For an eligible route (a claimed slice of at least two drivers and
    two vehicles), once the store accepts the flush of the two assignments,
    the trips generated are those of the morning timetable.  Its cycles are
    06:00, 07:00, ..., 13:00: the times 06:00 + 60 k strictly before 14:00.
    Each cycle has one OUTBOUND trip from the cycle time to the cycle time
    plus [estimated_time_minutes], and one INBOUND trip exactly when the
    outbound's end plus [turnaround_time_minutes] is strictly before 14:00,
    starting then and lasting [estimated_time_minutes]. *)
Theorem schedule_route_timetable (faulty : nat -> bool) (d : date) (route : Route)
    (route_drivers : list Driver) (route_vehicles : list Vehicle)
    (s : rotation_service.Session) :
  (2 <= length route_drivers)%nat ->
  (2 <= length route_vehicles)%nat ->
  faulty (length (rotation_service.trace s)) = false ->
  (exists generated s',
      rotation_service.schedule_route faulty d route route_drivers route_vehicles s
      = (Ok generated, s')
      /\ map entry_of generated
         = flat_map (spec_cycle route (datetime_combine d 14 0))
             (map (fun h => datetime_combine d h 0) [6; 7; 8; 9; 10; 11; 12; 13]))
  /\ (forall c,
        In c (map (fun h => datetime_combine d h 0) [6; 7; 8; 9; 10; 11; 12; 13])
        <-> exists k : nat,
              c = datetime_combine d 6 0 + 60 * Z.of_nat k
              /\ c < datetime_combine d 14 0)
  /\ (forall c,
        spec_cycle route (datetime_combine d 14 0) c
        = (OUTBOUND, c, c + estimated_time_minutes route)
          :: (if c + estimated_time_minutes route + turnaround_time_minutes route
                 <? datetime_combine d 14 0
              then [(INBOUND,
                     c + estimated_time_minutes route + turnaround_time_minutes route,
                     c + estimated_time_minutes route + turnaround_time_minutes route
                     + estimated_time_minutes route)]
              else [])).
Proof.
  intros Hd Hv Hflush. split; [| split].
  - destruct (schedule_route_eligible faulty d route route_drivers route_vehicles
                s Hd Hv Hflush) as (generated & s' & Hrun & Hview).
    exists generated, s'. split; [exact Hrun | exact Hview].
  - intros c. apply morning_cycles_spec.
  - intros c. reflexivity.
Qed.

(** The scenario of the specification: estimated time 40, turnaround 10.
    The 13:00 outbound ends at 13:40 and its inbound, due at 13:50, is in. *)
Lemma schedule_route_timetable_witness :
  exists generated s',
    rotation_service.schedule_route rotation_service.reliable 0 riverside
      [sample_driver 1; sample_driver 2; sample_driver 3]
      [sample_vehicle 1; sample_vehicle 2]
      (rotation_service.new_session sample_db)
    = (Ok generated, s')
    /\ map entry_of generated
       = [(OUTBOUND, 360, 400); (INBOUND, 410, 450);
          (OUTBOUND, 420, 460); (INBOUND, 470, 510);
          (OUTBOUND, 480, 520); (INBOUND, 530, 570);
          (OUTBOUND, 540, 580); (INBOUND, 590, 630);
          (OUTBOUND, 600, 640); (INBOUND, 650, 690);
          (OUTBOUND, 660, 700); (INBOUND, 710, 750);
          (OUTBOUND, 720, 760); (INBOUND, 770, 810);
          (OUTBOUND, 780, 820); (INBOUND, 830, 870)].
Proof.
  destruct (schedule_route_timetable rotation_service.reliable 0 riverside
              [sample_driver 1; sample_driver 2; sample_driver 3]
              [sample_vehicle 1; sample_vehicle 2]
              (rotation_service.new_session sample_db))
    as ((generated & s' & Hrun & Hview) & _); [simpl; lia | simpl; lia | reflexivity |].
  exists generated, s'. split; [exact Hrun |]. rewrite Hview. reflexivity.
Defined.

(** The display identifier of a trip: route prefix, start time, direction. *)
Example trip_number_of_first_outbound :
  trip_number (rotation_service.make_trip riverside (sample_assignment 1)
                 OUTBOUND "O" (datetime_combine 0 6 0) 1)
  = "RIV-0600-O"%string.
Proof. reflexivity. Qed.

(** At the bound itself: with turnaround 20 the inbound of the 13:00 cycle
    would start at 14:00, which is not before 14:00, and is left out. *)
Example inbound_at_bound_excluded :
  spec_cycle lakeside (datetime_combine 0 14 0) (datetime_combine 0 13 0)
  = [(OUTBOUND, 780, 820)]
  /\ spec_cycle riverside (datetime_combine 0 14 0) (datetime_combine 0 13 0)
     = [(OUTBOUND, 780, 820); (INBOUND, 830, 870)].
Proof. split; reflexivity. Qed.

(** ** Outbound/inbound pairs *)

Section trip_pairs.
Import rotation_service.

Lemma timetable_head_outbound route end_time cycles x rest :
  flat_map (spec_cycle route end_time) cycles = x :: rest ->
  fst (fst x) = OUTBOUND.
Proof.
  destruct cycles as [| c cs]; simpl; [discriminate |].
  intros [= <- _]. reflexivity.
Qed.

(** In a timetable an INBOUND entry that follows an OUTBOUND entry is the
    inbound of the same cycle. *)
Lemma timetable_adjacent_pair route end_time cycles :
  forall pre post s1 e1 s2 e2,
    flat_map (spec_cycle route end_time) cycles
    = pre ++ (OUTBOUND, s1, e1) :: (INBOUND, s2, e2) :: post ->
    s2 = e1 + turnaround_time_minutes route.
Proof.
  induction cycles as [| c cs IH]; intros pre post s1 e1 s2 e2 H.
  - simpl in H. destruct pre; discriminate.
  - cbn [flat_map] in H. unfold spec_cycle at 1 in H. cbn zeta in H.
    destruct (c + estimated_time_minutes route + turnaround_time_minutes route
              <? end_time).
    + destruct pre as [| x [| y pre]]; simpl in H.
      * inversion H; subst. reflexivity.
      * inversion H.
      * inversion H as [[Hx Hy Hrest]]. eapply IH. exact Hrest.
    + destruct pre as [| x pre]; simpl in H.
      * inversion H as [[Hs He Hrest]].
        apply timetable_head_outbound in Hrest. discriminate.
      * inversion H as [[Hx Hrest]]. eapply IH. exact Hrest.
Qed.

(** Whenever the trips of an eligible route are generated, they are the
    route's timetable. *)
Lemma schedule_route_ok_timetable faulty d route route_drivers route_vehicles
    s generated s' :
  (2 <= length route_drivers)%nat ->
  (2 <= length route_vehicles)%nat ->
  schedule_route faulty d route route_drivers route_vehicles s = (Ok generated, s') ->
  map entry_of generated = spec_timetable d route.
Proof.
  intros Hd Hv Hrun.
  destruct (faulty (length (trace s))) eqn:Hflush.
  - exfalso. revert Hrun.
    destruct (eligible_pairs route_drivers route_vehicles Hd Hv)
      as (d1 & v1 & d2 & v2 & Hpairs).
    unfold schedule_route. rewrite Hpairs.
    destruct (add_assignments_two route d (datetime_combine d 6 0)
                (datetime_combine d 15 0) d1 v1 d2 v2 s)
      as (x1 & x2 & s1 & Hadd & _ & _ & _ & _ & _ & _ & _ & _ & _ & Htrace).
    erewrite bind_ok by exact Hadd.
    unfold flush, update.
    erewrite bind_raise by (apply execute_fault; rewrite Htrace; exact Hflush).
    discriminate.
  - destruct (schedule_route_eligible faulty d route route_drivers route_vehicles
                s Hd Hv Hflush) as (generated0 & s0 & Hrun0 & Hview).
    rewrite Hrun in Hrun0. injection Hrun0 as <- _. exact Hview.
Qed.

End trip_pairs.

(** C8, as the code has it.  Among the trips generated for an eligible
    route, an INBOUND trip that directly follows an OUTBOUND trip starts
    exactly [turnaround_time_minutes] after that outbound's scheduled end
    (so not before it); when the route's turnaround time is positive, the
    two windows [[scheduled_start, scheduled_end]] do not overlap. *)
Theorem paired_trips_turnaround (faulty : nat -> bool) (d : date) (route : Route)
    (route_drivers : list Driver) (route_vehicles : list Vehicle)
    (s s' : rotation_service.Session) (pre post : list Trip) (out inn : Trip) :
  (2 <= length route_drivers)%nat ->
  (2 <= length route_vehicles)%nat ->
  rotation_service.schedule_route faulty d route route_drivers route_vehicles s
  = (Ok (pre ++ out :: inn :: post), s') ->
  direction out = OUTBOUND ->
  direction inn = INBOUND ->
  scheduled_start inn = scheduled_end out + turnaround_time_minutes route
  /\ scheduled_start inn >= scheduled_end out + turnaround_time_minutes route
  /\ (0 < turnaround_time_minutes route -> ~ windows_overlap out inn).
Proof.
  intros Hd Hv Hrun Hout Hinn.
  apply schedule_route_ok_timetable in Hrun; [| exact Hd | exact Hv].
  rewrite map_app in Hrun. cbn [map] in Hrun. unfold entry_of at 2 3 in Hrun.
  rewrite Hout, Hinn in Hrun. unfold spec_timetable in Hrun.
  symmetry in Hrun. apply timetable_adjacent_pair in Hrun.
  split; [exact Hrun |]. split; [lia |].
  intros Hpos [_ Hover]. lia.
Qed.

Lemma paired_trips_turnaround_witness :
  match rotation_service.schedule_route rotation_service.reliable 0 riverside
          [sample_driver 1; sample_driver 2; sample_driver 3]
          [sample_vehicle 1; sample_vehicle 2]
          (rotation_service.new_session sample_db) with
  | (Ok (out :: inn :: _), _) =>
      direction out = OUTBOUND
      /\ direction inn = INBOUND
      /\ scheduled_end out = 400
      /\ scheduled_start inn = scheduled_end out + 10
      /\ ~ windows_overlap out inn
  | _ => False
  end.
Proof.
  destruct (rotation_service.schedule_route rotation_service.reliable 0 riverside
              [sample_driver 1; sample_driver 2; sample_driver 3]
              [sample_vehicle 1; sample_vehicle 2]
              (rotation_service.new_session sample_db))
    as [[[| out [| inn post]] | e] s'] eqn:Hrun;
    try (vm_compute in Hrun; discriminate Hrun).
  assert (Hvalue := Hrun). vm_compute in Hvalue.
  assert (Hout : direction out = OUTBOUND) by (injection Hvalue as <- _ _ _; reflexivity).
  assert (Hinn : direction inn = INBOUND) by (injection Hvalue as _ <- _ _; reflexivity).
  assert (Hend : scheduled_end out = 400) by (injection Hvalue as <- _ _ _; reflexivity).
  destruct (paired_trips_turnaround rotation_service.reliable 0 riverside
              [sample_driver 1; sample_driver 2; sample_driver 3]
              [sample_vehicle 1; sample_vehicle 2]
              (rotation_service.new_session sample_db) s' [] post out inn
              ltac:(simpl; lia) ltac:(simpl; lia) Hrun Hout Hinn)
    as (Heq & _ & Hno).
  split; [exact Hout |]. split; [exact Hinn |]. split; [exact Hend |].
  split; [exact Heq |]. apply Hno. simpl. lia.
Defined.

(** C8 as stated fails for a route stored with turnaround -20: the inbound
    of the 06:00 cycle runs 06:20-07:00 while the outbound runs 06:00-06:40. *)
Lemma paired_trips_overlap_counterexample :
  match rotation_service.schedule_route rotation_service.reliable 0 hasty
          [sample_driver 1; sample_driver 2; sample_driver 3]
          [sample_vehicle 1; sample_vehicle 2]
          (rotation_service.new_session sample_db) with
  | (Ok (out :: inn :: _), _) =>
      direction out = OUTBOUND
      /\ direction inn = INBOUND
      /\ (scheduled_start out, scheduled_end out) = (360, 400)
      /\ (scheduled_start inn, scheduled_end inn) = (380, 420)
      /\ windows_overlap out inn
  | _ => False
  end.
Proof.
  destruct (rotation_service.schedule_route rotation_service.reliable 0 hasty
              [sample_driver 1; sample_driver 2; sample_driver 3]
              [sample_vehicle 1; sample_vehicle 2]
              (rotation_service.new_session sample_db))
    as [[[| out [| inn post]] | e] s'] eqn:Hrun;
    try (vm_compute in Hrun; discriminate Hrun).
  vm_compute in Hrun. injection Hrun as <- <- _ _.
  unfold windows_overlap. simpl. repeat split; lia.
Qed.

(** ** The cleanup of a regeneration *)

Section cleanup.
Import rotation_service.

Lemma mem_In x l : mem x l = true <-> In x l.
Proof.
  unfold mem. rewrite existsb_exists. split.
  - intros [y [Hy Heq]]. apply Z.eqb_eq in Heq. subst. exact Hy.
  - intros H. exists x. split; [exact H | apply Z.eqb_refl].
Qed.

Lemma filter_all {A} (f : A -> bool) (l : list A) :
  (forall x, f x = true) -> filter f l = l.
Proof.
  intros H. induction l as [| x l IH]; simpl; [reflexivity |].
  rewrite H, IH. reflexivity.
Qed.

Lemma delete_tickets_nil db : delete_tickets [] db = db.
Proof.
  unfold delete_tickets. rewrite filter_all by reflexivity. destruct db; reflexivity.
Qed.

Lemma delete_gps_tracking_nil db : delete_gps_tracking [] db = db.
Proof.
  unfold delete_gps_tracking. rewrite filter_all; [destruct db; reflexivity |].
  intros x. destruct (gps_trip_id x); reflexivity.
Qed.

Lemma delete_driver_exchanges_nil db : delete_driver_exchanges [] db = db.
Proof.
  unfold delete_driver_exchanges. rewrite filter_all by reflexivity.
  destruct db; reflexivity.
Qed.

Lemma delete_trips_nil db : delete_trips [] db = db.
Proof.
  unfold delete_trips. rewrite filter_all by reflexivity. destruct db; reflexivity.
Qed.

Lemma delete_rotation_assignments_nil db : delete_rotation_assignments [] db = db.
Proof.
  unfold delete_rotation_assignments. rewrite filter_all by reflexivity.
  destruct db; reflexivity.
Qed.

(** On a store that executes every statement the cleanup completes: it
    sends its statements in dependency order and leaves the session's view
    cleaned; nothing is committed. *)
Lemma delete_schedule_reliable d s :
  delete_schedule reliable d s
  = (Ok tt, {| committed := committed s;
               working := spec_cleanup d (working s);
               trace := trace s ++ spec_cleanup_statements d (working s) |}).
Proof.
  unfold delete_schedule. rewrite try_except_reraise.
  unfold spec_cleanup, spec_cleanup_statements.
  unfold flush, query, update, when, bind, execute, reliable, ret.
  cbn [trace working committed fst snd].
  destruct (trip_ids_on d (working s)) as [| tid tids];
    destruct (assignment_ids_on d (working s)) as [| aid aids];
    cbn [is_empty negb trace working committed app];
    rewrite ?delete_tickets_nil, ?delete_gps_tracking_nil,
      ?delete_driver_exchanges_nil, ?delete_trips_nil,
      ?delete_rotation_assignments_nil;
    repeat rewrite <- app_assoc; reflexivity.
Qed.

Lemma cleanup_no_trip d db t :
  In t (trips (spec_cleanup d db)) -> date_of (scheduled_start t) <> d.
Proof.
  unfold spec_cleanup. cbn. intros Hin Hd.
  apply filter_In in Hin. destruct Hin as [Hin Hkeep].
  apply negb_true_iff in Hkeep.
  assert (Hmem : mem (trip_id t) (trip_ids_on d db) = true).
  { apply mem_In. unfold trip_ids_on. apply in_map. apply filter_In.
    split; [exact Hin |]. unfold on_date. apply Z.eqb_eq. exact Hd. }
  congruence.
Qed.

Lemma cleanup_no_assignment d db a :
  In a (rotation_assignments (spec_cleanup d db)) -> ra_shift_date a <> d.
Proof.
  unfold spec_cleanup. cbn. intros Hin Hd.
  apply filter_In in Hin. destruct Hin as [Hin Hkeep].
  apply negb_true_iff in Hkeep.
  assert (Hmem : mem (ra_id a) (assignment_ids_on d db) = true).
  { apply mem_In. unfold assignment_ids_on. apply in_map. apply filter_In.
    split; [exact Hin |]. unfold shift_on. apply Z.eqb_eq. exact Hd. }
  congruence.
Qed.

Lemma cleanup_no_exchange d db x a :
  In x (driver_exchanges (spec_cleanup d db)) ->
  In a (rotation_assignments db) ->
  ra_shift_date a = d ->
  exchange_rotation_assignment_id x <> ra_id a.
Proof.
  unfold spec_cleanup. cbn. intros Hin Ha Hd Heq.
  apply filter_In in Hin. destruct Hin as [_ Hkeep].
  apply negb_true_iff in Hkeep.
  assert (Hmem : mem (exchange_rotation_assignment_id x) (assignment_ids_on d db) = true).
  { apply mem_In. rewrite Heq. unfold assignment_ids_on. apply in_map. apply filter_In.
    split; [exact Ha |]. unfold shift_on. apply Z.eqb_eq. exact Hd. }
  congruence.
Qed.

Lemma cleanup_no_ticket d db k t :
  In k (tickets (spec_cleanup d db)) ->
  In t (trips db) ->
  date_of (scheduled_start t) = d ->
  ticket_trip_id k <> trip_id t.
Proof.
  unfold spec_cleanup. cbn. intros Hin Ht Hd Heq.
  apply filter_In in Hin. destruct Hin as [_ Hkeep].
  apply negb_true_iff in Hkeep.
  assert (Hmem : mem (ticket_trip_id k) (trip_ids_on d db) = true).
  { apply mem_In. rewrite Heq. unfold trip_ids_on. apply in_map. apply filter_In.
    split; [exact Ht |]. unfold on_date. apply Z.eqb_eq. exact Hd. }
  congruence.
Qed.

Lemma cleanup_no_gps d db g t :
  In g (gps_tracking (spec_cleanup d db)) ->
  In t (trips db) ->
  date_of (scheduled_start t) = d ->
  gps_trip_id g <> Some (trip_id t).
Proof.
  unfold spec_cleanup. cbn. intros Hin Ht Hd Heq.
  apply filter_In in Hin. destruct Hin as [_ Hkeep].
  apply negb_true_iff in Hkeep. rewrite Heq in Hkeep. simpl in Hkeep.
  assert (Hmem : mem (trip_id t) (trip_ids_on d db) = true).
  { apply mem_In. unfold trip_ids_on. apply in_map. apply filter_In.
    split; [exact Ht |]. unfold on_date. apply Z.eqb_eq. exact Hd. }
  congruence.
Qed.

End cleanup.


(** ** Atomicity of a generation *)

Section atomicity.
Import rotation_service.
Local Open Scope session_scope.

Variable faulty : nat -> bool.

(** *** What commits *)

Lemma keeps_ret {A} (a : A) : keeps_committed (ret a).
Proof. intros s r s' [= _ <-]. reflexivity. Qed.

Lemma keeps_raise {A} e : keeps_committed (@raise A e).
Proof. intros s r s' [= _ <-]. reflexivity. Qed.

Lemma keeps_bind {A B} (m : M A) (k : A -> M B) :
  keeps_committed m -> (forall a, keeps_committed (k a)) ->
  keeps_committed (bind m k).
Proof.
  intros Hm Hk s r s'. unfold bind.
  destruct (m s) as [[a | e] s1] eqn:E; intros H.
  - rewrite (Hk a _ _ _ H). exact (Hm _ _ _ E).
  - injection H as _ <-. exact (Hm _ _ _ E).
Qed.

Lemma keeps_try_except {A} (m : M A) (handler : exn -> M A) :
  keeps_committed m -> (forall e, keeps_committed (handler e)) ->
  keeps_committed (try_except m handler).
Proof.
  intros Hm Hh s r s'. unfold try_except.
  destruct (m s) as [[a | e] s1] eqn:E; intros H.
  - injection H as _ <-. exact (Hm _ _ _ E).
  - rewrite (Hh e _ _ _ H). exact (Hm _ _ _ E).
Qed.

Lemma keeps_execute {A} stmt (run : DB -> A * DB) :
  keeps_committed (execute faulty stmt run).
Proof.
  intros s r s'. unfold execute.
  destruct (faulty (length (trace s))).
  - intros [= _ <-]. reflexivity.
  - destruct (run (working s)). intros [= _ <-]. reflexivity.
Qed.

Lemma keeps_when b (m : M unit) :
  keeps_committed m -> keeps_committed (when b m).
Proof. intros Hm. destruct b; [exact Hm | apply keeps_ret]. Qed.

Lemma keeps_add_assignment make : keeps_committed (add_assignment make).
Proof. intros s r s' [= _ <-]. reflexivity. Qed.

Lemma keeps_add_trip make : keeps_committed (add_trip make).
Proof. intros s r s' [= _ <-]. reflexivity. Qed.

Create HintDb session.
#[local] Hint Resolve keeps_ret keeps_raise keeps_execute keeps_add_assignment
  keeps_add_trip : session.

Ltac keeps :=
  repeat first
    [ apply keeps_try_except; [| intros ?]
    | apply keeps_when
    | apply keeps_bind; [| intros ?]
    | progress auto with session ].

Lemma keeps_delete_schedule d : keeps_committed (delete_schedule faulty d).
Proof. unfold delete_schedule, flush, query, update. keeps. Qed.

Lemma keeps_add_assignments route d ms me pairs :
  forall i, keeps_committed (add_assignments route d ms me i pairs).
Proof.
  induction pairs as [| [dr v] rest IH]; intros i; cbn [add_assignments].
  - apply keeps_ret.
  - apply keeps_bind; [apply keeps_add_assignment | intros assignment].
    apply keeps_bind; [apply IH | intros assignments]. apply keeps_ret.
Qed.

Lemma keeps_trip_loop route assignments end_time fuel :
  forall current_dt toggle,
    keeps_committed (trip_loop fuel route assignments end_time current_dt toggle).
Proof.
  induction fuel as [| fuel IH]; intros current_dt toggle; cbn [trip_loop];
    [apply keeps_ret |].
  destruct (current_dt <? end_time); [| apply keeps_ret].
  destruct (nth_error assignments toggle); [| apply keeps_raise].
  apply keeps_bind; [apply keeps_add_trip | intros trip_out].
  apply keeps_bind; [| intros inbound].
  - destruct (_ <? end_time); [| apply keeps_ret].
    apply keeps_bind; [apply keeps_add_trip | intros trip_in]. apply keeps_ret.
  - apply keeps_bind; [apply IH | intros later]. apply keeps_ret.
Qed.

Lemma keeps_schedule_route d route rd rv :
  keeps_committed (schedule_route faulty d route rd rv).
Proof.
  unfold schedule_route, sequence_trips, flush, update.
  apply keeps_bind; [apply keeps_add_assignments | intros assignments].
  apply keeps_bind; [apply keeps_execute | intros _].
  apply keeps_trip_loop.
Qed.

Lemma keeps_route_loop d all_drivers all_vehicles routes :
  forall driver_idx vehicle_idx,
    keeps_committed
      (route_loop faulty d all_drivers all_vehicles routes driver_idx vehicle_idx).
Proof.
  induction routes as [| route rest IH]; intros driver_idx vehicle_idx;
    cbn [route_loop]; [apply keeps_ret |].
  destruct (_ || _); [apply IH |].
  apply keeps_bind; [apply keeps_schedule_route | intros trips].
  apply keeps_bind; [apply IH | intros later]. apply keeps_ret.
Qed.

(** *** All or nothing *)

Lemma keeps_all_or_nothing {A} (m : M A) : keeps_committed m -> all_or_nothing m.
Proof.
  intros Hm s r s' H. pose proof (Hm _ _ _ H) as Hc. split; intros; auto.
Qed.

Lemma all_or_nothing_bind {A B} (m : M A) (k : A -> M B) :
  keeps_committed m -> (forall a, all_or_nothing (k a)) ->
  all_or_nothing (bind m k).
Proof.
  intros Hm Hk s r s'. unfold bind.
  destruct (m s) as [[a | e] s1] eqn:E; intros H.
  - pose proof (Hm _ _ _ E) as Hc. destruct (Hk a _ _ _ H) as [Hraise Hok].
    rewrite Hc in Hraise, Hok. split; assumption.
  - injection H as <- <-. pose proof (Hm _ _ _ E) as Hc. split; intros; auto.
Qed.

(** A commit that ends the computation commits the whole view, or fails
    and commits nothing. *)
Lemma all_or_nothing_commit {A} (a : A) : all_or_nothing (commit faulty ;;; ret a).
Proof.
  intros s r s'. unfold bind, commit, ret.
  destruct (faulty (length (trace s))); intros [= <- <-]; split; intros; auto;
    discriminate.
Qed.

Lemma all_or_nothing_build_schedule d : all_or_nothing (build_schedule faulty d).
Proof.
  unfold build_schedule, query.
  repeat (apply all_or_nothing_bind; [apply keeps_execute | intros ?]).
  destruct (_ || _); [apply keeps_all_or_nothing, keeps_ret |].
  apply all_or_nothing_bind; [apply keeps_route_loop | intros generated].
  apply all_or_nothing_commit.
Qed.

Lemma all_or_nothing_generate d regenerate :
  all_or_nothing (generate_daily_schedule faulty d regenerate).
Proof.
  unfold generate_daily_schedule, query.
  apply all_or_nothing_bind; [apply keeps_execute | intros n].
  destruct (_ && _); [apply keeps_all_or_nothing, keeps_ret |].
  apply all_or_nothing_bind;
    [apply keeps_when, keeps_delete_schedule | intros _].
  apply all_or_nothing_build_schedule.
Qed.

End atomicity.

(** ** A run that returns is the run of a reliable store *)

Section returns_as_reliable.
Import rotation_service.
Local Open Scope session_scope.

Variable faulty : nat -> bool.

Lemma returns_as_refl {A} (m : M A) : returns_as m m.
Proof. intros s a s' H. exact H. Qed.

Lemma returns_as_bind {A B} (m m0 : M A) (k k0 : A -> M B) :
  returns_as m m0 -> (forall a, returns_as (k a) (k0 a)) ->
  returns_as (bind m k) (bind m0 k0).
Proof.
  intros Hm Hk s b s'. unfold bind.
  destruct (m s) as [[a | e] s1] eqn:E; [| discriminate].
  intros H. rewrite (Hm _ _ _ E). exact (Hk a _ _ _ H).
Qed.

Lemma returns_as_try_except {A} (m m0 : M A) :
  returns_as m m0 ->
  returns_as (try_except m (fun e => raise e)) (try_except m0 (fun e => raise e)).
Proof.
  intros Hm s a s'. rewrite !try_except_reraise. apply Hm.
Qed.

Lemma returns_as_execute {A} stmt (run : DB -> A * DB) :
  returns_as (execute faulty stmt run) (execute reliable stmt run).
Proof.
  intros s a s'. unfold execute, reliable.
  destruct (faulty (length (trace s))); [discriminate | auto].
Qed.

Lemma returns_as_commit : returns_as (commit faulty) (commit reliable).
Proof.
  intros s a s'. unfold commit, reliable.
  destruct (faulty (length (trace s))); [discriminate | auto].
Qed.

Lemma returns_as_when b (m m0 : M unit) :
  returns_as m m0 -> returns_as (when b m) (when b m0).
Proof. intros Hm. destruct b; [exact Hm | apply returns_as_refl]. Qed.

Ltac same_run :=
  repeat first
    [ apply returns_as_try_except
    | apply returns_as_when
    | apply returns_as_bind; [| intros ?]
    | apply returns_as_execute
    | apply returns_as_commit
    | apply returns_as_refl ].

Lemma returns_as_delete_schedule d :
  returns_as (delete_schedule faulty d) (delete_schedule reliable d).
Proof. unfold delete_schedule, flush, query, update. same_run. Qed.

Lemma returns_as_schedule_route d route rd rv :
  returns_as (schedule_route faulty d route rd rv)
    (schedule_route reliable d route rd rv).
Proof. unfold schedule_route, flush, update. same_run. Qed.

Lemma returns_as_route_loop d all_drivers all_vehicles routes :
  forall driver_idx vehicle_idx,
    returns_as
      (route_loop faulty d all_drivers all_vehicles routes driver_idx vehicle_idx)
      (route_loop reliable d all_drivers all_vehicles routes driver_idx vehicle_idx).
Proof.
  induction routes as [| route rest IH]; intros driver_idx vehicle_idx;
    cbn [route_loop]; [apply returns_as_refl |].
  destruct (_ || _); [apply IH |].
  apply returns_as_bind; [apply returns_as_schedule_route | intros trips].
  apply returns_as_bind; [apply IH | intros later]. apply returns_as_refl.
Qed.

Lemma returns_as_build_schedule d :
  returns_as (build_schedule faulty d) (build_schedule reliable d).
Proof.
  unfold build_schedule, query.
  repeat (apply returns_as_bind; [apply returns_as_execute | intros ?]).
  destruct (_ || _); [apply returns_as_refl |].
  apply returns_as_bind; [apply returns_as_route_loop | intros generated].
  same_run.
Qed.

Lemma returns_as_generate d regenerate :
  returns_as (generate_daily_schedule faulty d regenerate)
    (generate_daily_schedule reliable d regenerate).
Proof.
  unfold generate_daily_schedule, query.
  apply returns_as_bind; [apply returns_as_execute | intros n].
  destruct (_ && _); [apply returns_as_refl |].
  apply returns_as_bind;
    [apply returns_as_when, returns_as_delete_schedule | intros _].
  apply returns_as_build_schedule.
Qed.

End returns_as_reliable.

(** ** The only failures are the store's *)

Section store_failures.
Import rotation_service.
Local Open Scope session_scope.

Variable faulty : nat -> bool.

Lemma store_ret {A} (a : A) : fails_only_at_store faulty (ret a).
Proof. intros s r s' [= <- <-] Hs. split; [exact Hs | discriminate]. Qed.

Lemma store_bind {A B} (m : M A) (k : A -> M B) :
  fails_only_at_store faulty m -> (forall a, fails_only_at_store faulty (k a)) ->
  fails_only_at_store faulty (bind m k).
Proof.
  intros Hm Hk s r s'. unfold bind.
  destruct (m s) as [[a | e] s1] eqn:E; intros H Hs.
  - destruct (Hm _ _ _ E Hs) as [Hs1 _]. exact (Hk a _ _ _ H Hs1).
  - injection H as <- <-. destruct (Hm _ _ _ E Hs) as [Hs1 He].
    split; [exact Hs1 |]. intros e0 [= <-]. exact (He e eq_refl).
Qed.

Lemma store_try_except_reraise {A} (m : M A) :
  fails_only_at_store faulty m ->
  fails_only_at_store faulty (try_except m (fun e => raise e)).
Proof. intros Hm s r s'. rewrite try_except_reraise. apply Hm. Qed.

Lemma store_when b (m : M unit) :
  fails_only_at_store faulty m -> fails_only_at_store faulty (when b m).
Proof. intros Hm. destruct b; [exact Hm | apply store_ret]. Qed.

Lemma accepted_snoc s committed' working' stmt :
  accepted faulty s ->
  faulty (length (trace s)) = false ->
  accepted faulty {| committed := committed'; working := working';
                     trace := trace s ++ [stmt] |}.
Proof.
  intros Hs Hnext n. cbn [trace]. rewrite length_app. simpl. intros Hn.
  destruct (Nat.eq_dec n (length (trace s))) as [-> | Hne]; [exact Hnext |].
  apply Hs. lia.
Qed.

Lemma store_execute {A} stmt (run : DB -> A * DB) :
  fails_only_at_store faulty (execute faulty stmt run).
Proof.
  intros s r s'. unfold execute.
  destruct (faulty (length (trace s))) eqn:Hnext.
  - intros [= <- <-] Hs. split; [exact Hs |]. intros e [= <-]. auto.
  - destruct (run (working s)) as [a db']. intros [= <- <-] Hs.
    split; [apply accepted_snoc; assumption | discriminate].
Qed.

Lemma store_commit : fails_only_at_store faulty (commit faulty).
Proof.
  intros s r s'. unfold commit.
  destruct (faulty (length (trace s))) eqn:Hnext.
  - intros [= <- <-] Hs. split; [exact Hs |]. intros e [= <-]. auto.
  - intros [= <- <-] Hs. split; [apply accepted_snoc; assumption | discriminate].
Qed.

Lemma store_delete_schedule d : fails_only_at_store faulty (delete_schedule faulty d).
Proof.
  unfold delete_schedule, flush, query, update.
  apply store_try_except_reraise.
  apply store_bind; [apply store_execute | intros assignment_ids].
  apply store_bind; [apply store_execute | intros trip_ids].
  apply store_bind; [apply store_when | intros _].
  { apply store_bind; [apply store_execute | intros _]. apply store_execute. }
  apply store_bind; [apply store_when, store_execute | intros _].
  apply store_bind; [apply store_when, store_execute | intros _].
  apply store_bind; [apply store_when, store_execute | intros _].
  apply store_execute.
Qed.

(** For an eligible route the only statement is the flush: no index is out
    of range in the trip loop. *)
Lemma store_schedule_route d route route_drivers route_vehicles :
  (2 <= length route_drivers)%nat ->
  (2 <= length route_vehicles)%nat ->
  fails_only_at_store faulty (schedule_route faulty d route route_drivers route_vehicles).
Proof.
  intros Hd Hv s r s' Hrun Hs.
  destruct (eligible_pairs route_drivers route_vehicles Hd Hv)
    as (d1 & v1 & d2 & v2 & Hpairs).
  unfold schedule_route in Hrun. rewrite Hpairs in Hrun.
  destruct (add_assignments_two route d (datetime_combine d 6 0)
              (datetime_combine d 15 0) d1 v1 d2 v2 s)
    as (x1 & x2 & s1 & Hadd & _ & _ & _ & _ & _ & _ & _ & _ & _ & Htrace).
  erewrite bind_ok in Hrun by exact Hadd.
  assert (Hs1 : accepted faulty s1) by (intros n Hn; apply Hs; rewrite <- Htrace; exact Hn).
  unfold flush, update in Hrun.
  destruct (execute faulty Flush (fun db => (tt, db)) s1) as [[[] | e] s2] eqn:Hflush.
  - destruct (store_execute _ _ _ _ _ Hflush Hs1) as [Hs2 _].
    erewrite bind_ok in Hrun by exact Hflush.
    destruct (sequence_trips_timetable d route x1 x2 s2)
      as (generated & s3 & Hseq & _ & _ & Htrace3).
    rewrite Hseq in Hrun. injection Hrun as <- <-.
    split; [| discriminate].
    intros n Hn. apply Hs2. rewrite <- Htrace3. exact Hn.
  - erewrite bind_raise in Hrun by exact Hflush. injection Hrun as <- <-.
    destruct (store_execute _ _ _ _ _ Hflush Hs1) as [Hs2 He].
    split; [exact Hs2 |]. intros e0 [= <-]. exact (He e eq_refl).
Qed.

Lemma store_route_loop d all_drivers all_vehicles routes :
  forall driver_idx vehicle_idx,
    fails_only_at_store faulty
      (route_loop faulty d all_drivers all_vehicles routes driver_idx vehicle_idx).
Proof.
  induction routes as [| route rest IH]; intros driver_idx vehicle_idx;
    cbn [route_loop]; [apply store_ret |].
  destruct (_ || _) eqn:Hguard; [apply IH |].
  apply orb_false_iff in Hguard. destruct Hguard as [Hd Hv].
  apply Nat.ltb_ge in Hd, Hv.
  apply store_bind; [apply store_schedule_route; assumption | intros trips].
  apply store_bind; [apply IH | intros later]. apply store_ret.
Qed.

Lemma store_build_schedule d : fails_only_at_store faulty (build_schedule faulty d).
Proof.
  unfold build_schedule, query.
  repeat (apply store_bind; [apply store_execute | intros ?]).
  destruct (_ || _); [apply store_ret |].
  apply store_bind; [apply store_route_loop | intros generated].
  apply store_bind; [apply store_commit | intros _]. apply store_ret.
Qed.

Lemma store_generate d regenerate :
  fails_only_at_store faulty (generate_daily_schedule faulty d regenerate).
Proof.
  unfold generate_daily_schedule, query.
  apply store_bind; [apply store_execute | intros n].
  destruct (_ && _); [apply store_ret |].
  apply store_bind; [apply store_when, store_delete_schedule | intros _].
  apply store_build_schedule.
Qed.

End store_failures.

(** ** A reliable store and non-empty pools: the generation commits *)

Section reliable_generation.
Import rotation_service.

Lemma route_loop_reliable d all_drivers all_vehicles routes :
  forall driver_idx vehicle_idx s,
  exists generated s',
    route_loop reliable d all_drivers all_vehicles routes driver_idx vehicle_idx s
    = (Ok generated, s').
Proof.
  induction routes as [| route rest IH]; intros driver_idx vehicle_idx s;
    cbn [route_loop]; [eexists _, _; reflexivity |].
  destruct (_ || _) eqn:Hguard; [apply IH |].
  apply orb_false_iff in Hguard. destruct Hguard as [Hd Hv].
  apply Nat.ltb_ge in Hd, Hv.
  match goal with
  | |- context [schedule_route _ _ _ ?rd ?rv] =>
      destruct (schedule_route_eligible reliable d route rd rv s Hd Hv eq_refl)
        as (trips & s1 & Hrun & _)
  end.
  erewrite bind_ok by exact Hrun.
  match goal with
  | |- context [route_loop _ _ _ _ _ ?i ?j] =>
      destruct (IH i j s1) as (later & s2 & Hlater)
  end.
  erewrite bind_ok by exact Hlater.
  eexists _, _. reflexivity.
Qed.

Lemma build_schedule_reliable_commits d s :
  drivers_on_duty (working s) <> [] ->
  vehicles_in_service (working s) <> [] ->
  exists generated s',
    build_schedule reliable d s = (Ok generated, s')
    /\ committed s' = working s'
    /\ exists statements, trace s' = statements ++ [Commit].
Proof.
  intros Hd Hv. unfold build_schedule.
  repeat (erewrite bind_ok by apply query_reliable).
  cbn [working committed trace].
  destruct (drivers_on_duty (working s)) as [| dr drs]; [contradiction |].
  destruct (vehicles_in_service (working s)) as [| v vs]; [contradiction |].
  cbn [is_empty orb].
  match goal with
  | |- context [route_loop _ _ ?ds ?vs ?rs ?i ?j] =>
      match goal with
      | |- context [bind _ _ ?s0] =>
          destruct (route_loop_reliable d ds vs rs i j s0) as (generated & s1 & Hrun)
      end
  end.
  erewrite bind_ok by exact Hrun.
  exists generated. eexists. split; [reflexivity |]. cbn.
  split; [reflexivity |]. eexists. reflexivity.
Qed.

End reliable_generation.

(** ** Regeneration *)

(** C5. Generation with [regenerate] first counts the trips of [d] and
    then runs the cleanup: it collects the identifiers of the assignments
    and of the trips of [d], deletes the tickets and GPS records of those
    trips, then the driver exchanges of those assignments, then the trips,
    then the assignments, and flushes (a delete is sent only for a non-empty
    identifier list).  On a reliable store this prefix completes, and on any
    store, whenever it completes, the rebuild starts from the session [s1]
    so reached, in which no trip of [d], no assignment of [d], no driver
    exchange of an assignment of [d] and no ticket or GPS record of a trip
    of [d] is left. *)
Theorem regenerate_cleans_first (faulty : nat -> bool) (db : rotation_service.DB)
    (d : date) :
  let s1 :=
    {| rotation_service.committed := db;
       rotation_service.working := spec_cleanup d db;
       rotation_service.trace :=
         rotation_service.SelectCountTrips d :: spec_cleanup_statements d db |} in
  rotation_service.bind
    (rotation_service.query rotation_service.reliable
       (rotation_service.SelectCountTrips d) (rotation_service.count_trips d))
    (fun _ => rotation_service.delete_schedule rotation_service.reliable d)
    (rotation_service.new_session db)
  = (Ok tt, s1)
  /\ (forall s,
        rotation_service.bind
          (rotation_service.query faulty
             (rotation_service.SelectCountTrips d) (rotation_service.count_trips d))
          (fun _ => rotation_service.delete_schedule faulty d)
          (rotation_service.new_session db)
        = (Ok tt, s) ->
        s = s1
        /\ rotation_service.generate_daily_schedule faulty d true
             (rotation_service.new_session db)
           = rotation_service.build_schedule faulty d s1)
  /\ (forall t, In t (rotation_service.trips (rotation_service.working s1)) ->
                date_of (scheduled_start t) <> d)
  /\ (forall a, In a (rotation_service.rotation_assignments (rotation_service.working s1)) ->
                ra_shift_date a <> d)
  /\ (forall x a,
        In x (rotation_service.driver_exchanges (rotation_service.working s1)) ->
        In a (rotation_service.rotation_assignments db) ->
        ra_shift_date a = d ->
        exchange_rotation_assignment_id x <> ra_id a)
  /\ (forall k t,
        In k (rotation_service.tickets (rotation_service.working s1)) ->
        In t (rotation_service.trips db) ->
        date_of (scheduled_start t) = d ->
        ticket_trip_id k <> trip_id t)
  /\ (forall g t,
        In g (rotation_service.gps_tracking (rotation_service.working s1)) ->
        In t (rotation_service.trips db) ->
        date_of (scheduled_start t) = d ->
        gps_trip_id g <> Some (trip_id t)).
Proof.
  intros s1.
  assert (Hprefix :
            rotation_service.bind
              (rotation_service.query rotation_service.reliable
                 (rotation_service.SelectCountTrips d) (rotation_service.count_trips d))
              (fun _ => rotation_service.delete_schedule rotation_service.reliable d)
              (rotation_service.new_session db)
            = (Ok tt, s1)).
  { erewrite bind_ok by apply query_reliable.
    rewrite delete_schedule_reliable. reflexivity. }
  split; [exact Hprefix |]. split.
  - intros s Hrun.
    assert (Hs : s = s1).
    { assert (Hsame := returns_as_bind _ _ _ _
                         (returns_as_execute faulty (rotation_service.SelectCountTrips d)
                            (fun db0 => (rotation_service.count_trips d db0, db0)))
                         (fun _ => returns_as_delete_schedule faulty d) _ _ _ Hrun).
      unfold rotation_service.query in Hprefix. rewrite Hprefix in Hsame.
      injection Hsame as <-. reflexivity. }
    split; [exact Hs |]. subst s.
    unfold rotation_service.generate_daily_schedule.
    unfold rotation_service.bind at 1 in Hrun. unfold rotation_service.bind at 1.
    destruct (rotation_service.query faulty (rotation_service.SelectCountTrips d)
                (rotation_service.count_trips d) (rotation_service.new_session db))
      as [[n | e] s0]; [| discriminate Hrun].
    rewrite andb_false_r. unfold rotation_service.when.
    erewrite bind_ok by exact Hrun. reflexivity.
  - subst s1. cbn [rotation_service.working].
    split; [apply cleanup_no_trip |]. split; [apply cleanup_no_assignment |].
    split; [apply cleanup_no_exchange |]. split; [apply cleanup_no_ticket |].
    apply cleanup_no_gps.
Qed.

(** Regenerating day 0 of a database that holds days 0 and 1: the rows of
    day 1 are what the rebuild starts from. *)
Lemma regenerate_cleans_first_witness :
  spec_cleanup_statements 0 two_day_db
  = [rotation_service.SelectAssignmentIds 0; rotation_service.SelectTripIds 0;
     rotation_service.DeleteTickets [1]; rotation_service.DeleteGPSTracking [1];
     rotation_service.DeleteDriverExchanges [1];
     rotation_service.DeleteTrips [1]; rotation_service.DeleteRotationAssignments [1];
     rotation_service.Flush]
  /\ map trip_id (rotation_service.trips (spec_cleanup 0 two_day_db)) = [2]
  /\ map ra_id (rotation_service.rotation_assignments (spec_cleanup 0 two_day_db)) = [2]
  /\ map exchange_id (rotation_service.driver_exchanges (spec_cleanup 0 two_day_db)) = [2]
  /\ map ticket_id (rotation_service.tickets (spec_cleanup 0 two_day_db)) = [2]
  /\ map gps_id (rotation_service.gps_tracking (spec_cleanup 0 two_day_db)) = [2; 3]
  /\ rotation_service.generate_daily_schedule rotation_service.reliable 0 true
       (rotation_service.new_session two_day_db)
     = rotation_service.build_schedule rotation_service.reliable 0
         {| rotation_service.committed := two_day_db;
            rotation_service.working := spec_cleanup 0 two_day_db;
            rotation_service.trace :=
              rotation_service.SelectCountTrips 0
              :: spec_cleanup_statements 0 two_day_db |}.
Proof.
  repeat (split; [reflexivity |]).
  refine (proj2 (proj1 (proj2 (regenerate_cleans_first rotation_service.reliable
                                 two_day_db 0)) _ _)).
  exact (proj1 (regenerate_cleans_first rotation_service.reliable two_day_db 0)).
Defined.

Lemma regenerate_reliable_from_cleanup (db : rotation_service.DB) (d : date) :
  rotation_service.generate_daily_schedule rotation_service.reliable d true
    (rotation_service.new_session db)
  = rotation_service.build_schedule rotation_service.reliable d
      {| rotation_service.committed := db;
         rotation_service.working := spec_cleanup d db;
         rotation_service.trace :=
           rotation_service.SelectCountTrips d :: spec_cleanup_statements d db |}.
Proof.
  unfold rotation_service.generate_daily_schedule.
  erewrite bind_ok by apply query_reliable.
  rewrite andb_false_r. unfold rotation_service.when.
  erewrite bind_ok by apply delete_schedule_reliable. reflexivity.
Qed.

(** C6. A regeneration run in a fresh session on a store that may refuse any
    statement; the caller closes the session afterwards, so that the
    database is then what the session committed.  Every statement the run
    executed was accepted.  If the run raises, the error is the store's
    error for the statement it refused, it reaches the caller, and the
    database is the one before the call.  If the run returns, it is the
    complete run of a reliable store, cleanup and rebuild, and the database
    is either the one before the call or the whole view of that run's
    transaction.  With a driver and a vehicle available, the run of a
    reliable store returns and ends with the commit of that view, and so
    does every run that returns. *)
Theorem regeneration_is_atomic (faulty : nat -> bool) (db : rotation_service.DB)
    (d : date) (r : result (list Trip)) (s' : rotation_service.Session) :
  rotation_service.generate_daily_schedule faulty d true
    (rotation_service.new_session db) = (r, s') ->
  rotation_service.in_session
    (rotation_service.generate_daily_schedule faulty d true) db
  = (r, rotation_service.committed s')
  /\ accepted faulty s'
  /\ (forall e, r = Raise e ->
                rotation_service.committed s' = db
                /\ e = StoreError (length (rotation_service.trace s'))
                /\ faulty (length (rotation_service.trace s')) = true)
  /\ (forall generated, r = Ok generated ->
        rotation_service.generate_daily_schedule rotation_service.reliable d true
          (rotation_service.new_session db) = (Ok generated, s')
        /\ (rotation_service.committed s' = db
            \/ rotation_service.committed s' = rotation_service.working s'))
  /\ (rotation_service.drivers_on_duty db <> [] ->
      rotation_service.vehicles_in_service db <> [] ->
      (exists generated s statements,
          rotation_service.generate_daily_schedule rotation_service.reliable d true
            (rotation_service.new_session db) = (Ok generated, s)
          /\ rotation_service.committed s = rotation_service.working s
          /\ rotation_service.trace s = statements ++ [rotation_service.Commit])
      /\ (forall generated, r = Ok generated ->
            rotation_service.committed s' = rotation_service.working s'
            /\ exists statements,
                 rotation_service.trace s' = statements ++ [rotation_service.Commit])).
Proof.
  intros Hrun.
  destruct (all_or_nothing_generate faulty d true _ _ _ Hrun) as [Hraise Hok].
  cbn [rotation_service.new_session rotation_service.committed] in Hraise, Hok.
  assert (Hnew : accepted faulty (rotation_service.new_session db))
    by (intros n Hn; simpl in Hn; lia).
  destruct (store_generate faulty d true _ _ _ Hrun Hnew) as [Haccepted Hstore].
  split; [unfold rotation_service.in_session; rewrite Hrun; reflexivity |].
  split; [exact Haccepted |]. split; [| split].
  - intros e He. split; [exact (Hraise e He) | exact (Hstore e He)].
  - intros generated ->.
    split; [exact (returns_as_generate faulty d true _ _ _ Hrun) |].
    exact (Hok generated eq_refl).
  - intros Hd Hv. rewrite regenerate_reliable_from_cleanup.
    destruct (build_schedule_reliable_commits d
                {| rotation_service.committed := db;
                   rotation_service.working := spec_cleanup d db;
                   rotation_service.trace :=
                     rotation_service.SelectCountTrips d
                     :: spec_cleanup_statements d db |} Hd Hv)
      as (generated & s & Hbuild & Hall & statements & Htrace).
    split; [exists generated, s, statements; auto |].
    intros generated' ->.
    pose proof (returns_as_generate faulty d true _ _ _ Hrun) as Hsame.
    rewrite regenerate_reliable_from_cleanup, Hbuild in Hsame.
    injection Hsame as _ <-.
    split; [exact Hall | exists statements; exact Htrace].
Qed.

(** The store refuses statement number 6, the delete of the trips of day 0,
    after tickets, GPS records and exchanges were deleted in the session:
    the caller gets the error and the database is untouched. *)
Lemma regeneration_is_atomic_witness :
  rotation_service.in_session
    (rotation_service.generate_daily_schedule (fails_at 6) 0 true) two_day_db
  = (Raise (StoreError 6), two_day_db).
Proof.
  destruct (rotation_service.generate_daily_schedule (fails_at 6) 0 true
              (rotation_service.new_session two_day_db)) as [r s'] eqn:Hrun.
  destruct (regeneration_is_atomic (fails_at 6) two_day_db 0 r s' Hrun)
    as (Hsession & _ & Hraise & _).
  rewrite Hsession.
  assert (Hr : r = Raise (StoreError 6))
    by (vm_compute in Hrun; injection Hrun as <- _; reflexivity).
  destruct (Hraise _ Hr) as [-> _]. rewrite Hr. reflexivity.
Defined.

(** A failure during the rebuild, at the flush of the new assignments. *)
Example rebuild_failure_rolls_back :
  rotation_service.in_session
    (rotation_service.generate_daily_schedule (fails_at 12) 0 true) two_day_db
  = (Raise (StoreError 12), two_day_db).
Proof. vm_compute. reflexivity. Qed.

(** With every driver off duty the regeneration returns the empty list
    without reaching the commit: the cleanup is discarded with the session
    and the schedule of day 0 stays stored. *)
Example regenerate_empty_pool_not_committed :
  rotation_service.in_session
    (rotation_service.generate_daily_schedule rotation_service.reliable 0 true)
    off_duty_db
  = (Ok [], off_duty_db)
  /\ rotation_service.count_trips 0 off_duty_db = 1%nat.
Proof. split; vm_compute; reflexivity. Qed.

(** ** The partition of the pools *)

Section pool_partition.
Import rotation_service.

Lemma slice_length {A} (l : list A) (i k : nat) :
  length (slice l i (i + k)) = Nat.min k (length l - i).
Proof.
  unfold slice. rewrite length_firstn, length_skipn.
  replace (i + k - i)%nat with k by lia. reflexivity.
Qed.

(** The route loop is its body run over the claims of its header. *)
Lemma route_loop_schedule_claims faulty d all_drivers all_vehicles routes :
  forall driver_idx vehicle_idx s,
    route_loop faulty d all_drivers all_vehicles routes driver_idx vehicle_idx s
    = schedule_claims faulty d
        (claimed_slices all_drivers all_vehicles routes driver_idx vehicle_idx) s.
Proof.
  induction routes as [| route rest IH]; intros driver_idx vehicle_idx s;
    cbn [route_loop claimed_slices schedule_claims]; [reflexivity |].
  destruct (_ || _); [apply IH |].
  unfold bind at 1 3.
  destruct (schedule_route faulty d route _ _ s) as [[trips | e] s1]; [| reflexivity].
  unfold bind. rewrite IH. reflexivity.
Qed.

Lemma claimed_slices_routes all_drivers all_vehicles routes :
  forall driver_idx vehicle_idx,
    map (fun claim => fst (fst claim))
      (claimed_slices all_drivers all_vehicles routes driver_idx vehicle_idx)
    = routes.
Proof.
  induction routes as [| route rest IH]; intros driver_idx vehicle_idx;
    cbn [claimed_slices map fst]; [reflexivity |].
  f_equal. destruct (_ || _); apply IH.
Qed.

(** Every claim is a segment of each pool that starts at an index inside
    the pool and stops at the pool's end. *)
Lemma claimed_slices_segments all_drivers all_vehicles routes :
  forall driver_idx vehicle_idx route route_drivers route_vehicles,
    (driver_idx < length all_drivers)%nat ->
    (vehicle_idx < length all_vehicles)%nat ->
    In (route, route_drivers, route_vehicles)
      (claimed_slices all_drivers all_vehicles routes driver_idx vehicle_idx) ->
    exists i j,
      (i < length all_drivers)%nat /\ (j < length all_vehicles)%nat
      /\ route_drivers = slice all_drivers i (i + 3)
      /\ route_vehicles = slice all_vehicles j (j + 2)
      /\ length route_drivers = Nat.min 3 (length all_drivers - i)
      /\ length route_vehicles = Nat.min 2 (length all_vehicles - j).
Proof.
  induction routes as [| r rest IH];
    intros driver_idx vehicle_idx route rd rv Hi Hj Hin;
    cbn [claimed_slices] in Hin; [contradiction |].
  destruct Hin as [Heq | Hin].
  - injection Heq as _ <- <-. exists driver_idx, vehicle_idx.
    rewrite !slice_length. auto 10.
  - destruct (_ || _).
    + eapply IH; eassumption.
    + eapply IH; [| | exact Hin]; apply Nat.mod_upper_bound; lia.
Qed.

(** The trips a run of the route loop returns are the timetables of the
    claims that are not passed over, route after route. *)
Lemma schedule_claims_timetable faulty d claims :
  forall s generated s',
    schedule_claims faulty d claims s = (Ok generated, s') ->
    map entry_of generated = flat_map (spec_claim_timetable d) claims.
Proof.
  induction claims as [| [[route rd] rv] rest IH]; intros s generated s' Hrun;
    cbn [schedule_claims flat_map spec_claim_timetable] in *.
  - injection Hrun as <- _. reflexivity.
  - destruct (_ || _) eqn:Hguard; [exact (IH _ _ _ Hrun) |].
    apply orb_false_iff in Hguard. destruct Hguard as [Hd Hv].
    apply Nat.ltb_ge in Hd, Hv.
    unfold bind at 1 in Hrun.
    destruct (schedule_route faulty d route rd rv s) as [[trips | e] s1] eqn:Hroute;
      [| discriminate Hrun].
    unfold bind at 1 in Hrun.
    destruct (schedule_claims faulty d rest s1) as [[later | e] s2] eqn:Hrest;
      [| discriminate Hrun].
    injection Hrun as <- _. rewrite map_app. f_equal.
    + eapply schedule_route_ok_timetable; eassumption.
    + exact (IH _ _ _ Hrest).
Qed.

Lemma route_loop_timetable faulty d all_drivers all_vehicles routes s generated s' :
  route_loop faulty d all_drivers all_vehicles routes 0 0 s = (Ok generated, s') ->
  map entry_of generated
  = flat_map (spec_claim_timetable d)
      (claimed_slices all_drivers all_vehicles routes 0 0).
Proof.
  rewrite route_loop_schedule_claims. apply schedule_claims_timetable.
Qed.

(** Once a route is passed over, the indices stay where they are and so
    does every later claim: nothing more is generated. *)
Lemma passed_over_ends_generation faulty d all_drivers all_vehicles routes :
  forall driver_idx vehicle_idx s,
    (length (slice all_drivers driver_idx (driver_idx + 3)) <? 2)%nat
    || (length (slice all_vehicles vehicle_idx (vehicle_idx + 2)) <? 2)%nat = true ->
    route_loop faulty d all_drivers all_vehicles routes driver_idx vehicle_idx s
    = (Ok [], s).
Proof.
  induction routes as [| route rest IH]; intros driver_idx vehicle_idx s Hshort;
    cbn [route_loop]; [reflexivity |].
  rewrite Hshort. apply IH. exact Hshort.
Qed.

End pool_partition.

(** C7, as the code has it.  With both pools non-empty, the route loop is
    its body run over the claims of the routes, one claim per route and in
    the order of the routes.  Each claim is the segment of the driver pool
    from an index [i] inside the pool, of up to 3 drivers, and the segment
    of the vehicle pool from an index [j], of up to 2 vehicles; a segment
    stops at the end of its pool, so it holds [min 3 (n - i)] drivers and
    [min 2 (m - j)] vehicles.  The indices start at 0 and move to
    [(i + 3) mod n] and [(j + 2) mod m] after a route that is scheduled; a
    route whose claim has fewer than 2 drivers or fewer than 2 vehicles is
    passed over and the loop goes on with the next route. *)
Theorem route_loop_claims (faulty : nat -> bool) (d : date)
    (all_drivers : list Driver) (all_vehicles : list Vehicle) (routes : list Route)
    (s : rotation_service.Session) :
  all_drivers <> [] ->
  all_vehicles <> [] ->
  rotation_service.route_loop faulty d all_drivers all_vehicles routes 0 0 s
  = schedule_claims faulty d (claimed_slices all_drivers all_vehicles routes 0 0) s
  /\ map (fun claim => fst (fst claim)) (claimed_slices all_drivers all_vehicles routes 0 0)
     = routes
  /\ (forall route route_drivers route_vehicles,
        In (route, route_drivers, route_vehicles)
          (claimed_slices all_drivers all_vehicles routes 0 0) ->
        exists i j,
          (i < length all_drivers)%nat /\ (j < length all_vehicles)%nat
          /\ route_drivers = rotation_service.slice all_drivers i (i + 3)
          /\ route_vehicles = rotation_service.slice all_vehicles j (j + 2)
          /\ length route_drivers = Nat.min 3 (length all_drivers - i)
          /\ length route_vehicles = Nat.min 2 (length all_vehicles - j)).
Proof.
  intros Hd Hv.
  split; [apply route_loop_schedule_claims |].
  split; [apply claimed_slices_routes |].
  intros route rd rv Hin.
  eapply claimed_slices_segments; [| | exact Hin].
  - destruct all_drivers; [contradiction | simpl; lia].
  - destruct all_vehicles; [contradiction | simpl; lia].
Qed.

(** Six drivers and four vehicles: both routes get full slices. *)
Lemma route_loop_claims_witness :
  claimed_slices
    [sample_driver 1; sample_driver 2; sample_driver 3;
     sample_driver 4; sample_driver 5; sample_driver 6]
    [sample_vehicle 1; sample_vehicle 2; sample_vehicle 3; sample_vehicle 4]
    [riverside; lakeside] 0 0
  = [(riverside, [sample_driver 1; sample_driver 2; sample_driver 3],
      [sample_vehicle 1; sample_vehicle 2]);
     (lakeside, [sample_driver 4; sample_driver 5; sample_driver 6],
      [sample_vehicle 3; sample_vehicle 4])]
  /\ map (fun claim => fst (fst claim))
       (claimed_slices
          [sample_driver 1; sample_driver 2; sample_driver 3;
           sample_driver 4; sample_driver 5; sample_driver 6]
          [sample_vehicle 1; sample_vehicle 2; sample_vehicle 3; sample_vehicle 4]
          [riverside; lakeside] 0 0)
     = [riverside; lakeside].
Proof.
  split; [reflexivity |].
  refine (proj1 (proj2 (route_loop_claims rotation_service.reliable 0
                          [sample_driver 1; sample_driver 2; sample_driver 3;
                           sample_driver 4; sample_driver 5; sample_driver 6]
                          [sample_vehicle 1; sample_vehicle 2;
                           sample_vehicle 3; sample_vehicle 4]
                          [riverside; lakeside]
                          (rotation_service.new_session sample_db) _ _)));
    discriminate.
Defined.

(** C7 as stated fails with four drivers and two vehicles: the pools hold at
    least 3 drivers and 2 vehicles, yet the second route claims the single
    driver left before the end of the pool, is passed over, and gets neither
    assignments nor trips. *)
Lemma claimed_slice_counterexample :
  (3 <= length (rotation_service.drivers_on_duty sample_db))%nat
  /\ (2 <= length (rotation_service.vehicles_in_service sample_db))%nat
  /\ claimed_slices (rotation_service.drivers_on_duty sample_db)
       (rotation_service.vehicles_in_service sample_db)
       (rotation_service.active_routes sample_db) 0 0
     = [(riverside, [sample_driver 1; sample_driver 2; sample_driver 3],
         [sample_vehicle 1; sample_vehicle 2]);
        (lakeside, [sample_driver 4], [sample_vehicle 1; sample_vehicle 2])]
  /\ ~ (forall route route_drivers route_vehicles,
          In (route, route_drivers, route_vehicles)
            (claimed_slices (rotation_service.drivers_on_duty sample_db)
               (rotation_service.vehicles_in_service sample_db)
               (rotation_service.active_routes sample_db) 0 0) ->
          length route_drivers = 3%nat /\ length route_vehicles = 2%nat)
  /\ match rotation_service.in_session
            (rotation_service.generate_daily_schedule rotation_service.reliable 0 false)
            sample_db with
     | (Ok generated, db') =>
         map trip_route_id generated = repeat 1 16
         /\ map ra_route_id (rotation_service.rotation_assignments db') = [1; 1]
     | _ => False
     end.
Proof.
  split; [simpl; lia |]. split; [simpl; lia |]. split; [reflexivity |]. split.
  - intros Hall.
    destruct (Hall lakeside [sample_driver 4] [sample_vehicle 1; sample_vehicle 2])
      as [Hthree _]; [simpl; auto | discriminate Hthree].
  - vm_compute. split; reflexivity.
Qed.


(** * Further properties *)

(** ** The rows a scheduled route adds *)

Section route_rows.
Import rotation_service.

Lemma number_from_app {A} next (p q : list (Z -> A)) :
  number_from next (p ++ q)
  = number_from next p ++ number_from (next + Z.of_nat (length p)) q.
Proof.
  revert next. induction p as [| make p IH]; intros next; cbn [number_from app length].
  - f_equal. lia.
  - rewrite IH. do 3 f_equal. lia.
Qed.

Lemma number_from_length {A} next (p : list (Z -> A)) :
  length (number_from next p) = length p.
Proof. revert next. induction p; intros; simpl; auto. Qed.

Lemma set_trips_set_trips db l1 n1 l2 n2 :
  set_trips (set_trips db l1 n1) l2 n2 = set_trips db l2 n2.
Proof. reflexivity. Qed.

(** The trip loop adds the trips of its plan, numbered from the counter of
    the table, and sends nothing to the store. *)
Lemma trip_loop_plan route a1 a2 end_time fuel :
  forall current_dt toggle s,
    (toggle <= 1)%nat ->
    end_time - current_dt <= Z.of_nat fuel ->
    let generated :=
      number_from (next_trip_id (working s))
        (trip_plan route a1 a2 end_time (spec_cycle_times current_dt end_time) toggle) in
    trip_loop fuel route [a1; a2] end_time current_dt toggle s
    = (Ok generated,
       {| committed := committed s;
          working := set_trips (working s) (trips (working s) ++ generated)
                       (next_trip_id (working s) + Z.of_nat (length generated));
          trace := trace s |}).
Proof.
  induction fuel as [| fuel IH]; intros current_dt toggle s Htoggle Hfuel generated;
    subst generated.
  - rewrite spec_cycle_times_done by lia. cbn [trip_loop trip_plan number_from length].
    unfold ret. rewrite app_nil_r, Z.add_0_r.
    destruct s as [c w t]; destruct w; reflexivity.
  - cbn [trip_loop].
    destruct (Z.ltb_spec current_dt end_time) as [Hlt | Hge].
    + rewrite spec_cycle_times_step by exact Hlt. cbn [trip_plan].
      assert (Hget : nth_error [a1; a2] toggle
                     = Some (if Nat.eqb toggle 0 then a1 else a2)).
      { destruct toggle as [| [| n]]; simpl; [reflexivity | reflexivity | lia]. }
      rewrite Hget. clear Hget.
      set (active := if Nat.eqb toggle 0 then a1 else a2).
      unfold bind at 1. unfold add_trip at 1.
      destruct (current_dt + (estimated_time_minutes route
                              + turnaround_time_minutes route) <? end_time).
      * unfold bind at 1. unfold bind at 1. unfold add_trip at 1. unfold ret at 1.
        unfold bind at 1. rewrite IH by lia. unfold ret.
        cbn [working committed trace set_trips trips next_trip_id app number_from length].
        f_equal. f_equal. rewrite !set_trips_set_trips, <- !app_assoc. cbn [app].
        f_equal. lia.
      * unfold bind at 1. unfold ret at 1.
        unfold bind at 1. rewrite IH by lia. unfold ret.
        cbn [working committed trace set_trips trips next_trip_id app number_from length].
        f_equal. f_equal. rewrite !set_trips_set_trips, <- !app_assoc. cbn [app].
        f_equal. lia.
    + rewrite spec_cycle_times_done by lia. cbn [trip_plan number_from length].
      unfold ret. rewrite app_nil_r, Z.add_0_r.
      destruct s as [c w t]; destruct w; reflexivity.
Qed.

End route_rows.

Section scheduled_route.
Import rotation_service.

Lemma add_assignments_rows route d d1 v1 d2 v2 s :
  add_assignments route d (datetime_combine d 6 0) (datetime_combine d 15 0) 0
    [(d1, v1); (d2, v2)] s
  = (Ok [fst (route_assignments d route d1 v1 d2 v2 (working s));
         snd (route_assignments d route d1 v1 d2 v2 (working s))],
     {| committed := committed s;
        working :=
          set_rotation_assignments (working s)
            (rotation_assignments (working s)
             ++ [fst (route_assignments d route d1 v1 d2 v2 (working s));
                 snd (route_assignments d route d1 v1 d2 v2 (working s))])
            (next_assignment_id (working s) + 2);
        trace := trace s |}).
Proof.
  cbn [add_assignments]. unfold bind, add_assignment, ret.
  cbn [working committed trace next_assignment_id set_rotation_assignments
       rotation_assignments route_assignments fst snd].
  unfold set_rotation_assignments.
  cbn [routes drivers vehicles rotation_assignments trips tickets gps_tracking
       driver_exchanges next_assignment_id next_trip_id].
  rewrite <- app_assoc. cbn [app].
  replace (next_assignment_id (working s) + 1 + 1)
    with (next_assignment_id (working s) + 2) by lia.
  reflexivity.
Qed.

(** Scheduling a route whose slice starts with the drivers [d1], [d2] and
    the vehicles [v1], [v2], when the store accepts the flush: the trips
    returned and the session reached. *)
Lemma schedule_route_rows faulty d route d1 d2 more_drivers v1 v2 more_vehicles s :
  faulty (length (trace s)) = false ->
  schedule_route faulty d route (d1 :: d2 :: more_drivers) (v1 :: v2 :: more_vehicles) s
  = (Ok (route_trips d route d1 v1 d2 v2 (working s)),
     {| committed := committed s;
        working := with_route d route d1 v1 d2 v2 (working s);
        trace := trace s ++ [Flush] |}).
Proof.
  intros Hflush. unfold schedule_route.
  cbn [firstn combine].
  erewrite bind_ok by apply add_assignments_rows.
  unfold flush, update.
  erewrite bind_ok by (apply execute_ok; exact Hflush).
  unfold sequence_trips.
  rewrite trip_loop_plan by (unfold datetime_combine, minutes_per_day; lia).
  rewrite morning_cycle_times.
  reflexivity.
Qed.

Lemma slice_starts {A} (l : list A) :
  (2 <= length l)%nat -> exists x y rest, l = x :: y :: rest.
Proof.
  destruct l as [| x [| y rest]]; simpl; intros H; try lia. eauto.
Qed.

(** Whenever the scheduling of an eligible route returns, the flush was
    accepted and the rows are those above. *)
Lemma schedule_route_returns faulty d route route_drivers route_vehicles s generated s' :
  (2 <= length route_drivers)%nat ->
  (2 <= length route_vehicles)%nat ->
  schedule_route faulty d route route_drivers route_vehicles s = (Ok generated, s') ->
  exists d1 d2 more_drivers v1 v2 more_vehicles,
    route_drivers = d1 :: d2 :: more_drivers
    /\ route_vehicles = v1 :: v2 :: more_vehicles
    /\ generated = route_trips d route d1 v1 d2 v2 (working s)
    /\ s' = {| committed := committed s;
               working := with_route d route d1 v1 d2 v2 (working s);
               trace := trace s ++ [Flush] |}.
Proof.
  intros Hd Hv Hrun.
  destruct (slice_starts route_drivers Hd) as (d1 & d2 & rd & ->).
  destruct (slice_starts route_vehicles Hv) as (v1 & v2 & rv & ->).
  exists d1, d2, rd, v1, v2, rv. split; [reflexivity |]. split; [reflexivity |].
  destruct (faulty (length (trace s))) eqn:Hflush.
  - exfalso. revert Hrun. unfold schedule_route.
    cbn [firstn combine].
    erewrite bind_ok by apply add_assignments_rows.
    unfold flush, update.
    erewrite bind_raise by (apply execute_fault; exact Hflush). discriminate.
  - rewrite schedule_route_rows in Hrun by exact Hflush.
    injection Hrun as <- <-. split; reflexivity.
Qed.

End scheduled_route.

(** ** What generation adds to the database *)

Section generated_rows.
Import rotation_service.

Lemma extended_by_refl db : extended_by db db [] [].
Proof.
  unfold extended_by. rewrite !app_nil_r. cbn [length Z.of_nat].
  rewrite !Z.add_0_r. repeat split.
Qed.

Lemma extended_by_trans db db1 db2 added1 generated1 added2 generated2 :
  extended_by db db1 added1 generated1 ->
  extended_by db1 db2 added2 generated2 ->
  extended_by db db2 (added1 ++ added2) (generated1 ++ generated2).
Proof.
  unfold extended_by.
  intros (H1 & H2 & H3 & H4 & H5 & H6 & H7 & H8 & H9 & H10)
         (K1 & K2 & K3 & K4 & K5 & K6 & K7 & K8 & K9 & K10).
  rewrite K1, K2, K3, K4, K5, K6, K7, K8, K9, K10.
  rewrite H1, H2, H3, H4, H5, H6, H7, H8, H9, H10.
  rewrite !length_app, !Nat2Z.inj_add, !app_assoc.
  repeat split; lia.
Qed.

(** Nothing added: the database is the same. *)
Lemma extended_by_nothing db db' : extended_by db db' [] [] -> db' = db.
Proof.
  unfold extended_by. rewrite !app_nil_r. cbn [length Z.of_nat]. rewrite !Z.add_0_r.
  destruct db, db'. cbn.
  intros (-> & -> & -> & -> & -> & -> & -> & -> & -> & ->). reflexivity.
Qed.

Lemma date_of_morning d h :
  0 <= h < 24 -> date_of (datetime_combine d h 0) = d.
Proof.
  intros Hh. unfold date_of, datetime_combine, minutes_per_day.
  replace (d * 1440 + h * 60 + 0) with (h * 60 + d * 1440) by lia.
  rewrite Z.div_add by lia. rewrite Z.div_small by lia. lia.
Qed.

Lemma morning_cycles_before d c :
  In c (morning_cycles d) ->
  datetime_combine d 6 0 <= c < datetime_combine d 14 0 /\ date_of c = d.
Proof.
  unfold morning_cycles. cbn [map In].
  intros H.
  repeat (destruct H as [<- | H];
          [split; [unfold datetime_combine, minutes_per_day; lia
                  | apply date_of_morning; lia] |]).
  contradiction.
Qed.

(** Every trip of a plan is built by [make_trip] for one of the two
    assignments, as the outbound of a cycle or as an inbound due before the
    bound. *)
Lemma trip_plan_Forall (P : Trip -> Prop) route a1 a2 end_time cycles :
  (forall active dir suffix start id,
      active = a1 \/ active = a2 ->
      (dir = OUTBOUND /\ In start cycles)
      \/ (dir = INBOUND /\ start < end_time
          /\ exists cycle,
               In cycle cycles
               /\ start = cycle + estimated_time_minutes route
                          + turnaround_time_minutes route) ->
      P (make_trip route active dir suffix start id)) ->
  forall toggle next,
    Forall P (number_from next (trip_plan route a1 a2 end_time cycles toggle)).
Proof.
  intros HP.
  assert (Hgen : forall cs, incl cs cycles -> forall toggle next,
               Forall P (number_from next (trip_plan route a1 a2 end_time cs toggle))).
  { induction cs as [| c cs IH]; intros Hincl toggle next;
      cbn [trip_plan number_from]; [constructor |].
    assert (Hc : In c cycles) by (apply Hincl; left; reflexivity).
    assert (Hcs : incl cs cycles) by (intros x Hx; apply Hincl; right; exact Hx).
    assert (Hactive : (if Nat.eqb toggle 0 then a1 else a2) = a1
                      \/ (if Nat.eqb toggle 0 then a1 else a2) = a2)
      by (destruct (Nat.eqb toggle 0); auto).
    constructor; [apply HP; auto |].
    destruct (Z.ltb_spec (c + (estimated_time_minutes route
                               + turnaround_time_minutes route)) end_time).
    - cbn [app number_from]. constructor; [| apply IH; exact Hcs].
      apply HP; [exact Hactive |]. right. split; [reflexivity |].
      split; [assumption |]. exists c. split; [exact Hc | lia].
    - cbn [app]. apply IH. exact Hcs. }
  intros toggle next. apply Hgen. apply incl_refl.
Qed.

End generated_rows.

Section route_rows_properties.
Import rotation_service.

Lemma In_slice {A} (x : A) (l : list A) (lo hi : nat) :
  In x (slice l lo hi) -> In x l.
Proof.
  unfold slice. intros H.
  rewrite <- (firstn_skipn lo l). apply in_or_app. right.
  rewrite <- (firstn_skipn (hi - lo) (skipn lo l)). apply in_or_app. left. exact H.
Qed.

Lemma with_route_extended d route d1 v1 d2 v2 db :
  extended_by db (with_route d route d1 v1 d2 v2 db)
    [fst (route_assignments d route d1 v1 d2 v2 db);
     snd (route_assignments d route d1 v1 d2 v2 db)]
    (route_trips d route d1 v1 d2 v2 db).
Proof. unfold extended_by. cbn. repeat split. Qed.

Lemma route_assignments_morning d route d1 v1 d2 v2 db :
  let x1 := fst (route_assignments d route d1 v1 d2 v2 db) in
  let x2 := snd (route_assignments d route d1 v1 d2 v2 db) in
  morning_assignment d x1 /\ morning_assignment d x2
  /\ ra_position x1 = DRIVER_1 /\ ra_position x2 = DRIVER_2
  /\ ra_route_id x1 = route_id route /\ ra_route_id x2 = route_id route
  /\ ra_driver_id x1 = driver_id d1 /\ ra_vehicle_id x1 = vehicle_id v1
  /\ ra_driver_id x2 = driver_id d2 /\ ra_vehicle_id x2 = vehicle_id v2
  /\ ra_id x1 = next_assignment_id db /\ ra_id x2 = next_assignment_id db + 1.
Proof. unfold morning_assignment. cbn. repeat split; auto. Qed.

Lemma route_trips_bound d route d1 v1 d2 v2 db :
  Forall (fun t => bound_to (fst (route_assignments d route d1 v1 d2 v2 db)) t
                   \/ bound_to (snd (route_assignments d route d1 v1 d2 v2 db)) t)
    (route_trips d route d1 v1 d2 v2 db).
Proof.
  unfold route_trips.
  destruct (route_assignments d route d1 v1 d2 v2 db) as [x1 x2] eqn:E.
  pose proof (f_equal (fun p => ra_route_id (fst p)) E) as R1.
  pose proof (f_equal (fun p => ra_route_id (snd p)) E) as R2.
  cbn in R1, R2.
  apply trip_plan_Forall.
  intros active dir suffix start id [-> | ->] _; [left | right];
    unfold bound_to; cbn; auto.
Qed.

Lemma route_trips_well_scheduled d routes all_drivers all_vehicles route d1 v1 d2 v2 db :
  In route routes ->
  In d1 all_drivers -> In d2 all_drivers ->
  In v1 all_vehicles -> In v2 all_vehicles ->
  Forall (well_scheduled d routes all_drivers all_vehicles)
    (route_trips d route d1 v1 d2 v2 db).
Proof.
  intros Hroute Hd1 Hd2 Hv1 Hv2. unfold route_trips.
  destruct (route_assignments d route d1 v1 d2 v2 db) as [x1 x2] eqn:E.
  injection E as <- <-.
  apply trip_plan_Forall.
  intros active dir suffix start id Hactive Hkind.
  unfold well_scheduled. cbn [make_trip trip_status trip_route_id scheduled_start
                              scheduled_end direction trip_driver_id trip_vehicle_id].
  split; [reflexivity |]. split; [| split; [| split; [| split]]].
  - exists route. split; [exact Hroute |]. split; [reflexivity |].
    split; [reflexivity |].
    intros Hdir. destruct Hkind as [[Hout _] | (_ & _ & cycle & Hc & Hstart)];
      [congruence |]. exists cycle. auto.
  - destruct Hkind as [[_ Hin] | (_ & Hlt & _)]; [| exact Hlt].
    apply morning_cycles_before in Hin. lia.
  - intros Hdir. destruct Hkind as [[_ Hin] | (Hinb & _)]; [exact Hin | congruence].
  - destruct Hactive as [-> | ->]; cbn; eauto.
  - destruct Hactive as [-> | ->]; cbn; eauto.
Qed.

(** The first trip of a scheduled route is the 06:00 outbound. *)
Lemma route_trips_first d route d1 v1 d2 v2 db :
  exists first rest,
    route_trips d route d1 v1 d2 v2 db = first :: rest
    /\ scheduled_start first = datetime_combine d 6 0
    /\ direction first = OUTBOUND.
Proof.
  unfold route_trips, morning_cycles.
  destruct (route_assignments d route d1 v1 d2 v2 db) as [x1 x2].
  cbn [map trip_plan number_from]. eexists _, _. split; [reflexivity |].
  split; reflexivity.
Qed.

End route_rows_properties.

Section route_loop_rows.
Import rotation_service.

(** What a run of the route loop that returns has done to the session. *)
Lemma route_loop_rows faulty d all_drivers all_vehicles all_routes routes :
  incl routes all_routes ->
  forall driver_idx vehicle_idx s generated s',
    route_loop faulty d all_drivers all_vehicles routes driver_idx vehicle_idx s
    = (Ok generated, s') ->
    committed s' = committed s
    /\ exists added,
         extended_by (working s) (working s') added generated
         /\ Forall (morning_assignment d) added
         /\ Forall (well_scheduled d all_routes all_drivers all_vehicles) generated
         /\ Forall (fun t => exists a, In a added /\ bound_to a t) generated
         /\ (generated = [] -> added = [])
         /\ (generated <> [] ->
             exists t, In t generated /\ scheduled_start t = datetime_combine d 6 0).
Proof.
  induction routes as [| route rest IH]; intros Hincl driver_idx vehicle_idx s generated s';
    cbn [route_loop].
  - intros [= <- <-]. split; [reflexivity |]. exists [].
    split; [apply extended_by_refl |]. repeat split; auto. congruence.
  - assert (Hroute : In route all_routes) by (apply Hincl; left; reflexivity).
    assert (Hrest : incl rest all_routes) by (intros x Hx; apply Hincl; right; exact Hx).
    destruct (_ || _) eqn:Hguard; [apply IH; exact Hrest |].
    apply orb_false_iff in Hguard. destruct Hguard as [Hd Hv].
    apply Nat.ltb_ge in Hd, Hv.
    unfold bind at 1.
    destruct (schedule_route faulty d route _ _ s) as [[trips | e] s1] eqn:Hsched;
      [| discriminate].
    unfold bind at 1.
    destruct (route_loop faulty d all_drivers all_vehicles rest _ _ s1)
      as [[later | e] s2] eqn:Hlater; [| discriminate].
    unfold ret. intros [= <- <-].
    destruct (schedule_route_returns _ _ _ _ _ _ _ _ Hd Hv Hsched)
      as (d1 & d2 & rd & v1 & v2 & rv & Hrd & Hrv & -> & ->).
    destruct (IH Hrest _ _ _ _ _ Hlater)
      as (Hcommitted & added & Hext & Hmorning & Hwell & Hbound & _ & _).
    cbn [committed working] in Hcommitted, Hext.
    split; [exact Hcommitted |].
    assert (Hd1 : In d1 all_drivers)
      by (eapply In_slice; rewrite Hrd; left; reflexivity).
    assert (Hd2 : In d2 all_drivers)
      by (eapply In_slice; rewrite Hrd; right; left; reflexivity).
    assert (Hv1 : In v1 all_vehicles)
      by (eapply In_slice; rewrite Hrv; left; reflexivity).
    assert (Hv2 : In v2 all_vehicles)
      by (eapply In_slice; rewrite Hrv; right; left; reflexivity).
    exists ([fst (route_assignments d route d1 v1 d2 v2 (working s));
             snd (route_assignments d route d1 v1 d2 v2 (working s))] ++ added).
    split; [eapply extended_by_trans; [apply with_route_extended | exact Hext] |].
    destruct (route_assignments_morning d route d1 v1 d2 v2 (working s))
      as (Hm1 & Hm2 & _).
    destruct (route_trips_first d route d1 v1 d2 v2 (working s))
      as (first & others & Hfirst & Hstart & _).
    split; [| split; [| split; [| split]]].
    + apply Forall_app. split; [repeat constructor; assumption | exact Hmorning].
    + apply Forall_app. split; [| exact Hwell].
      apply route_trips_well_scheduled; assumption.
    + apply Forall_app. split.
      * eapply Forall_impl; [| apply route_trips_bound].
        intros t [Hb | Hb]; eexists; (split; [| exact Hb]); simpl; auto.
      * eapply Forall_impl; [| exact Hbound].
        intros t (a & Ha & Hb). exists a. split; [| exact Hb].
        apply in_or_app. right. exact Ha.
    + rewrite Hfirst. discriminate.
    + intros _. exists first. split; [rewrite Hfirst; left; reflexivity | exact Hstart].
Qed.

End route_loop_rows.

(** ** What a generation that returns has done *)

Section generation_outcome.
Import rotation_service.

Lemma execute_returns {A} faulty stmt (run : DB -> A * DB) s a s' :
  execute faulty stmt run s = (Ok a, s') ->
  faulty (length (trace s)) = false
  /\ a = fst (run (working s))
  /\ s' = {| committed := committed s; working := snd (run (working s));
             trace := trace s ++ [stmt] |}.
Proof.
  unfold execute. destruct (faulty (length (trace s))); [discriminate |].
  destruct (run (working s)) as [a0 db']. intros [= <- <-]. auto.
Qed.

Lemma commit_returns faulty s u s' :
  commit faulty s = (Ok u, s') ->
  s' = {| committed := working s; working := working s; trace := trace s ++ [Commit] |}.
Proof.
  unfold commit. destruct (faulty (length (trace s))); [discriminate |].
  intros [= _ <-]. reflexivity.
Qed.

(** The pools and the routes are read after the cleanup, which leaves the
    three tables alone. *)
Lemma cleanup_keeps_pools d db :
  active_routes (spec_cleanup d db) = active_routes db
  /\ drivers_on_duty (spec_cleanup d db) = drivers_on_duty db
  /\ vehicles_in_service (spec_cleanup d db) = vehicles_in_service db.
Proof. repeat split. Qed.

(** The second half of the generator, from a session whose view is [base]:
    either it returns the empty list without a commit, or it commits the
    view extended by what the route loop added. *)
Lemma build_schedule_outcome faulty d s generated s' :
  build_schedule faulty d s = (Ok generated, s') ->
  (generated = [] /\ committed s' = committed s
   /\ (drivers_on_duty (working s) = [] \/ vehicles_in_service (working s) = []))
  \/ (drivers_on_duty (working s) <> [] /\ vehicles_in_service (working s) <> []
      /\ exists s_loop,
           route_loop faulty d (drivers_on_duty (working s))
             (vehicles_in_service (working s)) (active_routes (working s)) 0 0
             {| committed := committed s; working := working s;
                trace := trace s ++ [SelectActiveRoutes; SelectDrivers; SelectVehicles] |}
           = (Ok generated, s_loop)
           /\ s' = {| committed := working s_loop; working := working s_loop;
                      trace := trace s_loop ++ [Commit] |}).
Proof.
  unfold build_schedule, query.
  unfold bind at 1.
  destruct (execute faulty SelectActiveRoutes _ s) as [[routes | e] s1] eqn:H1;
    [| discriminate].
  apply execute_returns in H1. destruct H1 as (_ & -> & ->). cbn [fst snd].
  unfold bind at 1.
  destruct (execute faulty SelectDrivers _ _) as [[all_drivers | e] s2] eqn:H2;
    [| discriminate].
  apply execute_returns in H2. destruct H2 as (_ & -> & ->). cbn [fst snd working].
  unfold bind at 1.
  destruct (execute faulty SelectVehicles _ _) as [[all_vehicles | e] s3] eqn:H3;
    [| discriminate].
  apply execute_returns in H3. destruct H3 as (_ & -> & ->).
  cbn [fst snd working committed trace].
  destruct (drivers_on_duty (working s)) as [| dr drs] eqn:Hdrivers.
  { cbn [is_empty orb]. unfold ret. intros [= <- <-]. left. auto. }
  destruct (vehicles_in_service (working s)) as [| v vs] eqn:Hvehicles.
  { cbn [is_empty orb]. unfold ret. intros [= <- <-]. left. auto. }
  cbn [is_empty orb]. right.
  split; [discriminate |]. split; [discriminate |].
  revert H. unfold bind at 1.
  destruct (route_loop faulty d _ _ _ 0%nat 0%nat _) as [[trips | e] s4] eqn:Hloop;
    [| discriminate].
  unfold bind at 1.
  destruct (commit faulty s4) as [[u | e] s5] eqn:Hcommit; [| discriminate].
  unfold ret. intros [= <- <-].
  apply commit_returns in Hcommit. subst s5.
  exists s4. split; [| reflexivity].
  rewrite <- !app_assoc in Hloop. cbn [app] in Hloop. exact Hloop.
Qed.

End generation_outcome.

Section generation_outcome_whole.
Import rotation_service.

(** A generation that returns either returns the empty list and leaves the
    committed database as it was, or has committed its whole view: the
    base, extended by two morning assignments per scheduled route and by the
    trips of the timetables of the claims. *)
Lemma generate_outcome faulty d regenerate db generated s' :
  generate_daily_schedule faulty d regenerate (new_session db) = (Ok generated, s') ->
  (generated = [] /\ committed s' = db)
  \/ (drivers_on_duty db <> [] /\ vehicles_in_service db <> []
      /\ (regenerate = true \/ count_trips d db = 0%nat)
      /\ committed s' = working s'
      /\ map entry_of generated
         = flat_map (spec_claim_timetable d)
             (claimed_slices (drivers_on_duty db) (vehicles_in_service db)
                (active_routes db) 0 0)
      /\ exists added,
           extended_by (generation_base regenerate d db) (committed s') added generated
           /\ Forall (morning_assignment d) added
           /\ Forall (well_scheduled d (active_routes db) (drivers_on_duty db)
                        (vehicles_in_service db)) generated
           /\ Forall (fun t => exists a, In a added /\ bound_to a t) generated
           /\ (generated = [] -> added = [])
           /\ (generated <> [] ->
               exists t, In t generated
                         /\ scheduled_start t = datetime_combine d 6 0)).
Proof.
  unfold generate_daily_schedule, query. unfold bind at 1.
  destruct (execute faulty (SelectCountTrips d) _ (new_session db))
    as [[n | e] s0] eqn:Hcount; [| discriminate].
  apply execute_returns in Hcount. destruct Hcount as (_ & -> & ->).
  cbn [fst snd new_session working committed trace app].
  destruct ((0 <? count_trips d db)%nat && negb regenerate) eqn:Hexisting.
  { unfold ret. intros [= <- <-]. left. auto. }
  unfold bind at 1.
  destruct (when regenerate (delete_schedule faulty d) _) as [[[] | e] s1] eqn:Hclean;
    [| discriminate].
  assert (Hs1 : committed s1 = db /\ working s1 = generation_base regenerate d db
                /\ (regenerate = true \/ count_trips d db = 0%nat)).
  { destruct regenerate; cbn [when generation_base] in *.
    - apply returns_as_delete_schedule in Hclean.
      rewrite delete_schedule_reliable in Hclean. injection Hclean as <-. auto.
    - unfold ret in Hclean. injection Hclean as <-. cbn.
      rewrite andb_true_r in Hexisting. apply Nat.ltb_ge in Hexisting.
      split; [reflexivity |]. split; [reflexivity |]. right. lia. }
  destruct Hs1 as (Hc1 & Hw1 & Hmode).
  assert (Hpools : active_routes (working s1) = active_routes db
                   /\ drivers_on_duty (working s1) = drivers_on_duty db
                   /\ vehicles_in_service (working s1) = vehicles_in_service db).
  { rewrite Hw1. destruct regenerate; cbn [generation_base];
      [apply cleanup_keeps_pools | auto]. }
  destruct Hpools as (Hroutes & Hdrivers & Hvehicles).
  intros Hbuild. apply build_schedule_outcome in Hbuild.
  rewrite Hroutes, Hdrivers, Hvehicles, Hc1 in Hbuild.
  destruct Hbuild as [(-> & Hc & _) | (Hd & Hv & s_loop & Hloop & ->)].
  { left. auto. }
  right. cbn [committed working].
  split; [exact Hd |]. split; [exact Hv |]. split; [exact Hmode |].
  split; [reflexivity |].
  split; [exact (route_loop_timetable _ _ _ _ _ _ _ _ Hloop) |].
  destruct (route_loop_rows faulty d _ _ (active_routes db) (active_routes db)
              (incl_refl _) _ _ _ _ _ Hloop) as (_ & added & Hrows).
  cbn [working] in Hrows. rewrite Hw1 in Hrows.
  exists added. exact Hrows.
Qed.

End generation_outcome_whole.

(** ** Calling the generator again *)

Section generate_again.
Import rotation_service.

Lemma generate_skips_existing faulty d db :
  faulty 0%nat = false ->
  (0 < count_trips d db)%nat ->
  generate_daily_schedule faulty d false (new_session db)
  = (Ok [], {| committed := db; working := db; trace := [SelectCountTrips d] |}).
Proof.
  intros Hfault Hcount.
  unfold generate_daily_schedule, query.
  erewrite bind_ok by (apply execute_ok; exact Hfault).
  cbn [fst snd new_session working committed trace app].
  apply Nat.ltb_lt in Hcount. rewrite Hcount. reflexivity.
Qed.

(** On a store that executes every statement the generator returns. *)
Lemma generate_reliable_returns d regenerate db :
  exists generated s',
    generate_daily_schedule reliable d regenerate (new_session db) = (Ok generated, s').
Proof.
  unfold generate_daily_schedule.
  erewrite bind_ok by apply query_reliable.
  destruct (_ && _); [eexists _, _; reflexivity |].
  assert (Hclean : exists s1,
             when regenerate (delete_schedule reliable d)
               {| committed := committed (new_session db);
                  working := working (new_session db);
                  trace := trace (new_session db) ++ [SelectCountTrips d] |}
             = (Ok tt, s1)).
  { destruct regenerate; cbn [when].
    - rewrite delete_schedule_reliable. eexists. reflexivity.
    - eexists. reflexivity. }
  destruct Hclean as [s1 Hclean]. erewrite bind_ok by exact Hclean.
  unfold build_schedule.
  repeat (erewrite bind_ok by apply query_reliable).
  destruct (_ || _); [eexists _, _; reflexivity |].
  match goal with
  | |- context [bind (route_loop _ _ ?ds ?vs ?rs ?i ?j) _ ?s0] =>
      destruct (route_loop_reliable d ds vs rs i j s0) as (generated & s2 & Hloop)
  end.
  erewrite bind_ok by exact Hloop.
  eexists _, _. reflexivity.
Qed.

Lemma count_trips_extended d db db' added generated t :
  extended_by db db' added generated ->
  In t generated ->
  scheduled_start t = datetime_combine d 6 0 ->
  (0 < count_trips d db')%nat.
Proof.
  intros Hext Hin Hstart.
  apply (count_trips_pos d db' t).
  - destruct Hext as (_ & _ & _ & _ & _ & _ & _ & Htrips & _).
    rewrite Htrips. apply in_or_app. right. exact Hin.
  - rewrite Hstart. apply date_of_morning. lia.
Qed.

Lemma generation_found_later faulty faulty' d regenerate db generated s' :
  generate_daily_schedule faulty d regenerate (new_session db) = (Ok generated, s') ->
  generated <> [] ->
  faulty' 0%nat = false ->
  in_session (generate_daily_schedule faulty' d false) (committed s')
  = (Ok [], committed s').
Proof.
  intros Hrun Hsome Hfault.
  destruct (generate_outcome _ _ _ _ _ _ Hrun)
    as [[Hnone _] | (_ & _ & _ & _ & _ & added & Hext & _ & _ & _ & _ & Hfirst)];
    [contradiction |].
  destruct (Hfirst Hsome) as (t & Hin & Hstart).
  unfold in_session.
  rewrite generate_skips_existing;
    [reflexivity | exact Hfault | eapply count_trips_extended; eassumption].
Qed.

(** X1. Once a generation has returned trips, a later call without
    [regenerate] finds them: it returns the empty list and leaves the
    database as the first call committed it, whatever the two stores refuse
    after the first statement of the second call. *)
Theorem later_generation_is_noop (faulty faulty' : nat -> bool) (d : date)
    (regenerate : bool) (db : DB) (generated : list Trip) (s' : Session) :
  generate_daily_schedule faulty d regenerate (new_session db) = (Ok generated, s') ->
  generated <> [] ->
  faulty' 0%nat = false ->
  in_session (generate_daily_schedule faulty' d false) (committed s')
  = (Ok [], committed s').
Proof.
  intros Hrun Hsome Hfault.
  destruct (generate_outcome _ _ _ _ _ _ Hrun)
    as [[Hnone _] | (_ & _ & _ & _ & _ & added & Hext & _ & _ & _ & _ & Hfirst)];
    [contradiction |].
  destruct (Hfirst Hsome) as (t & Hin & Hstart).
  unfold in_session.
  rewrite generate_skips_existing;
    [reflexivity | exact Hfault | eapply count_trips_extended; eassumption].
Qed.

Lemma later_generation_is_noop_witness :
  match generate_daily_schedule reliable 100 false (new_session sample_db) with
  | (Ok generated, s') =>
      generated <> []
      /\ in_session (generate_daily_schedule reliable 100 false) (committed s')
         = (Ok [], committed s')
  | _ => False
  end.
Proof.
  destruct (generate_daily_schedule reliable 100 false (new_session sample_db))
    as [[generated | e] s'] eqn:Hrun.
  - assert (Hsome : generated <> [])
      by (intros ->; vm_compute in Hrun; discriminate Hrun).
    split; [exact Hsome |].
    exact (later_generation_is_noop reliable reliable 100 false sample_db
             generated s' Hrun Hsome eq_refl).
  - vm_compute in Hrun. discriminate Hrun.
Defined.

Lemma generate_twice_reliable d db :
  exists generated db1,
    in_session (generate_daily_schedule reliable d false) db = (Ok generated, db1)
    /\ in_session (generate_daily_schedule reliable d false) db1 = (Ok [], db1).
Proof.
  destruct (generate_reliable_returns d false db) as (generated & s' & Hrun).
  exists generated, (committed s').
  assert (Hfirst : in_session (generate_daily_schedule reliable d false) db
                   = (Ok generated, committed s'))
    by (unfold in_session; rewrite Hrun; reflexivity).
  split; [exact Hfirst |].
  destruct generated as [| t rest].
  - assert (Hsame : committed s' = db).
    { destruct (generate_outcome _ _ _ _ _ _ Hrun)
        as [[_ Hc] | (_ & _ & _ & _ & _ & added & Hext & _ & _ & _ & Hnone & _)];
        [exact Hc |].
      rewrite (Hnone eq_refl) in Hext. apply extended_by_nothing. exact Hext. }
    rewrite Hsame in Hfirst |- *. exact Hfirst.
  - apply (generation_found_later reliable reliable d false db (t :: rest) s' Hrun);
      [discriminate | reflexivity].
Qed.

(** X2. The daily job is idempotent on a store that executes every
    statement: running it a second time on the same day leaves the database
    of the first run. *)
Theorem daily_job_idempotent (today : date) (db : DB) :
  scheduler.run_job reliable today (scheduler.run_job reliable today db)
  = scheduler.run_job reliable today db.
Proof.
  assert (Hjob : forall db0 generated db1,
             in_session (generate_daily_schedule reliable today false) db0
             = (Ok generated, db1) ->
             scheduler.run_job reliable today db0 = db1).
  { intros db0 generated db1. unfold scheduler.run_job, in_session,
      scheduler.scheduled_daily_generation, try_except, bind, ret.
    destruct (generate_daily_schedule reliable today false (new_session db0))
      as [[g | e] s1]; cbn [fst snd]; intros [= _ <-]; reflexivity. }
  destruct (generate_twice_reliable today db) as (generated & db1 & Hfirst & Hsecond).
  rewrite (Hjob _ _ _ Hfirst). exact (Hjob _ _ _ Hsecond).
Qed.

End generate_again.

(** ** The trips a generation returns *)

Section generated_trips.
Import rotation_service.

Lemma DriverStatus_on_duty a b : negb (DriverStatus_eqb a b) = true -> a <> b.
Proof. destruct a, b; simpl; congruence. Qed.

Lemma VehicleStatus_in_service a b : negb (VehicleStatus_eqb a b) = true -> a <> b.
Proof. destruct a, b; simpl; congruence. Qed.

Lemma In_morning_cycles d c :
  In c (morning_cycles d) -> exists h, 6 <= h <= 13 /\ c = datetime_combine d h 0.
Proof.
  unfold morning_cycles. cbn [map In].
  intros H. repeat (destruct H as [<- | H]; [eexists; split; [| reflexivity]; lia |]).
  contradiction.
Qed.

Lemma generated_well_scheduled faulty d regenerate db generated s' :
  generate_daily_schedule faulty d regenerate (new_session db) = (Ok generated, s') ->
  Forall (well_scheduled d (active_routes db) (drivers_on_duty db)
            (vehicles_in_service db)) generated.
Proof.
  intros Hrun.
  destruct (generate_outcome _ _ _ _ _ _ Hrun)
    as [[-> _] | (_ & _ & _ & _ & _ & added & _ & _ & Hwell & _)];
    [constructor | exact Hwell].
Qed.

(** X3. Every trip a generation returns can be served: it is SCHEDULED, on
    an active route of the database with the route's running time, driven
    by a stored driver who is not OFF_DUTY in a stored vehicle that is not
    OUT_OF_SERVICE, starts before 14:00 of the target day and, when
    outbound, on the hour between 06:00 and 13:00. *)
Theorem generated_trips_servable (faulty : nat -> bool) (d : date) (regenerate : bool)
    (db : DB) (generated : list Trip) (s' : Session) (t : Trip) :
  generate_daily_schedule faulty d regenerate (new_session db) = (Ok generated, s') ->
  In t generated ->
  trip_status t = SCHEDULED
  /\ scheduled_start t < datetime_combine d 14 0
  /\ (direction t = OUTBOUND ->
      exists h, 6 <= h <= 13 /\ scheduled_start t = datetime_combine d h 0)
  /\ (exists route,
         In route (routes db) /\ route_is_active route = true
         /\ trip_route_id t = route_id route
         /\ scheduled_end t = scheduled_start t + estimated_time_minutes route)
  /\ (exists dr,
         In dr (drivers db) /\ driver_status dr <> OFF_DUTY
         /\ trip_driver_id t = driver_id dr)
  /\ (exists v,
         In v (vehicles db) /\ vehicle_status v <> OUT_OF_SERVICE
         /\ trip_vehicle_id t = vehicle_id v).
Proof.
  intros Hrun Hin.
  pose proof (generated_well_scheduled _ _ _ _ _ _ Hrun) as Hwell.
  rewrite Forall_forall in Hwell.
  destruct (Hwell t Hin)
    as (Hstatus & (route & Hroute & Hrid & Hend & _) & Hbound & Hout
        & (dr & Hdr & Hdid) & (v & Hv & Hvid)).
  apply filter_In in Hroute, Hdr, Hv.
  destruct Hroute as [Hroute Hactive], Hdr as [Hdr Hduty], Hv as [Hv Hservice].
  split; [exact Hstatus |]. split; [exact Hbound |].
  split; [intros Hdir; apply In_morning_cycles, Hout, Hdir |].
  split; [exists route; auto |].
  split; [exists dr; auto using DriverStatus_on_duty |].
  exists v; auto using VehicleStatus_in_service.
Qed.

Lemma generated_trips_servable_witness :
  match generate_daily_schedule reliable 100 false (new_session sample_db) with
  | (Ok (t :: _), _) =>
      trip_status t = SCHEDULED
      /\ scheduled_start t < datetime_combine 100 14 0
      /\ (direction t = OUTBOUND ->
          exists h, 6 <= h <= 13 /\ scheduled_start t = datetime_combine 100 h 0)
      /\ (exists route,
             In route (routes sample_db) /\ route_is_active route = true
             /\ trip_route_id t = route_id route
             /\ scheduled_end t = scheduled_start t + estimated_time_minutes route)
      /\ (exists dr,
             In dr (drivers sample_db) /\ driver_status dr <> OFF_DUTY
             /\ trip_driver_id t = driver_id dr)
      /\ (exists v,
             In v (vehicles sample_db) /\ vehicle_status v <> OUT_OF_SERVICE
             /\ trip_vehicle_id t = vehicle_id v)
  | _ => False
  end.
Proof.
  destruct (generate_daily_schedule reliable 100 false (new_session sample_db))
    as [[[| t rest] | e] s'] eqn:Hrun.
  - vm_compute in Hrun. discriminate Hrun.
  - exact (generated_trips_servable reliable 100 false sample_db (t :: rest) s' t
             Hrun (or_introl eq_refl)).
  - vm_compute in Hrun. discriminate Hrun.
Defined.

(** X4. Every trip a generation returns is bound to an assignment the same
    generation stored: the committed database holds an assignment of the
    target day's MORNING shift, at position DRIVER_1 or DRIVER_2 and never
    DRIVER_3, with the trip's assignment key, driver, vehicle and route. *)
Theorem generated_trips_assigned (faulty : nat -> bool) (d : date) (regenerate : bool)
    (db : DB) (generated : list Trip) (s' : Session) (t : Trip) :
  generate_daily_schedule faulty d regenerate (new_session db) = (Ok generated, s') ->
  In t generated ->
  exists a,
    In a (rotation_assignments (committed s'))
    /\ rotation_assignment_id t = Some (ra_id a)
    /\ trip_driver_id t = ra_driver_id a
    /\ trip_vehicle_id t = ra_vehicle_id a
    /\ trip_route_id t = ra_route_id a
    /\ ra_shift_date a = d
    /\ ra_shift_type a = MORNING
    /\ (ra_position a = DRIVER_1 \/ ra_position a = DRIVER_2)
    /\ ra_shift_start_time a = datetime_combine d 6 0
    /\ ra_shift_end_time a = datetime_combine d 15 0.
Proof.
  intros Hrun Hin.
  destruct (generate_outcome _ _ _ _ _ _ Hrun)
    as [[-> _] | (_ & _ & _ & _ & _ & added & Hext & Hmorning & _ & Hbound & _)];
    [contradiction |].
  rewrite Forall_forall in Hmorning, Hbound.
  destruct (Hbound t Hin) as (a & Ha & Hid & Hdr & Hv & Hr).
  destruct (Hmorning a Ha) as (Hdate & Htype & Hpos & Hstart & Hend).
  exists a. split.
  - destruct Hext as (_ & _ & _ & _ & _ & _ & Hassignments & _).
    rewrite Hassignments. apply in_or_app. right. exact Ha.
  - repeat (split; [assumption |]). assumption.
Qed.

Lemma generated_trips_assigned_witness :
  match generate_daily_schedule reliable 100 false (new_session sample_db) with
  | (Ok (t :: _), s') =>
      exists a,
        In a (rotation_assignments (committed s'))
        /\ rotation_assignment_id t = Some (ra_id a)
        /\ trip_driver_id t = ra_driver_id a
        /\ trip_vehicle_id t = ra_vehicle_id a
        /\ trip_route_id t = ra_route_id a
        /\ ra_shift_date a = 100
        /\ ra_shift_type a = MORNING
        /\ (ra_position a = DRIVER_1 \/ ra_position a = DRIVER_2)
        /\ ra_shift_start_time a = datetime_combine 100 6 0
        /\ ra_shift_end_time a = datetime_combine 100 15 0
  | _ => False
  end.
Proof.
  destruct (generate_daily_schedule reliable 100 false (new_session sample_db))
    as [[[| t rest] | e] s'] eqn:Hrun.
  - vm_compute in Hrun. discriminate Hrun.
  - exact (generated_trips_assigned reliable 100 false sample_db (t :: rest) s' t
             Hrun (or_introl eq_refl)).
  - vm_compute in Hrun. discriminate Hrun.
Defined.

(** X5. A call without [regenerate] only appends: whatever it returns or
    raises, the committed database is the one it was given with assignments
    and trips added at the end of their tables and the two key counters
    advanced by their numbers; no stored row is changed or removed.  The
    trips added are the trips returned, and none when the call raises. *)
Theorem generate_only_appends (faulty : nat -> bool) (d : date) (db : DB)
    (r : result (list Trip)) (s' : Session) :
  generate_daily_schedule faulty d false (new_session db) = (r, s') ->
  exists added new_trips,
    extended_by db (committed s') added new_trips
    /\ (forall trips, r = Ok trips -> new_trips = trips)
    /\ (forall e, r = Raise e -> new_trips = [] /\ added = []).
Proof.
  intros Hrun. destruct r as [generated | e].
  - destruct (generate_outcome _ _ _ _ _ _ Hrun)
      as [[-> ->] | (_ & _ & _ & _ & _ & added & Hext & _)].
    + exists [], []. split; [apply extended_by_refl |].
      split; [intros trips [= <-]; reflexivity | discriminate].
    + exists added, generated. split; [exact Hext |].
      split; [intros trips [= <-]; reflexivity | discriminate].
  - destruct (all_or_nothing_generate faulty d false _ _ _ Hrun) as [Hraise _].
    rewrite (Hraise e eq_refl). exists [], []. split; [apply extended_by_refl |].
    split; [discriminate | auto].
Qed.

Lemma generate_only_appends_witness :
  exists added new_trips,
    extended_by sample_db
      (committed (snd (generate_daily_schedule (fails_at 7) 100 false
                         (new_session sample_db))))
      added new_trips
    /\ (forall trips,
          fst (generate_daily_schedule (fails_at 7) 100 false (new_session sample_db))
          = Ok trips -> new_trips = trips)
    /\ (forall e,
          fst (generate_daily_schedule (fails_at 7) 100 false (new_session sample_db))
          = Raise e -> new_trips = [] /\ added = []).
Proof.
  apply (generate_only_appends (fails_at 7) 100 sample_db
           (fst (generate_daily_schedule (fails_at 7) 100 false (new_session sample_db)))).
  apply surjective_pairing.
Defined.

End generated_trips.

(** ** Regeneration and the other days *)

Section other_days.
Import rotation_service.

Lemma NoDup_map_eq {A} (f : A -> Z) (l : list A) x y :
  NoDup (map f l) -> In x l -> In y l -> f x = f y -> x = y.
Proof.
  induction l as [| a l IH]; cbn [map]; intros Hnd Hx Hy Heq; [contradiction |].
  inversion Hnd as [| ? ? Hnotin Hnd']; subst.
  destruct Hx as [-> | Hx], Hy as [-> | Hy]; auto.
  - exfalso. apply Hnotin. rewrite Heq. apply in_map. exact Hy.
  - exfalso. apply Hnotin. rewrite <- Heq. apply in_map. exact Hx.
Qed.

Lemma not_on_other_day d db t :
  NoDup (map trip_id (trips db)) ->
  In t (trips db) ->
  date_of (scheduled_start t) <> d ->
  mem (trip_id t) (trip_ids_on d db) = false.
Proof.
  intros Hnd Hin Hdate.
  destruct (mem (trip_id t) (trip_ids_on d db)) eqn:Hmem; [| reflexivity].
  exfalso. apply mem_In in Hmem. unfold trip_ids_on in Hmem.
  apply in_map_iff in Hmem. destruct Hmem as (t' & Hid & Hin').
  apply filter_In in Hin'. destruct Hin' as [Hin' Hon].
  assert (t' = t) by (eapply NoDup_map_eq; eauto). subst t'.
  unfold on_date in Hon. apply Z.eqb_eq in Hon. contradiction.
Qed.

Lemma not_shifted_other_day d db a :
  NoDup (map ra_id (rotation_assignments db)) ->
  In a (rotation_assignments db) ->
  ra_shift_date a <> d ->
  mem (ra_id a) (assignment_ids_on d db) = false.
Proof.
  intros Hnd Hin Hdate.
  destruct (mem (ra_id a) (assignment_ids_on d db)) eqn:Hmem; [| reflexivity].
  exfalso. apply mem_In in Hmem. unfold assignment_ids_on in Hmem.
  apply in_map_iff in Hmem. destruct Hmem as (a' & Hid & Hin').
  apply filter_In in Hin'. destruct Hin' as [Hin' Hon].
  assert (a' = a) by (eapply NoDup_map_eq; eauto). subst a'.
  unfold shift_on in Hon. apply Z.eqb_eq in Hon. contradiction.
Qed.

Lemma cleanup_keeps_other_days d db :
  NoDup (map trip_id (trips db)) ->
  NoDup (map ra_id (rotation_assignments db)) ->
  (forall t, In t (trips db) -> date_of (scheduled_start t) <> d ->
             In t (trips (spec_cleanup d db)))
  /\ (forall a, In a (rotation_assignments db) -> ra_shift_date a <> d ->
                In a (rotation_assignments (spec_cleanup d db)))
  /\ (forall k t, In k (tickets db) -> In t (trips db) ->
                  ticket_trip_id k = trip_id t ->
                  date_of (scheduled_start t) <> d ->
                  In k (tickets (spec_cleanup d db)))
  /\ (forall x a, In x (driver_exchanges db) -> In a (rotation_assignments db) ->
                  exchange_rotation_assignment_id x = ra_id a ->
                  ra_shift_date a <> d ->
                  In x (driver_exchanges (spec_cleanup d db))).
Proof.
  intros Htrips Hassignments. unfold spec_cleanup. cbn.
  split; [| split; [| split]].
  - intros t Hin Hdate. apply filter_In. split; [exact Hin |].
    rewrite not_on_other_day; auto.
  - intros a Hin Hdate. apply filter_In. split; [exact Hin |].
    rewrite not_shifted_other_day; auto.
  - intros k t Hk Hin Hid Hdate. apply filter_In. split; [exact Hk |].
    rewrite Hid, not_on_other_day; auto.
  - intros x a Hx Hin Hid Hdate. apply filter_In. split; [exact Hx |].
    rewrite Hid, not_shifted_other_day; auto.
Qed.

(** X6. A regeneration that returns leaves the other days alone: when trip
    and assignment keys are unique, every stored trip and assignment of
    another day, every ticket of such a trip and every driver exchange of
    such an assignment is still in the committed database, and routes,
    drivers and vehicles are as before. *)
Theorem regenerate_keeps_other_days (faulty : nat -> bool) (d : date) (db : DB)
    (generated : list Trip) (s' : Session) :
  NoDup (map trip_id (trips db)) ->
  NoDup (map ra_id (rotation_assignments db)) ->
  generate_daily_schedule faulty d true (new_session db) = (Ok generated, s') ->
  (forall t, In t (trips db) -> date_of (scheduled_start t) <> d ->
             In t (trips (committed s')))
  /\ (forall a, In a (rotation_assignments db) -> ra_shift_date a <> d ->
                In a (rotation_assignments (committed s')))
  /\ (forall k t, In k (tickets db) -> In t (trips db) ->
                  ticket_trip_id k = trip_id t ->
                  date_of (scheduled_start t) <> d ->
                  In k (tickets (committed s')))
  /\ (forall x a, In x (driver_exchanges db) -> In a (rotation_assignments db) ->
                  exchange_rotation_assignment_id x = ra_id a ->
                  ra_shift_date a <> d ->
                  In x (driver_exchanges (committed s')))
  /\ routes (committed s') = routes db
  /\ drivers (committed s') = drivers db
  /\ vehicles (committed s') = vehicles db.
Proof.
  intros Htrips Hassignments Hrun.
  destruct (generate_outcome _ _ _ _ _ _ Hrun)
    as [[_ ->] | (_ & _ & _ & _ & _ & added & Hext & _)].
  { repeat split; auto. }
  cbn [generation_base] in Hext.
  destruct Hext as (Hr & Hdr & Hv & Htk & _ & Hex & Has & Htr & _).
  destruct (cleanup_keeps_other_days d db Htrips Hassignments)
    as (Kt & Ka & Kk & Kx).
  rewrite Hr, Hdr, Hv, Htk, Hex, Has, Htr.
  split; [intros t Hin Hdate; apply in_or_app; left; auto |].
  split; [intros a Hin Hdate; apply in_or_app; left; auto |].
  split; [exact Kk |]. split; [exact Kx |].
  repeat split.
Qed.

Lemma regenerate_keeps_other_days_witness :
  match generate_daily_schedule reliable 0 true (new_session two_day_db) with
  | (Ok _, s') =>
      (forall t, In t (trips two_day_db) -> date_of (scheduled_start t) <> 0 ->
                 In t (trips (committed s')))
      /\ (forall a, In a (rotation_assignments two_day_db) -> ra_shift_date a <> 0 ->
                    In a (rotation_assignments (committed s')))
      /\ (forall k t, In k (tickets two_day_db) -> In t (trips two_day_db) ->
                      ticket_trip_id k = trip_id t ->
                      date_of (scheduled_start t) <> 0 ->
                      In k (tickets (committed s')))
      /\ (forall x a, In x (driver_exchanges two_day_db) ->
                      In a (rotation_assignments two_day_db) ->
                      exchange_rotation_assignment_id x = ra_id a ->
                      ra_shift_date a <> 0 ->
                      In x (driver_exchanges (committed s')))
      /\ routes (committed s') = routes two_day_db
      /\ drivers (committed s') = drivers two_day_db
      /\ vehicles (committed s') = vehicles two_day_db
  | _ => False
  end.
Proof.
  destruct (generate_daily_schedule reliable 0 true (new_session two_day_db))
    as [[generated | e] s'] eqn:Hrun.
  - apply (regenerate_keeps_other_days reliable 0 two_day_db generated s');
      [| | exact Hrun]; cbn;
      repeat (apply NoDup_cons;
              [cbn; intros H; repeat (destruct H as [H | H]; [discriminate H |]); exact H |]);
      apply NoDup_nil.
  - vm_compute in Hrun. discriminate Hrun.
Defined.

End other_days.

(** ** The crews of a route *)

Section crews.
Import rotation_service.

Lemma crew_plan route a1 a2 end_time cycles : forall toggle next,
  map crew (filter is_outbound
              (number_from next (trip_plan route a1 a2 end_time cycles toggle)))
  = crew_turns a1 a2 cycles toggle.
Proof.
  induction cycles as [| c later IH]; intros toggle next; [reflexivity |].
  cbn [trip_plan crew_turns].
  cbn [number_from filter is_outbound make_trip direction map crew scheduled_start
       trip_driver_id trip_vehicle_id app].
  f_equal.
  destruct (_ <? _); cbn [app number_from filter is_outbound make_trip direction];
    apply IH.
Qed.

Lemma route_trips_crews d route d1 v1 d2 v2 db :
  map crew (filter is_outbound (route_trips d route d1 v1 d2 v2 db))
  = map (fun h => (datetime_combine d h 0,
                   driver_id (if Z.even h then d1 else d2),
                   vehicle_id (if Z.even h then v1 else v2)))
      [6; 7; 8; 9; 10; 11; 12; 13].
Proof.
  unfold route_trips, route_assignments. rewrite crew_plan. reflexivity.
Qed.

Lemma route_trips_crew_of_two d route d1 v1 d2 v2 db t :
  In t (route_trips d route d1 v1 d2 v2 db) ->
  (trip_driver_id t = driver_id d1 /\ trip_vehicle_id t = vehicle_id v1)
  \/ (trip_driver_id t = driver_id d2 /\ trip_vehicle_id t = vehicle_id v2).
Proof.
  intros Hin.
  pose proof (route_trips_bound d route d1 v1 d2 v2 db) as Hbound.
  rewrite Forall_forall in Hbound.
  destruct (Hbound t Hin) as [(_ & Hd & Hv & _) | (_ & Hd & Hv & _)];
    [left | right]; split; assumption.
Qed.

(** X7. The two drivers of a route take the cycles in turn: when the
    scheduling of a route returns, its outbound trips leave on the hour from
    06:00 to 13:00, the first driver of the slice in the first vehicle on
    the even hours and the second driver in the second vehicle on the odd
    ones; every trip of the route, inbound ones included, has one of these
    two crews, so a third driver of the slice drives no trip. *)
Theorem route_crews_alternate (faulty : nat -> bool) (d : date) (route : Route)
    (d1 d2 : Driver) (more_drivers : list Driver)
    (v1 v2 : Vehicle) (more_vehicles : list Vehicle)
    (s : Session) (generated : list Trip) (s' : Session) :
  schedule_route faulty d route (d1 :: d2 :: more_drivers) (v1 :: v2 :: more_vehicles) s
  = (Ok generated, s') ->
  map crew (filter is_outbound generated)
  = map (fun h => (datetime_combine d h 0,
                   driver_id (if Z.even h then d1 else d2),
                   vehicle_id (if Z.even h then v1 else v2)))
      [6; 7; 8; 9; 10; 11; 12; 13]
  /\ forall t, In t generated ->
       (trip_driver_id t = driver_id d1 /\ trip_vehicle_id t = vehicle_id v1)
       \/ (trip_driver_id t = driver_id d2 /\ trip_vehicle_id t = vehicle_id v2).
Proof.
  intros Hrun.
  destruct (schedule_route_returns faulty d route (d1 :: d2 :: more_drivers)
              (v1 :: v2 :: more_vehicles) s generated s') as
    (d1' & d2' & rd & v1' & v2' & rv & Hd & Hv & -> & _);
    [simpl; lia | simpl; lia | exact Hrun |].
  injection Hd as <- <- _. injection Hv as <- <- _.
  split; [apply route_trips_crews | intros t; apply route_trips_crew_of_two].
Qed.

Lemma route_crews_alternate_witness :
  match schedule_route reliable 100 riverside
          [sample_driver 1; sample_driver 2; sample_driver 3]
          [sample_vehicle 1; sample_vehicle 2] (new_session sample_db) with
  | (Ok generated, _) =>
      map crew (filter is_outbound generated)
      = map (fun h => (datetime_combine 100 h 0,
                       driver_id (if Z.even h then sample_driver 1 else sample_driver 2),
                       vehicle_id (if Z.even h then sample_vehicle 1 else sample_vehicle 2)))
          [6; 7; 8; 9; 10; 11; 12; 13]
      /\ forall t, In t generated ->
           (trip_driver_id t = driver_id (sample_driver 1)
            /\ trip_vehicle_id t = vehicle_id (sample_vehicle 1))
           \/ (trip_driver_id t = driver_id (sample_driver 2)
               /\ trip_vehicle_id t = vehicle_id (sample_vehicle 2))
  | _ => False
  end.
Proof.
  destruct (schedule_route reliable 100 riverside
              [sample_driver 1; sample_driver 2; sample_driver 3]
              [sample_vehicle 1; sample_vehicle 2] (new_session sample_db))
    as [[generated | e] s'] eqn:Hrun.
  - exact (route_crews_alternate reliable 100 riverside _ _ _ _ _ _ _ _ _ Hrun).
  - vm_compute in Hrun. discriminate Hrun.
Defined.

End crews.

(** ** When the round robin wraps *)

Section wrapped_pools.
Import rotation_service.

(** A generation that returns trips has run the route loop on the pools of
    the database. *)
Lemma generate_route_loop faulty d regenerate db generated s' :
  generate_daily_schedule faulty d regenerate (new_session db) = (Ok generated, s') ->
  generated <> [] ->
  exists s0 s_loop,
    route_loop faulty d (drivers_on_duty db) (vehicles_in_service db)
      (active_routes db) 0 0 s0
    = (Ok generated, s_loop).
Proof.
  unfold generate_daily_schedule, query. unfold bind at 1.
  destruct (execute faulty (SelectCountTrips d) _ (new_session db))
    as [[n | e] s0] eqn:Hcount; [| discriminate].
  apply execute_returns in Hcount. destruct Hcount as (_ & -> & ->).
  cbn [fst snd new_session working committed trace app].
  destruct ((0 <? count_trips d db)%nat && negb regenerate) eqn:Hexisting.
  { unfold ret. intros [= <- <-] Hsome. contradiction. }
  unfold bind at 1.
  destruct (when regenerate (delete_schedule faulty d) _) as [[[] | e] s1] eqn:Hclean;
    [| discriminate].
  assert (Hw1 : working s1 = generation_base regenerate d db).
  { destruct regenerate; cbn [when generation_base] in *.
    - apply returns_as_delete_schedule in Hclean.
      rewrite delete_schedule_reliable in Hclean. injection Hclean as <-. reflexivity.
    - unfold ret in Hclean. injection Hclean as <-. reflexivity. }
  assert (Hpools : active_routes (working s1) = active_routes db
                   /\ drivers_on_duty (working s1) = drivers_on_duty db
                   /\ vehicles_in_service (working s1) = vehicles_in_service db).
  { rewrite Hw1. destruct regenerate; cbn [generation_base];
      [apply cleanup_keeps_pools | auto]. }
  destruct Hpools as (Hroutes & Hdrivers & Hvehicles).
  intros Hbuild Hsome. apply build_schedule_outcome in Hbuild.
  rewrite Hroutes, Hdrivers, Hvehicles in Hbuild.
  destruct Hbuild as [(-> & _) | (_ & _ & s_loop & Hloop & _)]; [contradiction |].
  eexists _, s_loop. exact Hloop.
Qed.

(** With three drivers and two vehicles both indices wrap to 0 after every
    route, so every route is scheduled with the same slices. *)
Lemma route_loop_same_crew faulty d d1 d2 d3 v1 v2 routes :
  forall s generated s',
    route_loop faulty d [d1; d2; d3] [v1; v2] routes 0 0 s = (Ok generated, s') ->
    (forall t, In t generated ->
       (trip_driver_id t = driver_id d1 /\ trip_vehicle_id t = vehicle_id v1)
       \/ (trip_driver_id t = driver_id d2 /\ trip_vehicle_id t = vehicle_id v2))
    /\ (forall route, In route routes ->
          exists t, In t generated
                    /\ trip_route_id t = route_id route
                    /\ direction t = OUTBOUND
                    /\ scheduled_start t = datetime_combine d 6 0
                    /\ trip_driver_id t = driver_id d1
                    /\ trip_vehicle_id t = vehicle_id v1).
Proof.
  induction routes as [| route rest IH]; intros s generated s'; cbn [route_loop].
  - intros [= <- <-]. split; [intros t [] | intros route []].
  - change (slice [d1; d2; d3] 0 (0 + 3)) with [d1; d2; d3].
    change (slice [v1; v2] 0 (0 + 2)) with [v1; v2].
    cbn [length Nat.ltb Nat.leb orb].
    change ((0 + 3) mod 3)%nat with 0%nat. change ((0 + 2) mod 2)%nat with 0%nat.
    unfold bind at 1.
    destruct (schedule_route faulty d route _ _ s) as [[trips | e] s1] eqn:Hsched;
      [| discriminate].
    unfold bind at 1.
    destruct (route_loop faulty d _ _ rest _ _ s1) as [[later | e] s2] eqn:Hlater;
      [| discriminate].
    unfold ret. intros [= <- <-].
    destruct (schedule_route_returns faulty d route [d1; d2; d3] [v1; v2] s trips s1)
      as (d1' & d2' & rd & v1' & v2' & rv & Hd & Hv & -> & _);
      [simpl; lia | simpl; lia | exact Hsched |].
    injection Hd as <- <- _. injection Hv as <- <- _.
    destruct (IH _ _ _ Hlater) as [Hcrews Hroutes].
    split.
    + intros t Hin. apply in_app_or in Hin. destruct Hin as [Hin | Hin];
        [eapply route_trips_crew_of_two; exact Hin | apply Hcrews; exact Hin].
    + intros r [<- | Hr].
      * unfold route_trips, route_assignments, morning_cycles.
        cbn [map trip_plan number_from].
        eexists. split; [apply in_or_app; left; left; reflexivity |].
        repeat split.
      * destruct (Hroutes r Hr) as (t & Hin & Ht).
        exists t. split; [apply in_or_app; right; exact Hin | exact Ht].
Qed.

(** X8. The round robin wraps around the pools: in a database with exactly
    three drivers on duty and two vehicles in service, a generation that
    returns trips has scheduled every active route with the same crews, so
    each active route has an outbound trip at 06:00 with the first driver
    in the first vehicle, and every trip returned has one of the two crews. *)
Theorem three_drivers_serve_every_route (faulty : nat -> bool) (d : date)
    (regenerate : bool) (db : DB) (d1 d2 d3 : Driver) (v1 v2 : Vehicle)
    (generated : list Trip) (s' : Session) :
  drivers_on_duty db = [d1; d2; d3] ->
  vehicles_in_service db = [v1; v2] ->
  generate_daily_schedule faulty d regenerate (new_session db) = (Ok generated, s') ->
  generated <> [] ->
  (forall t, In t generated ->
     (trip_driver_id t = driver_id d1 /\ trip_vehicle_id t = vehicle_id v1)
     \/ (trip_driver_id t = driver_id d2 /\ trip_vehicle_id t = vehicle_id v2))
  /\ (forall route, In route (routes db) -> route_is_active route = true ->
        exists t, In t generated
                  /\ trip_route_id t = route_id route
                  /\ direction t = OUTBOUND
                  /\ scheduled_start t = datetime_combine d 6 0
                  /\ trip_driver_id t = driver_id d1
                  /\ trip_vehicle_id t = vehicle_id v1).
Proof.
  intros Hdrivers Hvehicles Hrun Hsome.
  destruct (generate_route_loop _ _ _ _ _ _ Hrun Hsome) as (s0 & s_loop & Hloop).
  rewrite Hdrivers, Hvehicles in Hloop.
  destruct (route_loop_same_crew _ _ _ _ _ _ _ _ _ _ _ Hloop) as [Hcrews Hroutes].
  split; [exact Hcrews |].
  intros route Hin Hactive. apply Hroutes. apply filter_In. auto.
Qed.

Lemma three_drivers_serve_every_route_witness :
  match generate_daily_schedule reliable 100 false (new_session three_driver_db) with
  | (Ok generated, _) =>
      generated <> []
      /\ (forall t, In t generated ->
            (trip_driver_id t = 1 /\ trip_vehicle_id t = 1)
            \/ (trip_driver_id t = 2 /\ trip_vehicle_id t = 2))
      /\ (forall route, In route (routes three_driver_db) ->
            route_is_active route = true ->
            exists t, In t generated
                      /\ trip_route_id t = route_id route
                      /\ direction t = OUTBOUND
                      /\ scheduled_start t = datetime_combine 100 6 0
                      /\ trip_driver_id t = 1
                      /\ trip_vehicle_id t = 1)
  | _ => False
  end.
Proof.
  destruct (generate_daily_schedule reliable 100 false (new_session three_driver_db))
    as [[generated | e] s'] eqn:Hrun.
  - assert (Hsome : generated <> [])
      by (intros ->; vm_compute in Hrun; discriminate Hrun).
    split; [exact Hsome |].
    exact (three_drivers_serve_every_route reliable 100 false three_driver_db
             (sample_driver 1) (sample_driver 2) (sample_driver 3)
             (sample_vehicle 1) (sample_vehicle 2) generated s'
             eq_refl eq_refl Hrun Hsome).
  - vm_compute in Hrun. discriminate Hrun.
Defined.

End wrapped_pools.

(** ** The break lifecycle, request after request *)

Section break_requests.
Import break_service break_status.

Lemma start_break_outcome settings now db driver :
  match start_break settings now db driver with
  | Ok _ => bs_is_eligible (get_break_status settings driver) = true
  | Raise e =>
      bs_is_eligible (get_break_status settings driver) = false
      /\ e = (if trips_since_last_break driver <? MIN_TRIPS_BEFORE_BREAK settings
              then not_enough_trips else no_break_time)
  end.
Proof.
  unfold start_break, get_break_status. cbn [bs_is_eligible].
  rewrite (Z.leb_antisym (trips_since_last_break driver)),
          (Z.ltb_antisym (break_time_remaining driver)).
  destruct (_ <? _); [split; reflexivity |].
  destruct (_ <=? _); [split; reflexivity |].
  reflexivity.
Qed.

Lemma open_logs_update_closed id pk now duration logs :
  open_logs id logs = [] ->
  open_logs id (update_break_log pk (close_log now duration) logs) = [].
Proof.
  unfold open_logs, update_break_log.
  induction logs as [| l logs IH]; cbn [map filter]; [reflexivity |].
  destruct (is_open_for id l) eqn:Hopen; [discriminate |].
  intros Hnone.
  destruct (break_log_id l =? pk);
    [rewrite is_open_for_close | rewrite Hopen]; apply IH; exact Hnone.
Qed.

Lemma end_break_resets now db driver driver' db' :
  end_break now db driver = Ok (driver', db') ->
  driver_status driver' = ACTIVE /\ trips_since_last_break driver' = 0.
Proof.
  unfold end_break.
  destruct (DriverStatus_eqb (driver_status driver) ON_BREAK); [| discriminate].
  destruct (break_start_time driver) as [started |]; [| discriminate].
  intros [= <- _]. split; reflexivity.
Qed.

(** X9. The status report predicts the start request: [start_break]
    returns exactly for the drivers whose [is_eligible] entry of
    [get_break_status] is true, and otherwise raises the message for too few
    trips when that is the case and the message for an empty budget when it
    is not. *)
Theorem start_break_as_reported (settings : Settings) (now : datetime)
    (db : Store) (driver : Driver) :
  match start_break settings now db driver with
  | Ok _ => bs_is_eligible (get_break_status settings driver) = true
  | Raise e =>
      bs_is_eligible (get_break_status settings driver) = false
      /\ e = (if trips_since_last_break driver <? MIN_TRIPS_BEFORE_BREAK settings
              then not_enough_trips else no_break_time)
  end.
Proof.
  unfold start_break, get_break_status. cbn [bs_is_eligible].
  rewrite (Z.leb_antisym (trips_since_last_break driver)),
          (Z.ltb_antisym (break_time_remaining driver)).
  destruct (_ <? _); [split; reflexivity |].
  destruct (_ <=? _); [split; reflexivity |].
  reflexivity.
Qed.

Lemma break_round_trip_rows (settings : Settings) (t0 t1 : datetime)
    (db : Store) (driver : Driver)
    (break_log : BreakLog) (driver1 : Driver) (db1 : Store) :
  open_logs (driver_id driver) (break_logs db) = [] ->
  start_break settings t0 db driver = Ok (break_log, driver1, db1) ->
  exists driver2 db2,
    end_break t1 db1 driver1 = Ok (driver2, db2)
    /\ driver_status driver2 = ACTIVE
    /\ break_start_time driver2 = None
    /\ trips_since_last_break driver2 = 0
    /\ current_break_number driver2 = current_break_number driver + 1
    /\ break_time_remaining driver2
       = Z.max 0 (break_time_remaining driver - (t1 - t0))
    /\ total_break_time_today driver2 = total_break_time_today driver + (t1 - t0)
    /\ In (close_log t1 (t1 - t0) break_log) (break_logs db2)
    /\ open_logs (driver_id driver) (break_logs db2) = []
    /\ length (break_logs db2) = S (length (break_logs db))
    /\ length (audit_logs db2) = S (S (length (audit_logs db))).
Proof.
  intros Hnone. unfold start_break.
  destruct (_ <? _); [discriminate |]. destruct (_ <=? _); [discriminate |].
  cbn [add_break_log]. intros [= <- <- <-].
  unfold end_break.
  cbn [driver_status DriverStatus_eqb break_start_time driver_id
       log_action break_logs].
  rewrite open_logs_app, Hnone.
  cbn [open_logs filter app]. unfold is_open_for at 1.
  cbn [bl_driver_id end_time]. rewrite Z.eqb_refl.
  cbn [andb latest_start break_log_id].
  eexists _, _. split; [reflexivity |].
  cbn [driver_status break_start_time trips_since_last_break current_break_number
       break_time_remaining total_break_time_today log_action
       break_logs audit_logs].
  repeat (split; [reflexivity |]).
  split; [| split; [| split]].
  - unfold update_break_log. rewrite map_app. apply in_or_app. right.
    cbn [map break_log_id]. rewrite Z.eqb_refl. left. reflexivity.
  - unfold update_break_log. rewrite map_app, open_logs_app.
    fold (update_break_log (next_break_log_id db) (close_log t1 (t1 - t0)) (break_logs db)).
    rewrite open_logs_update_closed by exact Hnone.
    cbn [map break_log_id app open_logs filter]. rewrite Z.eqb_refl.
    rewrite is_open_for_close. reflexivity.
  - unfold update_break_log. rewrite length_map, length_app.
    cbn [length]. lia.
  - rewrite !length_app. cbn [length]. lia.
Qed.

(** X10. A break started and then ended: when no log of the driver is open,
    a start that returns at [t0] followed by an end at [t1] returns the
    driver ACTIVE with the break start cleared, the trip counter at 0, the
    break number raised by one, the budget lowered by [t1 - t0] and floored
    at 0 and the time taken today raised by [t1 - t0]; the log of the break
    is stored closed at [t1] with that duration, no log of the driver is
    left open, and the store holds one more log and two more audit rows. *)
Theorem break_round_trip (settings : Settings) (t0 t1 : datetime)
    (db : Store) (driver : Driver)
    (break_log : BreakLog) (driver1 : Driver) (db1 : Store) :
  open_logs (driver_id driver) (break_logs db) = [] ->
  start_break settings t0 db driver = Ok (break_log, driver1, db1) ->
  exists driver2 db2,
    end_break t1 db1 driver1 = Ok (driver2, db2)
    /\ driver_status driver2 = ACTIVE
    /\ break_start_time driver2 = None
    /\ trips_since_last_break driver2 = 0
    /\ current_break_number driver2 = current_break_number driver + 1
    /\ break_time_remaining driver2
       = Z.max 0 (break_time_remaining driver - (t1 - t0))
    /\ total_break_time_today driver2 = total_break_time_today driver + (t1 - t0)
    /\ In (close_log t1 (t1 - t0) break_log) (break_logs db2)
    /\ open_logs (driver_id driver) (break_logs db2) = []
    /\ length (break_logs db2) = S (length (break_logs db))
    /\ length (audit_logs db2) = S (S (length (audit_logs db))).
Proof.
  intros Hnone. unfold start_break.
  destruct (_ <? _); [discriminate |]. destruct (_ <=? _); [discriminate |].
  cbn [add_break_log]. intros [= <- <- <-].
  unfold end_break.
  cbn [driver_status DriverStatus_eqb break_start_time driver_id
       log_action break_logs].
  rewrite open_logs_app, Hnone.
  cbn [open_logs filter app]. unfold is_open_for at 1.
  cbn [bl_driver_id end_time]. rewrite Z.eqb_refl.
  cbn [andb latest_start break_log_id].
  eexists _, _. split; [reflexivity |].
  cbn [driver_status break_start_time trips_since_last_break current_break_number
       break_time_remaining total_break_time_today log_action
       break_logs audit_logs].
  repeat (split; [reflexivity |]).
  split; [| split; [| split]].
  - unfold update_break_log. rewrite map_app. apply in_or_app. right.
    cbn [map break_log_id]. rewrite Z.eqb_refl. left. reflexivity.
  - unfold update_break_log. rewrite map_app, open_logs_app.
    fold (update_break_log (next_break_log_id db) (close_log t1 (t1 - t0)) (break_logs db)).
    rewrite open_logs_update_closed by exact Hnone.
    cbn [map break_log_id app open_logs filter]. rewrite Z.eqb_refl.
    rewrite is_open_for_close. reflexivity.
  - unfold update_break_log. rewrite length_map, length_app.
    cbn [length]. lia.
  - rewrite !length_app. cbn [length]. lia.
Qed.

Lemma break_round_trip_witness :
  exists driver2 db2,
    end_break 1030
      {| break_logs := [mkBreakLog 1 7 0 1 1000 None None];
         audit_logs := [mkAuditLog (Some 70) "START_BREAK" "Driver" (Some 7)];
         next_break_log_id := 2 |}
      (mkDriver 7 70 ON_BREAK 60 0 (Some 1000) 1 1)
    = Ok (driver2, db2)
    /\ driver_status driver2 = ACTIVE
    /\ break_start_time driver2 = None
    /\ trips_since_last_break driver2 = 0
    /\ current_break_number driver2 = current_break_number driver_on_trip + 1
    /\ break_time_remaining driver2
       = Z.max 0 (break_time_remaining driver_on_trip - (1030 - 1000))
    /\ total_break_time_today driver2
       = total_break_time_today driver_on_trip + (1030 - 1000)
    /\ In (close_log 1030 (1030 - 1000) (mkBreakLog 1 7 0 1 1000 None None))
         (break_logs db2)
    /\ open_logs (driver_id driver_on_trip) (break_logs db2) = []
    /\ length (break_logs db2) = S (length (break_logs empty_store))
    /\ length (audit_logs db2) = S (S (length (audit_logs empty_store))).
Proof.
  apply (break_round_trip default_settings 1000 1030 empty_store driver_on_trip);
    reflexivity.
Defined.

(** X11. No second break right after a break: once [end_break] has
    returned, the driver it returns is refused by [start_break] for too few
    trips whenever the setting asks for at least one trip, and refused by
    [end_break] as not on break, in whatever store and at whatever time. *)
Theorem after_break_ended (settings : Settings) (now now1 now2 : datetime)
    (db db1 db2 : Store) (driver driver' : Driver) (db' : Store) :
  0 < MIN_TRIPS_BEFORE_BREAK settings ->
  end_break now db driver = Ok (driver', db') ->
  start_break settings now1 db1 driver' = Raise not_enough_trips
  /\ end_break now2 db2 driver' = Raise not_on_break.
Proof.
  intros Hmin Hend. destruct (end_break_resets _ _ _ _ _ Hend) as [Hstatus Htrips].
  split.
  - unfold start_break. rewrite Htrips.
    destruct (Z.ltb_spec 0 (MIN_TRIPS_BEFORE_BREAK settings)); [reflexivity | lia].
  - unfold end_break. rewrite Hstatus. reflexivity.
Qed.

Lemma after_break_ended_witness :
  start_break default_settings 1100 empty_store
    (mkDriver 7 70 ACTIVE 30 35 None 0 1) = Raise not_enough_trips
  /\ end_break 1100 empty_store (mkDriver 7 70 ACTIVE 30 35 None 0 1)
     = Raise not_on_break.
Proof.
  apply (after_break_ended default_settings 1030 1100 1100 store_on_break
           empty_store empty_store driver_on_break
           (mkDriver 7 70 ACTIVE 30 35 None 0 1)
           (log_action
              {| break_logs := [mkBreakLog 1 7 0 1 1000 (Some 1030) (Some 30)];
                 audit_logs := []; next_break_log_id := 2 |}
              (Some 70) "END_BREAK" "Driver" (Some 7)));
    reflexivity.
Defined.

End break_requests.

(** ** The generation request of the admin API *)

Section generation_request.
Import rotation_service.

Variable str : exn -> string.

Lemma generate_nothing_changes_nothing faulty d db s' :
  generate_daily_schedule faulty d false (new_session db) = (Ok [], s') ->
  committed s' = db.
Proof.
  intros Hrun.
  destruct (generate_outcome _ _ _ _ _ _ Hrun)
    as [[_ Hc] | (_ & _ & _ & _ & _ & added & Hext & _ & _ & _ & Hnone & _)];
    [exact Hc |].
  rewrite (Hnone eq_refl) in Hext. apply extended_by_nothing. exact Hext.
Qed.

Lemma generate_empty_pools d regenerate db :
  drivers_on_duty db = [] \/ vehicles_in_service db = [] ->
  exists s',
    generate_daily_schedule reliable d regenerate (new_session db) = (Ok [], s')
    /\ committed s' = db.
Proof.
  intros Hpools.
  destruct (generate_reliable_returns d regenerate db) as (generated & s' & Hrun).
  destruct (generate_outcome _ _ _ _ _ _ Hrun)
    as [[-> Hc] | (Hd & Hv & _)].
  - exists s'. split; [exact Hrun | exact Hc].
  - destruct Hpools; contradiction.
Qed.

(** X12. The three answers of a generation request without [regenerate]:
    status 500, with the database unchanged; the message that a schedule
    already exists, with the database unchanged; or the message with the
    number of trips generated, that number being positive and the database
    being the old one with that many trips and their assignments appended. *)
Theorem force_generate_outcome (faulty : nat -> bool) (today : date) (db : DB) :
  match admin.force_generate_schedule str faulty today false db with
  | (Refused e, db') => status_code e = 500 /\ db' = db
  | (Returned message, db') =>
      (message = admin.schedule_exists /\ db' = db)
      \/ exists added generated,
           generated <> []
           /\ message = ("Generated " ++ str_of_nat (length generated)
                         ++ " trips for today")%string
           /\ extended_by db db' added generated
  | (Unhandled _, _) => False
  end.
Proof.
  unfold admin.force_generate_schedule.
  destruct (generate_daily_schedule faulty today false (new_session db))
    as [[trips | e] s'] eqn:Hrun.
  - destruct trips as [| t rest].
    + left. split; [reflexivity |].
      exact (generate_nothing_changes_nothing _ _ _ _ Hrun).
    + right.
      destruct (generate_outcome _ _ _ _ _ _ Hrun)
        as [[Hnone _] | (_ & _ & _ & _ & _ & added & Hext & _)]; [discriminate |].
      exists added, (t :: rest). split; [discriminate |]. split; [reflexivity |].
      exact Hext.
  - split; [reflexivity |].
    destruct (all_or_nothing_generate faulty today false _ _ _ Hrun) as [Hraise _].
    exact (Hraise e eq_refl).
Qed.

(** X13. With no driver on duty or no vehicle in service, a generation
    request on a store that executes every statement leaves the database as
    it is, answering that the schedule already exists when [regenerate] is
    off, whether or not the day has a trip, and that 0 trips were
    regenerated when it is on. *)
Theorem force_generate_without_pools (today : date) (regenerate : bool) (db : DB) :
  drivers_on_duty db = [] \/ vehicles_in_service db = [] ->
  admin.force_generate_schedule str reliable today regenerate db
  = (Returned (if regenerate then "Regenerated 0 trips for today"%string
               else admin.schedule_exists),
     db).
Proof.
  intros Hpools.
  destruct (generate_empty_pools today regenerate db Hpools) as (s' & Hrun & Hc).
  unfold admin.force_generate_schedule. rewrite Hrun, Hc.
  destruct regenerate; reflexivity.
Qed.

End generation_request.

Lemma force_generate_without_pools_witness :
  rotation_service.count_trips 5 off_duty_db = 0%nat
  /\ admin.force_generate_schedule (fun _ => EmptyString) rotation_service.reliable
       5 false off_duty_db
     = (Returned admin.schedule_exists, off_duty_db).
Proof.
  split; [reflexivity |].
  apply (force_generate_without_pools (fun _ => EmptyString) 5 false off_duty_db).
  left. reflexivity.
Defined.

(** ** Deactivated drivers, vehicles and routes *)

Section soft_deletes.
Import rotation_service.

Lemma In_write_back {A} (key : A -> Z) (row : A) (rows : list A) (r : A) :
  In r (write_back key row rows) -> key r = key row -> r = row.
Proof.
  unfold write_back. intros Hin Hkey. apply in_map_iff in Hin.
  destruct Hin as (r0 & Hr & _).
  destruct (Z.eqb_spec (key r0) (key row)) as [_ | Hneq]; [congruence |].
  subst r0. contradiction.
Qed.

Lemma get_key {A} (key : A -> Z) (rows : list A) (id : Z) (row : A) :
  get key rows id = Some row -> key row = id.
Proof.
  unfold get. intros H. apply find_some in H. destruct H as [_ H].
  apply Z.eqb_eq. exact H.
Qed.

(** X14. A deactivated driver, vehicle or route is not scheduled: in the
    database a [delete_driver], [delete_vehicle] or [delete_route] request
    has left, no trip a generation returns has that driver, that vehicle or
    that route. *)
Theorem deactivated_never_scheduled (faulty : nat -> bool) (d : date)
    (regenerate : bool) (st : admin.Store) (generated : list Trip) (s' : Session)
    (t : Trip) :
  generate_daily_schedule faulty d regenerate (new_session (admin.tables st))
  = (Ok generated, s') ->
  In t generated ->
  (forall user id st0 message,
      admin.delete_driver user id st0 = (Returned message, st) ->
      trip_driver_id t <> id)
  /\ (forall user id st0 message,
         admin.delete_vehicle user id st0 = (Returned message, st) ->
         trip_vehicle_id t <> id)
  /\ (forall user id st0 message,
         admin.delete_route user id st0 = (Returned message, st) ->
         trip_route_id t <> id).
Proof.
  intros Hrun Hin.
  pose proof (generated_well_scheduled _ _ _ _ _ _ Hrun) as Hwell.
  rewrite Forall_forall in Hwell.
  destruct (Hwell t Hin)
    as (_ & (route & Hroute & Hrid & _) & _ & _ & (dr & Hdr & Hdid) & (v & Hv & Hvid)).
  apply filter_In in Hroute, Hdr, Hv.
  destruct Hroute as [Hroute Hactive], Hdr as [Hdr Hduty], Hv as [Hv Hservice].
  split; [| split]; intros user id st0 message; unfold admin.delete_driver,
    admin.delete_vehicle, admin.delete_route.
  - destruct (get driver_id _ id) as [row |] eqn:Hget; [| discriminate].
    intros [= _ <-] Heq. cbn in Hdr.
    apply get_key in Hget.
    apply In_write_back in Hdr; [| cbn; congruence].
    subst dr. discriminate Hduty.
  - destruct (get vehicle_id _ id) as [row |] eqn:Hget; [| discriminate].
    intros [= _ <-] Heq. cbn in Hv.
    apply get_key in Hget.
    apply In_write_back in Hv; [| cbn; congruence].
    subst v. discriminate Hservice.
  - destruct (get route_id _ id) as [row |] eqn:Hget; [| discriminate].
    intros [= _ <-] Heq. cbn in Hroute.
    apply get_key in Hget.
    apply In_write_back in Hroute; [| cbn; congruence].
    subst route. discriminate Hactive.
Qed.

Lemma deactivated_never_scheduled_witness :
  match generate_daily_schedule reliable 100 false
          (new_session
             (admin.tables (snd (admin.delete_driver 9 1 (admin.mkStore sample_db []))))) with
  | (Ok (t :: _), _) => trip_driver_id t <> 1
  | _ => False
  end.
Proof.
  destruct (generate_daily_schedule reliable 100 false
              (new_session
                 (admin.tables (snd (admin.delete_driver 9 1 (admin.mkStore sample_db []))))))
    as [[[| t rest] | e] s'] eqn:Hrun.
  - vm_compute in Hrun. discriminate Hrun.
  - exact (proj1 (deactivated_never_scheduled reliable 100 false _ (t :: rest) s' t
                    Hrun (or_introl eq_refl))
             9 1 (admin.mkStore sample_db []) "Driver deactivated"%string eq_refl).
  - vm_compute in Hrun. discriminate Hrun.
Defined.

End soft_deletes.

(** ** Who passes the role checks *)

Section role_checks.
Import deps.

Lemma UserRole_eqb_eq a b : UserRole_eqb a b = true <-> a = b.
Proof. destruct a, b; simpl; split; congruence. Qed.

Lemma existsb_role role roles :
  existsb (UserRole_eqb role) roles = true <-> In role roles.
Proof.
  rewrite existsb_exists. split.
  - intros (r & Hin & Heq). apply UserRole_eqb_eq in Heq. subst. exact Hin.
  - intros Hin. exists role. split; [exact Hin | apply UserRole_eqb_eq; reflexivity].
Qed.

Lemma role_check_passes required_roles user :
  (exists u, get_current_user_with_role required_roles user = Returned u)
  <-> user_is_active user = true
      /\ (In (user_role user) required_roles \/ user_role user = ADMIN).
Proof.
  unfold get_current_user_with_role, get_current_active_user, role_checker.
  destruct (user_is_active user); cbn [negb].
  - destruct (existsb _ required_roles) eqn:Hin; cbn [negb].
    + apply existsb_role in Hin. split; [auto | eauto].
    + destruct (UserRole_eqb (user_role user) ADMIN) eqn:Hadmin.
      * apply UserRole_eqb_eq in Hadmin. split; [auto | eauto].
      * split; [intros [u Hu]; discriminate |].
        intros [_ [Hr | Hr]].
        -- apply existsb_role in Hr. congruence.
        -- apply UserRole_eqb_eq in Hr. congruence.
  - split; [intros [u Hu]; discriminate | intros [Hf _]; discriminate].
Qed.

(** X15. Who passes a role check: the dependency returns, and then the
    user it was given, exactly when the user is active and has one of the
    required roles or is an ADMIN; an inactive user is refused with status
    400 whatever the role, and an active one without the role with 403. *)
Theorem role_check_outcome (required_roles : list UserRole) (user : User) :
  match get_current_user_with_role required_roles user with
  | Returned u =>
      u = user /\ user_is_active user = true
      /\ (In (user_role user) required_roles \/ user_role user = ADMIN)
  | Refused e =>
      (status_code e = 400 /\ user_is_active user = false)
      \/ (status_code e = 403 /\ user_is_active user = true
          /\ ~ In (user_role user) required_roles /\ user_role user <> ADMIN)
  | Unhandled _ => False
  end.
Proof.
  unfold get_current_user_with_role, get_current_active_user, role_checker.
  destruct (user_is_active user); cbn [negb]; [| left; auto].
  destruct (existsb _ required_roles) eqn:Hin; cbn [negb].
  - apply existsb_role in Hin. auto.
  - destruct (UserRole_eqb (user_role user) ADMIN) eqn:Hadmin.
    + apply UserRole_eqb_eq in Hadmin. auto.
    + right. repeat split.
      * intros Hr. apply existsb_role in Hr. congruence.
      * intros Hr. apply UserRole_eqb_eq in Hr. congruence.
Qed.

(** X16. The admin router is for administrators only: a request to one of
    its path operations passes the router's ADMIN check and the operation's
    own check exactly when the user is an active ADMIN, whatever roles the
    operation lists; the DRIVER role [create_ticket] lists lets no driver
    in. *)
Theorem admin_router_for_admins_only (operation_roles : list UserRole)
    (user : User) :
  (exists u, guarded [ADMIN] operation_roles user = Returned u)
  <-> user_is_active user = true /\ user_role user = ADMIN.
Proof.
  unfold guarded. split.
  - intros [u Hu].
    destruct (get_current_user_with_role [ADMIN] user) as [u0 | e | error] eqn:Hrouter;
      try discriminate.
    assert (Hpass : exists u, get_current_user_with_role [ADMIN] user = Returned u)
      by eauto.
    apply role_check_passes in Hpass. destruct Hpass as [Hactive [[Hr | []] | Hr]]; auto.
  - intros [Hactive Hadmin].
    assert (Hrouter : exists u, get_current_user_with_role [ADMIN] user = Returned u)
      by (apply role_check_passes; auto).
    destruct Hrouter as [u0 ->].
    apply role_check_passes. auto.
Qed.

End role_checks.

(** ** The break requests of the driver API *)

Section break_endpoints.
Import break_service break_status driver_api.

Lemma filter_write_back {A} (key : A -> Z) (P : A -> bool) (row row' : A) :
  key row' = key row -> P row' = true ->
  forall rows,
    NoDup (map key rows) ->
    filter P rows = [row] ->
    filter P (write_back key row' rows) = [row'].
Proof.
  intros Hkey HP. unfold write_back. rewrite Hkey.
  induction rows as [| r rows IH]; cbn [map filter]; [discriminate |].
  intros Hnd Hfilter. inversion Hnd as [| ? ? Hnotin Hnd']; subst.
  destruct (P r) eqn:HPr.
  - injection Hfilter as -> Hrest. rewrite Z.eqb_refl, HP. f_equal.
    clear IH Hnd Hnd'. induction rows as [| x rows IHrows]; [reflexivity |].
    cbn [map filter] in *.
    destruct (P x) eqn:HPx; [discriminate |].
    destruct (Z.eqb_spec (key x) (key row)) as [Heq | _].
    + exfalso. apply Hnotin. left. exact Heq.
    + rewrite HPx. apply IHrows; [exact Hrest |].
      intros Hin. apply Hnotin. right. exact Hin.
  - assert (Hin : In row rows).
    { assert (H : In row (filter P rows)) by (rewrite Hfilter; left; reflexivity).
      apply filter_In in H. tauto. }
    destruct (Z.eqb_spec (key r) (key row)) as [Heq | _].
    + exfalso. apply Hnotin. rewrite Heq. apply in_map. exact Hin.
    + rewrite HPr. apply IH; assumption.
Qed.

Lemma scalar_one_Returned {A} (rows : list A) (row : A) :
  scalar_one rows = Returned row <-> rows = [row].
Proof.
  unfold scalar_one. destruct rows as [| x [| y rest]]; split; intros H;
    try discriminate; congruence.
Qed.

Lemma start_break_keeps_identity settings now db driver break_log driver' db' :
  start_break settings now db driver = Ok (break_log, driver', db') ->
  driver_id driver' = driver_id driver
  /\ driver_user_id driver' = driver_user_id driver.
Proof.
  unfold start_break.
  destruct (_ <? _); [discriminate |]. destruct (_ <=? _); [discriminate |].
  cbn [add_break_log]. intros [= _ <- _]. split; reflexivity.
Qed.

Lemma start_break_returns settings now db driver break_log driver' db' :
  start_break settings now db driver = Ok (break_log, driver', db') ->
  bl_driver_id break_log = driver_id driver
  /\ start_time break_log = now
  /\ end_time break_log = None
  /\ break_logs db' = break_logs db ++ [break_log]
  /\ driver_id driver' = driver_id driver
  /\ driver_status driver' = ON_BREAK
  /\ break_start_time driver' = Some now.
Proof.
  unfold start_break.
  destruct (_ <? _); [discriminate |]. destruct (_ <=? _); [discriminate |].
  cbn [add_break_log]. intros [= <- <- <-]. repeat split.
Qed.

Lemma end_break_keeps_identity now db driver driver' db' :
  end_break now db driver = Ok (driver', db') ->
  driver_id driver' = driver_id driver
  /\ driver_user_id driver' = driver_user_id driver.
Proof.
  unfold end_break.
  destruct (DriverStatus_eqb (driver_status driver) ON_BREAK); [| discriminate].
  destruct (break_start_time driver) as [started |]; [| discriminate].
  intros [= <- _]. split; reflexivity.
Qed.

Lemma my_driver_user uid st driver :
  my_driver uid st = Returned driver -> driver_user_id driver = uid.
Proof.
  unfold my_driver. intros H. apply scalar_one_Returned in H.
  assert (Hin : In driver (filter (fun d => driver_user_id d =? uid) (driver_rows st)))
    by (rewrite H; left; reflexivity).
  apply filter_In in Hin. destruct Hin as [_ Hin]. apply Z.eqb_eq. exact Hin.
Qed.

(** X17. The answer to a start request of a user with one driver row: the
    log of the break when the status report calls the driver eligible, the
    row being written back ON_BREAK; status 400 with the message of the
    service otherwise, the store being left as it was. *)
Theorem request_start_break_outcome (settings : Settings) (now : datetime)
    (uid : Z) (st : Store) (driver : Driver) :
  my_driver uid st = Returned driver ->
  match request_start_break settings now uid st with
  | (Returned log, st') =>
      bs_is_eligible (get_break_status settings driver) = true
      /\ bl_driver_id log = driver_id driver
      /\ start_time log = now
      /\ end_time log = None
      /\ break_logs (breaks st') = break_logs (breaks st) ++ [log]
      /\ exists driver',
           In driver' (driver_rows st')
           /\ driver_id driver' = driver_id driver
           /\ driver_status driver' = ON_BREAK
           /\ break_start_time driver' = Some now
  | (Refused e, st') =>
      bs_is_eligible (get_break_status settings driver) = false
      /\ status_code e = 400
      /\ (detail e = "Not enough trips completed to take a break"%string
          \/ detail e = "No break time remaining"%string)
      /\ st' = st
  | (Unhandled _, _) => False
  end.
Proof.
  intros Hmine. unfold request_start_break. rewrite Hmine.
  pose proof (start_break_outcome settings now (breaks st) driver) as Hout.
  destruct (start_break settings now (breaks st) driver)
    as [[[log driver'] breaks'] | e] eqn:Hstart.
  - destruct (start_break_returns _ _ _ _ _ _ _ Hstart)
      as (Hlog & Hat & Hend & Hlogs & Hid & Hstatus & Hbst).
    split; [exact Hout |]. repeat (split; [assumption |]).
    exists driver'. split; [| auto].
    unfold my_driver in Hmine. apply scalar_one_Returned in Hmine.
    assert (Hin : In driver (driver_rows st)).
    { assert (H : In driver (filter (fun d => driver_user_id d =? uid) (driver_rows st)))
        by (rewrite Hmine; left; reflexivity).
      apply filter_In in H. tauto. }
    cbn [driver_rows]. unfold write_back. apply in_map_iff.
    exists driver. split; [| exact Hin].
    rewrite Hid, Z.eqb_refl. reflexivity.
  - destruct Hout as [Hno ->].
    destruct (_ <? _); cbn; auto.
Qed.

Lemma request_start_break_outcome_witness :
  match request_start_break default_settings 1000 70
          (mkStore [driver_on_trip] empty_store) with
  | (Returned log, st') =>
      bs_is_eligible (get_break_status default_settings driver_on_trip) = true
      /\ bl_driver_id log = driver_id driver_on_trip
      /\ start_time log = 1000
      /\ end_time log = None
      /\ break_logs (breaks st') = break_logs empty_store ++ [log]
      /\ exists driver',
           In driver' (driver_rows st')
           /\ driver_id driver' = driver_id driver_on_trip
           /\ driver_status driver' = ON_BREAK
           /\ break_start_time driver' = Some 1000
  | (Refused e, st') =>
      bs_is_eligible (get_break_status default_settings driver_on_trip) = false
      /\ status_code e = 400
      /\ (detail e = "Not enough trips completed to take a break"%string
          \/ detail e = "No break time remaining"%string)
      /\ st' = mkStore [driver_on_trip] empty_store
  | (Unhandled _, _) => False
  end.
Proof.
  exact (request_start_break_outcome default_settings 1000 70
           (mkStore [driver_on_trip] empty_store) driver_on_trip eq_refl).
Defined.

(** X18. A break through the API: when driver keys are unique and no log
    of the driver is open, a start request answered with a log at [t0] and
    an end request of the same user at [t1] leave the user's one driver row
    ACTIVE with the break start cleared, the trip counter at 0 and the
    budget lowered by [t1 - t0] and floored at 0; the end request returns
    that row, and no log of the driver is left open. *)
Theorem break_requests_round_trip (settings : Settings) (t0 t1 : datetime)
    (uid : Z) (st : Store) (driver : Driver) (log : BreakLog) (st1 : Store) :
  NoDup (map driver_id (driver_rows st)) ->
  my_driver uid st = Returned driver ->
  open_logs (driver_id driver) (break_logs (breaks st)) = [] ->
  request_start_break settings t0 uid st = (Returned log, st1) ->
  exists driver2 st2,
    request_end_break t1 uid st1 = (Returned driver2, st2)
    /\ my_driver uid st2 = Returned driver2
    /\ driver_id driver2 = driver_id driver
    /\ driver_status driver2 = ACTIVE
    /\ break_start_time driver2 = None
    /\ trips_since_last_break driver2 = 0
    /\ break_time_remaining driver2
       = Z.max 0 (break_time_remaining driver - (t1 - t0))
    /\ total_break_time_today driver2 = total_break_time_today driver + (t1 - t0)
    /\ open_logs (driver_id driver) (break_logs (breaks st2)) = []
    /\ In (close_log t1 (t1 - t0) log) (break_logs (breaks st2)).
Proof.
  intros Hnd Hmine Hnone. unfold request_start_break. rewrite Hmine.
  destruct (start_break settings t0 (breaks st) driver)
    as [[[log0 driver1] breaks1] | e] eqn:Hstart;
    [| destruct e; discriminate].
  intros [= <- <-].
  destruct (start_break_keeps_identity _ _ _ _ _ _ _ Hstart) as [Hid1 Huser1].
  pose proof (my_driver_user _ _ _ Hmine) as Huid.
  assert (Hmine1 : my_driver uid
                     {| driver_rows := write_back driver_id driver1 (driver_rows st);
                        breaks := breaks1 |} = Returned driver1).
  { unfold my_driver. apply scalar_one_Returned. cbn [driver_rows].
    apply (filter_write_back driver_id _ driver driver1 Hid1);
      [apply Z.eqb_eq; congruence | exact Hnd |].
    apply scalar_one_Returned. exact Hmine. }
  assert (Hnd1 : NoDup (map driver_id (write_back driver_id driver1 (driver_rows st)))).
  { unfold write_back. rewrite map_map.
    erewrite map_ext; [exact Hnd |].
    intros r. cbn. destruct (Z.eqb_spec (driver_id r) (driver_id driver1)); congruence. }
  destruct (break_round_trip_rows settings t0 t1 (breaks st) driver log0 driver1 breaks1
              Hnone Hstart)
    as (driver2 & breaks2 & Hend & Hstatus & Hbst & Htrips & _ & Hrem & Htotal & Hin
        & Hopen & _).
  destruct (end_break_keeps_identity _ _ _ _ _ Hend) as [Hid2 Huser2].
  unfold request_end_break. rewrite Hmine1. cbn [breaks driver_rows]. rewrite Hend.
  eexists _, _. split; [reflexivity |].
  split.
  { unfold my_driver. apply scalar_one_Returned. cbn [driver_rows].
    apply (filter_write_back driver_id _ driver1 driver2 Hid2);
      [apply Z.eqb_eq; congruence | exact Hnd1 |].
    apply scalar_one_Returned. exact Hmine1. }
  cbn [breaks]. repeat (split; [congruence |]).
  exact Hin.
Qed.

Lemma break_requests_round_trip_witness :
  match request_start_break default_settings 1000 70
          (mkStore [driver_on_trip] empty_store) with
  | (Returned log, st1) =>
      exists driver2 st2,
        request_end_break 1030 70 st1 = (Returned driver2, st2)
        /\ my_driver 70 st2 = Returned driver2
        /\ driver_id driver2 = driver_id driver_on_trip
        /\ driver_status driver2 = ACTIVE
        /\ break_start_time driver2 = None
        /\ trips_since_last_break driver2 = 0
        /\ break_time_remaining driver2
           = Z.max 0 (break_time_remaining driver_on_trip - (1030 - 1000))
        /\ total_break_time_today driver2
           = total_break_time_today driver_on_trip + (1030 - 1000)
        /\ open_logs (driver_id driver_on_trip) (break_logs (breaks st2)) = []
        /\ In (close_log 1030 (1030 - 1000) log) (break_logs (breaks st2))
  | _ => False
  end.
Proof.
  destruct (request_start_break default_settings 1000 70
              (mkStore [driver_on_trip] empty_store))
    as [[log | e | error] st1] eqn:Hstart.
  - apply (break_requests_round_trip default_settings 1000 1030 70
             (mkStore [driver_on_trip] empty_store) driver_on_trip log st1);
      [repeat constructor; intros [] | reflexivity | reflexivity | exact Hstart].
  - vm_compute in Hstart. discriminate Hstart.
  - vm_compute in Hstart. discriminate Hstart.
Defined.

End break_endpoints.

(** ** Selling tickets *)

Section selling_tickets.
Import ticket_desk.

(** What a request does to the store: nothing, or one ticket more for a
    trip with a free place and for a seat no ticket of the trip has. *)
Lemma create_ticket_cases user ticket_in st :
  (snd (create_ticket user ticket_in st) = st
   /\ forall ticket, fst (create_ticket user ticket_in st) <> Returned ticket)
  \/ exists trip vehicle ticket,
       get trip_id (trips st) (tc_trip_id ticket_in) = Some trip
       /\ get vehicle_id (vehicles st) (trip_vehicle_id trip) = Some vehicle
       /\ Z.of_nat (length (sold_for (tc_trip_id ticket_in) (tickets st)))
          < vehicle_capacity vehicle
       /\ seated_at (tc_trip_id ticket_in) (tc_seat_number ticket_in) (tickets st) = []
       /\ sold_trip_id ticket = tc_trip_id ticket_in
       /\ sold_seat_number ticket = tc_seat_number ticket_in
       /\ create_ticket user ticket_in st
          = (Returned ticket,
             {| trips := trips st; vehicles := vehicles st; drivers := drivers st;
                tickets := tickets st ++ [ticket];
                next_ticket_id := next_ticket_id st + 1 |}).
Proof.
  unfold create_ticket.
  destruct (get trip_id (trips st) (tc_trip_id ticket_in)) as [trip |] eqn:Htrip;
    [| left; split; [reflexivity | discriminate]].
  destruct (ownership_check user trip st) as [refusal |] eqn:Hown.
  { left. split; [reflexivity |]. cbn [fst]. intros ticket ->.
    unfold ownership_check in Hown.
    destruct (deps.UserRole_eqb _ _); [| discriminate].
    destruct (driver_api.scalar_one _); [| discriminate | discriminate].
    destruct (negb _); discriminate. }
  destruct (get vehicle_id (vehicles st) (trip_vehicle_id trip)) as [vehicle |] eqn:Hvehicle;
    [| left; split; [reflexivity | discriminate]].
  cbv zeta.
  destruct (Z.leb_spec (vehicle_capacity vehicle)
              (Z.of_nat (length (sold_for (tc_trip_id ticket_in) (tickets st)))))
    as [Hfull | Hfree]; [left; split; [reflexivity | discriminate] |].
  destruct (seated_at (tc_trip_id ticket_in) (tc_seat_number ticket_in) (tickets st))
    as [| t1 [| t2 rest]] eqn:Hseat; cbn [scalar_one_or_none];
    [| left; split; [reflexivity | discriminate]
     | left; split; [reflexivity | discriminate]].
  right.
  exists trip, vehicle,
    {| sold_id := next_ticket_id st;
       sold_trip_id := tc_trip_id ticket_in;
       sold_passenger_name := tc_passenger_name ticket_in;
       sold_seat_number := tc_seat_number ticket_in;
       sold_price := tc_price ticket_in;
       sold_status := tc_status ticket_in |}.
  repeat split; try reflexivity; assumption.
Qed.

Lemma sold_for_app id l1 l2 : sold_for id (l1 ++ l2) = sold_for id l1 ++ sold_for id l2.
Proof. apply filter_app. Qed.

Lemma seated_at_app id seat l1 l2 :
  seated_at id seat (l1 ++ l2) = seated_at id seat l1 ++ seated_at id seat l2.
Proof. apply filter_app. Qed.

Lemma seat_eqb_eq a b : seat_eqb a b = true <-> a = b.
Proof.
  destruct a as [x |], b as [y |]; cbn; try (split; congruence).
  rewrite String.eqb_eq. split; congruence.
Qed.



(** X19. Selling keeps every trip within the capacity of its vehicle:
    whatever a [create_ticket] request answers, a store in which no trip
    holds more tickets than its vehicle has places is left in such a store.
    Every ticket of the trip counts, whatever its status. *)
Theorem create_ticket_keeps_capacity (user : deps.User) (ticket_in : TicketCreate)
    (st : Store) :
  within_capacity st -> within_capacity (snd (create_ticket user ticket_in st)).
Proof.
  intros Hinv.
  destruct (create_ticket_cases user ticket_in st)
    as [[-> _] | (trip & vehicle & ticket & Htrip & Hvehicle & Hfree & _ & Hid & _ & ->)];
    [exact Hinv |].
  intros id trip' vehicle'. cbn [snd trips vehicles tickets].
  intros Htrip' Hvehicle'. specialize (Hinv id trip' vehicle' Htrip' Hvehicle').
  rewrite sold_for_app, length_app. cbn [sold_for filter]. rewrite Hid.
  destruct (Z.eqb_spec (tc_trip_id ticket_in) id) as [<- | _]; cbn [length].
  - rewrite Htrip in Htrip'. injection Htrip' as <-.
    rewrite Hvehicle in Hvehicle'. injection Hvehicle' as <-. lia.
  - lia.
Qed.

(** X20. Selling keeps seats unique: whatever a [create_ticket] request
    answers, a store in which no two tickets of a trip have the same seat is
    left in such a store; the absent seat counts as a seat, so a trip gets at
    most one ticket without a seat number. *)
Theorem create_ticket_keeps_seats_unique (user : deps.User) (ticket_in : TicketCreate)
    (st : Store) :
  seats_unique st -> seats_unique (snd (create_ticket user ticket_in st)).
Proof.
  intros Hinv.
  destruct (create_ticket_cases user ticket_in st)
    as [[-> _] | (trip & vehicle & ticket & _ & _ & _ & Hseat & Hid & Hs & ->)];
    [exact Hinv |].
  intros id seat. cbn [snd tickets].
  rewrite seated_at_app, length_app. cbn [seated_at filter]. rewrite Hid, Hs.
  destruct ((tc_trip_id ticket_in =? id) && seat_eqb (tc_seat_number ticket_in) seat)
    eqn:Hsame; cbn [length].
  - apply andb_true_iff in Hsame. destruct Hsame as [Hi Hse].
    apply Z.eqb_eq in Hi. apply seat_eqb_eq in Hse. subst id seat.
    fold (seated_at (tc_trip_id ticket_in) (tc_seat_number ticket_in) (tickets st)).
    rewrite Hseat. cbn. lia.
  - specialize (Hinv id seat). lia.
Qed.

(** X21. A seat once sold stays taken: when a ticket of the trip has the
    seat of the request, the absent seat included and whatever the status of
    that ticket, the request is not answered with a ticket and the store is
    left as it was. *)
Theorem sold_seat_stays_taken (user : deps.User) (ticket_in : TicketCreate)
    (st : Store) (t : SoldTicket) :
  In t (tickets st) ->
  sold_trip_id t = tc_trip_id ticket_in ->
  sold_seat_number t = tc_seat_number ticket_in ->
  snd (create_ticket user ticket_in st) = st
  /\ forall ticket, fst (create_ticket user ticket_in st) <> Returned ticket.
Proof.
  intros Hin Hid Hseat.
  destruct (create_ticket_cases user ticket_in st)
    as [Hsame | (trip & vehicle & ticket & _ & _ & _ & Hnone & _)]; [exact Hsame |].
  exfalso.
  assert (H : In t (seated_at (tc_trip_id ticket_in) (tc_seat_number ticket_in)
                      (tickets st))).
  { apply filter_In. split; [exact Hin |].
    apply andb_true_iff. split; [apply Z.eqb_eq; exact Hid | apply seat_eqb_eq; exact Hseat]. }
  rewrite Hnone in H. exact H.
Qed.

Lemma small_bus_within_capacity : within_capacity small_bus_desk.
Proof.
  intros id trip vehicle Htrip Hvehicle.
  pose proof (get_key _ _ _ _ Htrip) as Hid.
  unfold get, small_bus_desk in Htrip. cbn [trips find trip_id] in Htrip.
  destruct (1 =? id); [| discriminate].
  injection Htrip as <-. cbn in Hvehicle. injection Hvehicle as <-.
  cbn in Hid. subst id. cbn. lia.
Qed.

Lemma small_bus_seats_unique : seats_unique small_bus_desk.
Proof.
  intros id seat. unfold seated_at, small_bus_desk.
  cbn [tickets filter sold_trip_id sold_seat_number].
  destruct (_ && _); cbn [length]; lia.
Qed.

Lemma create_ticket_keeps_capacity_witness :
  within_capacity small_bus_desk
  /\ within_capacity
       (snd (create_ticket (deps.mkUser 1 deps.ADMIN true)
               (mkTicketCreate 1 None (Some "1B"%string) 20 ISSUED) small_bus_desk)).
Proof.
  split; [exact small_bus_within_capacity |].
  apply create_ticket_keeps_capacity. exact small_bus_within_capacity.
Defined.

Lemma create_ticket_keeps_seats_unique_witness :
  seats_unique small_bus_desk
  /\ seats_unique
       (snd (create_ticket (deps.mkUser 1 deps.ADMIN true)
               (mkTicketCreate 1 None (Some "1B"%string) 20 ISSUED) small_bus_desk)).
Proof.
  split; [exact small_bus_seats_unique |].
  apply create_ticket_keeps_seats_unique. exact small_bus_seats_unique.
Defined.

Lemma sold_seat_stays_taken_witness :
  snd (create_ticket (deps.mkUser 1 deps.ADMIN true)
         (mkTicketCreate 1 None (Some "1A"%string) 20 ISSUED) small_bus_desk)
  = small_bus_desk
  /\ forall ticket,
       fst (create_ticket (deps.mkUser 1 deps.ADMIN true)
              (mkTicketCreate 1 None (Some "1A"%string) 20 ISSUED) small_bus_desk)
       <> Returned ticket.
Proof.
  apply (sold_seat_stays_taken (deps.mkUser 1 deps.ADMIN true)
           (mkTicketCreate 1 None (Some "1A"%string) 20 ISSUED) small_bus_desk
           (mkSoldTicket 1 1 None (Some "1A"%string) 20 CANCELLED));
    [left; reflexivity | reflexivity | reflexivity].
Defined.

End selling_tickets.

(** ** The daily job and a failing store *)

Section job_failures.
Import rotation_service.

(** X22. The daily job contains the failures of the generator: it returns
    [None] whatever the store refuses, and when the generator raises, the
    database is left as the job found it. *)
Theorem daily_job_contains_failures (faulty : nat -> bool) (today : date) (db : DB) :
  fst (in_session (scheduler.scheduled_daily_generation faulty today) db) = Ok tt
  /\ forall e s',
       generate_daily_schedule faulty today false (new_session db) = (Raise e, s') ->
       scheduler.run_job faulty today db = db.
Proof.
  unfold scheduler.run_job, in_session, scheduler.scheduled_daily_generation,
    try_except, bind, ret.
  destruct (generate_daily_schedule faulty today false (new_session db))
    as [[trips | e] s'] eqn:Hrun; cbn [fst snd]; (split; [reflexivity |]).
  - discriminate.
  - intros e0 s0 _.
    destruct (all_or_nothing_generate faulty today false _ _ _ Hrun) as [Hraise _].
    exact (Hraise e eq_refl).
Qed.

End job_failures.

(** ** The connection registry *)

Section registry.
Import notification_service.

Lemma lookup_None_keys user_id c :
  lookup user_id c = None <-> ~ In user_id (map fst c).
Proof.
  induction c as [| [k l] rest IH]; cbn [lookup map fst In]; [tauto |].
  destruct (Z.eqb_spec k user_id) as [-> | Hneq].
  - split; [discriminate | intros H; exfalso; apply H; left; reflexivity].
  - rewrite IH. tauto.
Qed.

Lemma lookup_In user_id c l : lookup user_id c = Some l -> In (user_id, l) c.
Proof.
  induction c as [| [k l0] rest IH]; cbn [lookup]; [discriminate |].
  destruct (Z.eqb_spec k user_id) as [-> | _].
  - intros [= ->]. left. reflexivity.
  - intros H. right. apply IH. exact H.
Qed.

Lemma change_keys user_id f c : map fst (change user_id f c) = map fst c.
Proof.
  induction c as [| [k l] rest IH]; cbn [change map fst]; [reflexivity |].
  destruct (k =? user_id); cbn [map fst]; [reflexivity | rewrite IH; reflexivity].
Qed.

Lemma change_Forall (P : Z * list WebSocket -> Prop) user_id f c :
  (forall k l, In (k, l) c -> k <> user_id -> P (k, l)) ->
  (forall l, In (user_id, l) c -> P (user_id, f l)) ->
  NoDup (map fst c) ->
  Forall P (change user_id f c).
Proof.
  induction c as [| [k l] rest IH]; cbn [change map fst]; intros Hother Hf Hnd;
    [constructor |].
  inversion Hnd as [| ? ? Hnotin Hrest]; subst.
  destruct (Z.eqb_spec k user_id) as [-> | Hneq].
  - constructor; [apply Hf; left; reflexivity |].
    apply Forall_forall. intros [k0 l0] Hin. apply Hother; [right; exact Hin |].
    intros ->. apply Hnotin. change user_id with (fst (user_id, l0)).
    apply in_map. exact Hin.
  - constructor; [apply Hother; [left; reflexivity | exact Hneq] |].
    apply IH; [| | exact Hrest].
    + intros k0 l0 Hin. apply Hother. right. exact Hin.
    + intros l0 Hin. apply Hf. right. exact Hin.
Qed.

Lemma del_keys_incl user_id c x : In x (map fst (del user_id c)) -> In x (map fst c).
Proof.
  induction c as [| [k l] rest IH]; cbn [del map fst In]; [tauto |].
  destruct (k =? user_id); cbn [map fst In]; tauto.
Qed.

Lemma del_NoDup user_id c : NoDup (map fst c) -> NoDup (map fst (del user_id c)).
Proof.
  induction c as [| [k l] rest IH]; cbn [del map fst]; intros Hnd; [constructor |].
  inversion Hnd as [| ? ? Hnotin Hrest]; subst.
  destruct (k =? user_id); [exact Hrest |].
  cbn [map fst]. constructor; [| apply IH; exact Hrest].
  intros Hin. apply Hnotin. eapply del_keys_incl. exact Hin.
Qed.

Lemma del_Forall (P : Z * list WebSocket -> Prop) user_id c :
  Forall P c -> Forall P (del user_id c).
Proof.
  induction c as [| [k l] rest IH]; cbn [del]; intros Hall; [constructor |].
  inversion Hall as [| ? ? Hp Hrest]; subst.
  destruct (k =? user_id); [exact Hrest | constructor; auto].
Qed.

Lemma NoDup_snoc (keys : list Z) (k : Z) :
  NoDup keys -> ~ In k keys -> NoDup (keys ++ [k]).
Proof.
  induction keys as [| x keys IH]; cbn [app]; intros Hnd Hnotin.
  - constructor; [intros [] | constructor].
  - inversion Hnd as [| ? ? Hx Hrest]; subst.
    constructor; [| apply IH; [exact Hrest | intros H; apply Hnotin; right; exact H]].
    intros Hin. apply in_app_or in Hin. destruct Hin as [Hin | [Heq | []]];
      [contradiction | apply Hnotin; left; exact (eq_sym Heq)].
Qed.

Lemma connect_well_formed websocket user_id c :
  well_formed c -> well_formed (connect websocket user_id c).
Proof.
  intros [Hnd Hall]. unfold connect, well_formed. rewrite change_keys.
  rewrite Forall_forall in Hall.
  assert (Hgrown : forall l : list WebSocket, l ++ [websocket] <> [])
    by (intros l; destruct l; discriminate).
  destruct (lookup user_id c) as [l |] eqn:Hl.
  - split; [exact Hnd |]. apply change_Forall; [| | exact Hnd].
    + intros k l0 Hin _. apply (Hall (k, l0) Hin).
    + intros l0 _. apply Hgrown.
  - apply lookup_None_keys in Hl.
    assert (Hnd1 : NoDup (map fst (c ++ [(user_id, @nil WebSocket)]))).
    { rewrite map_app. cbn [map fst]. apply NoDup_snoc; assumption. }
    split; [exact Hnd1 |]. apply change_Forall; [| | exact Hnd1].
    + intros k l0 Hin Hneq. apply in_app_or in Hin.
      destruct Hin as [Hin | [[= -> _] | []]];
        [apply (Hall (k, l0) Hin) | contradiction].
    + intros l0 _. apply Hgrown.
Qed.

Lemma remove_first_incl websocket l x : In x (remove_first websocket l) -> In x l.
Proof.
  induction l as [| y rest IH]; cbn [remove_first]; [tauto |].
  destruct (Nat.eqb websocket y); cbn [In]; tauto.
Qed.

Lemma disconnect_well_formed websocket user_id c :
  well_formed c -> well_formed (disconnect websocket user_id c).
Proof.
  intros [Hnd Hall]. unfold disconnect.
  destruct (lookup user_id c) as [l |] eqn:Hl; [| split; assumption].
  destruct (if mem_socket websocket l then remove_first websocket l else l)
    as [| x rest] eqn:Hleft.
  - split; [apply del_NoDup; exact Hnd | apply del_Forall; exact Hall].
  - unfold well_formed. rewrite change_keys. split; [exact Hnd |].
    rewrite Forall_forall in Hall.
    apply change_Forall; [| | exact Hnd].
    + intros k l0 Hin _. apply (Hall (k, l0) Hin).
    + intros l0 _. discriminate.
Qed.

(** X23. The registry stays well formed: after a [connect] or a
    [disconnect], every user of the registry is there once and has at least
    one socket, as in the empty registry the manager starts with. *)
Theorem registry_well_formed (websocket : WebSocket) (user_id : Z) (c : Connections) :
  well_formed c ->
  well_formed (connect websocket user_id c)
  /\ well_formed (disconnect websocket user_id c).
Proof.
  intros Hwf. split;
    [apply connect_well_formed | apply disconnect_well_formed]; exact Hwf.
Qed.

Lemma registry_well_formed_witness :
  well_formed (connect 1%nat 7 []) /\ well_formed (disconnect 1%nat 7 []).
Proof.
  apply (registry_well_formed 1%nat 7 []).
  split; constructor.
Defined.

Lemma lookup_app_new user_id c l :
  lookup user_id c = None -> lookup user_id (c ++ [(user_id, l)]) = Some l.
Proof.
  induction c as [| [k l0] rest IH]; cbn [lookup app].
  - rewrite Z.eqb_refl. reflexivity.
  - destruct (k =? user_id); [discriminate | exact IH].
Qed.

Lemma change_app_new user_id f c l :
  lookup user_id c = None ->
  change user_id f (c ++ [(user_id, l)]) = c ++ [(user_id, f l)].
Proof.
  induction c as [| [k l0] rest IH]; cbn [lookup change app].
  - rewrite Z.eqb_refl. reflexivity.
  - destruct (k =? user_id); [discriminate |]. intros H. rewrite IH by exact H.
    reflexivity.
Qed.

Lemma del_app_new user_id c l :
  lookup user_id c = None -> del user_id (c ++ [(user_id, l)]) = c.
Proof.
  induction c as [| [k l0] rest IH]; cbn [lookup del app].
  - rewrite Z.eqb_refl. reflexivity.
  - destruct (k =? user_id); [discriminate |]. intros H. rewrite IH by exact H.
    reflexivity.
Qed.

Lemma lookup_change user_id f c l :
  lookup user_id c = Some l -> lookup user_id (change user_id f c) = Some (f l).
Proof.
  induction c as [| [k l0] rest IH]; cbn [lookup change]; [discriminate |].
  destruct (k =? user_id) eqn:Hk; cbn [lookup]; rewrite Hk.
  - intros [= ->]. reflexivity.
  - exact IH.
Qed.

Lemma change_back user_id f c l :
  lookup user_id c = Some l ->
  change user_id (fun _ => l) (change user_id f c) = c.
Proof.
  induction c as [| [k l0] rest IH]; cbn [lookup change]; [discriminate |].
  destruct (k =? user_id) eqn:Hk; cbn [change]; rewrite Hk.
  - intros [= ->]. reflexivity.
  - intros H. rewrite IH by exact H. reflexivity.
Qed.

Lemma mem_socket_last websocket l : mem_socket websocket (l ++ [websocket]) = true.
Proof.
  unfold mem_socket. rewrite existsb_app. cbn. rewrite Nat.eqb_refl.
  apply orb_true_iff. right. reflexivity.
Qed.

Lemma remove_first_last websocket l :
  ~ In websocket l -> remove_first websocket (l ++ [websocket]) = l.
Proof.
  induction l as [| x rest IH]; cbn [remove_first app In]; intros Hnotin.
  - rewrite Nat.eqb_refl. reflexivity.
  - destruct (Nat.eqb_spec websocket x) as [-> | _]; [tauto |].
    rewrite IH by tauto. reflexivity.
Qed.

(** X24. A socket connected and then disconnected leaves the registry as
    it was, entries and order, when the registry is well formed and the
    socket was not already among those of the user. *)
Theorem connect_then_disconnect (websocket : WebSocket) (user_id : Z)
    (c : Connections) :
  well_formed c ->
  (forall l, lookup user_id c = Some l -> ~ In websocket l) ->
  disconnect websocket user_id (connect websocket user_id c) = c.
Proof.
  intros [_ Hall] Hnew. unfold connect, disconnect.
  destruct (lookup user_id c) as [l |] eqn:Hl.
  - rewrite (lookup_change _ _ _ _ Hl), mem_socket_last.
    rewrite remove_first_last by (apply Hnew; reflexivity).
    rewrite Forall_forall in Hall.
    pose proof (Hall _ (lookup_In _ _ _ Hl)) as Hsome. cbn [snd] in Hsome.
    destruct l as [| x rest]; [contradiction |].
    apply change_back. exact Hl.
  - rewrite (change_app_new _ _ _ _ Hl). cbn [app].
    rewrite (lookup_app_new _ _ _ Hl).
    cbn [mem_socket existsb]. rewrite Nat.eqb_refl. cbn [orb remove_first].
    rewrite Nat.eqb_refl. apply del_app_new. exact Hl.
Qed.

Lemma connect_then_disconnect_witness :
  disconnect 3%nat 7 (connect 3%nat 7 [(7, [1%nat; 2%nat]); (8, [4%nat])])
  = [(7, [1%nat; 2%nat]); (8, [4%nat])].
Proof.
  apply (connect_then_disconnect 3%nat 7 [(7, [1%nat; 2%nat]); (8, [4%nat])]).
  - split.
    + cbn. repeat (apply NoDup_cons;
        [cbn; intros H; repeat (destruct H as [H | H]; [discriminate H |]); exact H |]).
      apply NoDup_nil.
    + repeat constructor; discriminate.
  - cbn. intros l [= <-] H.
    repeat (destruct H as [H | H]; [discriminate H |]). exact H.
Defined.

End registry.

(** ** How many trips a route gets *)

Section trip_counts.
Import rotation_service.

Lemma trip_plan_length route a1 a2 end_time cycles : forall toggle,
  length (trip_plan route a1 a2 end_time cycles toggle)
  = Nat.add (length cycles)
      (length (filter (fun cycle =>
                         cycle + (estimated_time_minutes route
                                  + turnaround_time_minutes route) <? end_time)
                 cycles)).
Proof.
  induction cycles as [| c later IH]; intros toggle; [reflexivity |].
  cbn [trip_plan filter length]. rewrite length_app, IH.
  destruct (_ <? _); cbn [length]; lia.
Qed.

Lemma trip_plan_outbound route a1 a2 end_time cycles : forall toggle next,
  length (filter is_outbound
            (number_from next (trip_plan route a1 a2 end_time cycles toggle)))
  = length cycles.
Proof.
  intros toggle next.
  rewrite <- (length_map crew), crew_plan.
  revert toggle. induction cycles as [| c later IH]; intros toggle; [reflexivity |].
  cbn [crew_turns length]. rewrite IH. reflexivity.
Qed.

Lemma filter_none {A} (f : A -> bool) (l : list A) :
  Forall (fun x => f x = false) l -> filter f l = [].
Proof.
  induction 1 as [| x l Hx _ IH]; cbn [filter]; [reflexivity |].
  rewrite Hx. exact IH.
Qed.

Lemma route_trips_count d route d1 v1 d2 v2 db :
  length (filter is_outbound (route_trips d route d1 v1 d2 v2 db)) = 8%nat
  /\ (8 <= length (route_trips d route d1 v1 d2 v2 db) <= 16)%nat
  /\ (estimated_time_minutes route + turnaround_time_minutes route < 60 ->
      length (route_trips d route d1 v1 d2 v2 db) = 16%nat)
  /\ (480 <= estimated_time_minutes route + turnaround_time_minutes route ->
      length (route_trips d route d1 v1 d2 v2 db) = 8%nat).
Proof.
  unfold route_trips, route_assignments.
  rewrite trip_plan_outbound, number_from_length, trip_plan_length.
  set (late := fun cycle => _ <? _).
  match goal with
  | |- context [@length ?T (@filter ?U late ?l)] =>
      assert (Hle : (@length T (@filter U late l) <= 8)%nat)
        by exact (filter_length_le late (morning_cycles d))
  end.
  change (@length datetime (morning_cycles d)) with 8%nat.
  split; [reflexivity |]. split; [lia |]. split.
  - intros Hshort. rewrite (forallb_filter_id late (morning_cycles d)).
    + reflexivity.
    + unfold late, morning_cycles, datetime_combine, minutes_per_day. cbn [map forallb].
      repeat (apply andb_true_iff; split; [apply Z.ltb_lt; lia |]). reflexivity.
  - intros Hlong.
    assert (Hnone : filter late (morning_cycles d) = []).
    { apply filter_none.
      unfold late, morning_cycles, datetime_combine, minutes_per_day. cbn [map].
      repeat (constructor; [apply Z.ltb_ge; lia |]). constructor. }
    rewrite Hnone. reflexivity.
Qed.

(** X25. How many trips a route gets: when the scheduling of a route with
    two drivers and two vehicles returns, it returns eight outbound trips
    and between 8 and 16 trips in all: 16 when the running time and the
    turnaround together take less than an hour, 8 when they take eight hours
    or more. *)
Theorem route_trip_count (faulty : nat -> bool) (d : date) (route : Route)
    (route_drivers : list Driver) (route_vehicles : list Vehicle)
    (s : Session) (generated : list Trip) (s' : Session) :
  (2 <= length route_drivers)%nat ->
  (2 <= length route_vehicles)%nat ->
  schedule_route faulty d route route_drivers route_vehicles s = (Ok generated, s') ->
  length (filter is_outbound generated) = 8%nat
  /\ (8 <= length generated <= 16)%nat
  /\ (estimated_time_minutes route + turnaround_time_minutes route < 60 ->
      length generated = 16%nat)
  /\ (480 <= estimated_time_minutes route + turnaround_time_minutes route ->
      length generated = 8%nat).
Proof.
  intros Hd Hv Hrun.
  destruct (schedule_route_returns _ _ _ _ _ _ _ _ Hd Hv Hrun)
    as (d1 & d2 & rd & v1 & v2 & rv & _ & _ & -> & _).
  apply route_trips_count.
Qed.

Lemma route_trip_count_witness :
  match schedule_route reliable 100 riverside
          [sample_driver 1; sample_driver 2; sample_driver 3]
          [sample_vehicle 1; sample_vehicle 2] (new_session sample_db) with
  | (Ok generated, _) =>
      length (filter is_outbound generated) = 8%nat
      /\ (8 <= length generated <= 16)%nat
      /\ (estimated_time_minutes riverside + turnaround_time_minutes riverside < 60 ->
          length generated = 16%nat)
      /\ (480 <= estimated_time_minutes riverside + turnaround_time_minutes riverside ->
          length generated = 8%nat)
  | _ => False
  end.
Proof.
  destruct (schedule_route reliable 100 riverside
              [sample_driver 1; sample_driver 2; sample_driver 3]
              [sample_vehicle 1; sample_vehicle 2] (new_session sample_db))
    as [[generated | e] s'] eqn:Hrun.
  - apply (route_trip_count reliable 100 riverside
             [sample_driver 1; sample_driver 2; sample_driver 3]
             [sample_vehicle 1; sample_vehicle 2] (new_session sample_db) generated s');
      [simpl; lia | simpl; lia | exact Hrun].
  - vm_compute in Hrun. discriminate Hrun.
Defined.

End trip_counts.

(** ** Regeneration with too few drivers or vehicles *)

Section short_pools.
Import rotation_service.

Lemma slice_short {A} (l : list A) (k : nat) :
  (length l < 2)%nat -> (length (slice l 0 (0 + k)) <? 2)%nat = true.
Proof.
  intros Hshort. rewrite slice_length. apply Nat.ltb_lt. lia.
Qed.

Lemma is_empty_false {A} (l : list A) : l <> [] -> is_empty l = false.
Proof. destruct l; [contradiction | reflexivity]. Qed.

(** X26. A regeneration with a single driver on duty, or a single vehicle
    in service, deletes the schedule of the day and puts nothing in its
    place: on a store that executes every statement it returns no trip and
    commits the database with the day's trips, assignments, tickets, GPS
    records and driver exchanges removed. *)
Theorem regenerate_with_short_pools (d : date) (db : DB) :
  drivers_on_duty db <> [] ->
  vehicles_in_service db <> [] ->
  (length (drivers_on_duty db) < 2)%nat \/ (length (vehicles_in_service db) < 2)%nat ->
  in_session (generate_daily_schedule reliable d true) db
  = (Ok [], spec_cleanup d db).
Proof.
  intros Hdrivers Hvehicles Hshort.
  unfold in_session. rewrite regenerate_reliable_from_cleanup.
  unfold build_schedule.
  repeat (erewrite bind_ok by apply query_reliable).
  cbn [working committed trace].
  destruct (cleanup_keeps_pools d db) as (_ & -> & ->).
  rewrite (is_empty_false _ Hdrivers), (is_empty_false _ Hvehicles). cbn [orb].
  erewrite bind_ok.
  2: { apply passed_over_ends_generation.
       apply orb_true_iff.
       destruct Hshort as [H | H]; [left | right]; apply slice_short; exact H. }
  reflexivity.
Qed.

Lemma regenerate_with_short_pools_witness :
  count_trips 0 one_driver_db = 1%nat
  /\ in_session (generate_daily_schedule reliable 0 true) one_driver_db
     = (Ok [], spec_cleanup 0 one_driver_db)
  /\ count_trips 0 (spec_cleanup 0 one_driver_db) = 0%nat.
Proof.
  split; [reflexivity |]. split; [| reflexivity].
  apply (regenerate_with_short_pools 0 one_driver_db);
    [discriminate | discriminate | left; simpl; lia].
Defined.

End short_pools.

(** ** The end request and users without a driver row *)

Section break_endpoints_refusals.
Import break_service break_status driver_api.

(** X27. The answer to an end request of a user with one driver row: the
    updated driver, written back ACTIVE, when the row is ON_BREAK with a
    break start; status 400 with the message that the driver is not on
    break otherwise, the store being left as it was. *)
Theorem request_end_break_outcome (now : datetime) (uid : Z) (st : Store)
    (driver : Driver) :
  my_driver uid st = Returned driver ->
  match request_end_break now uid st with
  | (Returned updated, st') =>
      driver_status driver = ON_BREAK
      /\ break_start_time driver <> None
      /\ driver_status updated = ACTIVE
      /\ driver_id updated = driver_id driver
      /\ In updated (driver_rows st')
  | (Refused e, st') =>
      (driver_status driver <> ON_BREAK \/ break_start_time driver = None)
      /\ status_code e = 400
      /\ detail e = "Driver is not on break"%string
      /\ st' = st
  | (Unhandled _, _) => False
  end.
Proof.
  intros Hmine. unfold request_end_break. rewrite Hmine.
  assert (Hin : In driver (driver_rows st)).
  { unfold my_driver in Hmine. apply scalar_one_Returned in Hmine.
    assert (H : In driver (filter (fun d => driver_user_id d =? uid) (driver_rows st)))
      by (rewrite Hmine; left; reflexivity).
    apply filter_In in H. tauto. }
  unfold end_break.
  destruct (DriverStatus_eqb (driver_status driver) ON_BREAK) eqn:Hstatus.
  - apply DriverStatus_eqb_eq in Hstatus.
    destruct (break_start_time driver) as [started |] eqn:Hstarted.
    + split; [exact Hstatus |]. split; [discriminate |].
      split; [reflexivity |]. split; [reflexivity |].
      cbn [driver_rows]. unfold write_back. apply in_map_iff.
      exists driver. split; [| exact Hin].
      cbn [driver_id]. rewrite Z.eqb_refl. reflexivity.
    + cbn. auto.
  - apply DriverStatus_eqb_neq in Hstatus. cbn. auto.
Qed.

Lemma request_end_break_outcome_witness :
  match request_end_break 1030 70 (mkStore [driver_on_break] store_on_break) with
  | (Returned updated, st') =>
      driver_status driver_on_break = ON_BREAK
      /\ break_start_time driver_on_break <> None
      /\ driver_status updated = ACTIVE
      /\ driver_id updated = driver_id driver_on_break
      /\ In updated (driver_rows st')
  | (Refused e, st') =>
      (driver_status driver_on_break <> ON_BREAK
       \/ break_start_time driver_on_break = None)
      /\ status_code e = 400
      /\ detail e = "Driver is not on break"%string
      /\ st' = mkStore [driver_on_break] store_on_break
  | (Unhandled _, _) => False
  end.
Proof.
  exact (request_end_break_outcome 1030 70 (mkStore [driver_on_break] store_on_break)
           driver_on_break eq_refl).
Defined.

(** X28. A user without exactly one driver row gets no break: both break
    requests end in an exception no handler catches, which the framework
    answers with status 500, and leave the store as it was.  An ADMIN, whom
    the role check of the driver router lets through, is such a user unless
    a driver row carries the user's key. *)
Theorem break_requests_need_a_driver_row (settings : Settings) (now : datetime)
    (uid : Z) (st : Store) :
  (forall driver, my_driver uid st <> Returned driver) ->
  exists error,
    (error = "NoResultFound"%string \/ error = "MultipleResultsFound"%string)
    /\ request_start_break settings now uid st = (Unhandled error, st)
    /\ request_end_break now uid st = (Unhandled error, st).
Proof.
  intros Hnone. unfold request_start_break, request_end_break.
  destruct (my_driver uid st) as [driver | e | error] eqn:Hmine.
  - exfalso. exact (Hnone driver eq_refl).
  - exfalso. unfold my_driver, scalar_one in Hmine.
    destruct (filter _ _) as [| x [| y rest]]; discriminate.
  - exists error. split; [| split; reflexivity].
    unfold my_driver, scalar_one in Hmine.
    destruct (filter _ _) as [| x [| y rest]]; [| discriminate |];
      injection Hmine as <-; auto.
Qed.

Lemma break_requests_need_a_driver_row_witness :
  exists error,
    (error = "NoResultFound"%string \/ error = "MultipleResultsFound"%string)
    /\ request_start_break default_settings 1000 1 (mkStore [driver_on_trip] empty_store)
       = (Unhandled error, mkStore [driver_on_trip] empty_store)
    /\ request_end_break 1000 1 (mkStore [driver_on_trip] empty_store)
       = (Unhandled error, mkStore [driver_on_trip] empty_store).
Proof.
  apply (break_requests_need_a_driver_row default_settings 1000 1
           (mkStore [driver_on_trip] empty_store)).
  intros driver. discriminate.
Defined.

End break_endpoints_refusals.
